(** * Telecom routing server and FLX engine: framing codec, request path,
      worker tasks, response dispatcher and engine loop.

    Shallow embedding of
      include/protocol.hpp   (MsgHdr, pack, unpack)
      include/ipc_mq.hpp     (MqConfig, PosixMq::send)
      include/alr_store.hpp  (AlrRecord, AlrStore, route_policy)
      include/common.hpp     (next_corr_id)
      include/thread_pool.hpp (ThreadPool::submit)
      src/routing_server.cpp (trim_newline, event loop, workers, dispatcher)
      src/flx_engine.cpp     (json_get_string, engine loop)

    Conventions.  Fixed-width unsigned integers are [Z] with the wrap-around
    written where the source truncates; [size_t] is 64 bits wide.  A
    [std::string] is a [string], a [std::vector<uint8_t>] a [list byte]; the
    host is little-endian and [MsgHdr] is packed, so the header occupies
    exactly 24 bytes.  [std::unordered_map] is a [gmap].  A
    [std::shared_ptr<Pending>] is a location in a store of slots, so that the
    pending table and the worker task that share a slot see the same object. *)

From Stdlib Require Import ZArith Lia List String Ascii DecimalString.
From Stdlib.Strings Require Import Byte.
From stdpp Require Import gmap strings list fin_maps.

Local Open Scope Z_scope.

(** ** Machine integers *)

Definition wrap32 (z : Z) : Z := z mod 2 ^ 32.
Definition wrap64 (z : Z) : Z := z mod 2 ^ 64.

(** The byte holding the low eight bits of [z]. *)
Definition byte_of_Z (z : Z) : byte :=
  match Byte.of_N (Z.to_N (z mod 256)) with
  | Some b => b
  | None => x00
  end.

Definition Z_of_byte (b : byte) : Z := Z.of_N (Byte.to_N b).

(** [memcpy] of an [n]-byte unsigned field to and from memory on a
    little-endian host. *)
Fixpoint le_bytes (n : nat) (z : Z) : list byte :=
  match n with
  | O => []
  | S n' => byte_of_Z z :: le_bytes n' (z / 256)
  end.

Fixpoint le_value (bs : list byte) : Z :=
  match bs with
  | [] => 0
  | b :: r => Z_of_byte b + 256 * le_value r
  end.

(** ** protocol.hpp *)

Module Protocol.

Inductive MsgType : Set := RouteReq | RouteResp.

(** [static_cast<uint16_t>(t)] *)
Definition msgtype_code (t : MsgType) : Z :=
  match t with
  | RouteReq => 1
  | RouteResp => 2
  end.

Definition MAGIC : Z := 0x54524D51.

Record MsgHdr : Set := mkHdr {
  magic : Z;        (* uint32_t *)
  version : Z;      (* uint16_t *)
  type : Z;         (* uint16_t *)
  corr_id : Z;      (* uint64_t *)
  payload_len : Z;  (* uint32_t *)
  reserved : Z      (* uint32_t *)
}.

(** [sizeof(MsgHdr)] under [#pragma pack(1)]. *)
Definition HDR_SIZE : nat := 24.

(** The object representation of a header: what [memcpy(out.data(), &h,
    sizeof(MsgHdr))] writes. *)
Definition hdr_bytes (h : MsgHdr) : list byte :=
  le_bytes 4 (magic h) ++ le_bytes 2 (version h) ++ le_bytes 2 (type h) ++
  le_bytes 8 (corr_id h) ++ le_bytes 4 (payload_len h) ++
  le_bytes 4 (reserved h).

(** What [memcpy(&h, data, sizeof(MsgHdr))] reads. *)
Definition hdr_of_bytes (d : list byte) : MsgHdr :=
  {| magic := le_value (take 4 d);
     version := le_value (take 2 (drop 4 d));
     type := le_value (take 2 (drop 6 d));
     corr_id := le_value (take 8 (drop 8 d));
     payload_len := le_value (take 4 (drop 16 d));
     reserved := le_value (take 4 (drop 20 d)) |}.

(** [pack]: the header defaults, then type, correlation id and the payload
    size truncated to 32 bits; the payload follows the header.  There is no
    size check and no failure path. *)
Definition pack (t : MsgType) (corr : Z) (payload : string) : list byte :=
  let h := {| magic := MAGIC;
              version := 1;
              type := msgtype_code t;
              corr_id := corr;
              payload_len := wrap32 (Z.of_nat (String.length payload));
              reserved := 0 |} in
  hdr_bytes h ++ list_byte_of_string payload.

(** [unpack]: [None] is the [false] return; on success the header and the
    payload that the two out-parameters receive. *)
Definition unpack (data : list byte) : option (MsgHdr * string) :=
  let len := Z.of_nat (length data) in
  if len <? Z.of_nat HDR_SIZE then None
  else
    let h := hdr_of_bytes data in
    if negb (magic h =? MAGIC) || negb (version h =? 1) then None
    else if negb (wrap64 (Z.of_nat HDR_SIZE + payload_len h) =? len) then None
    else Some (h, string_of_list_byte
                    (take (Z.to_nat (payload_len h)) (drop HDR_SIZE data))).

End Protocol.
Export Protocol.

(** ** ipc_mq.hpp *)

Module Mq.

Record MqConfig : Set := mkCfg {
  name : string;
  maxmsg : Z;
  msgsize : Z;
  create : bool;
  nonblock : bool
}.

(** What a function call does: it returns a value or throws
    [std::runtime_error] with a message. *)
Inductive outcome (A : Type) : Type :=
  | Ret (a : A)
  | Throw (what : string).
Arguments Ret {A} a.
Arguments Throw {A} what.

(** The result of the kernel's [mq_send]: success, or failure with [errno]
    either [EAGAIN] or something else. *)
Inductive os_send : Set := OsOk | OsEAGAIN | OsErr (msg : string).

(** A [PosixMq] object: whether [mqd_] is a valid descriptor, and [cfg_]. *)
Record PosixMq : Set := mkMq {
  is_open : bool;
  cfg_ : MqConfig
}.

(** [static_cast<size_t>(v)] of a [long] [v], both of 64 bits: a negative
    value becomes [v + 2 ^ 64]. *)
Definition size_t_of_long (v : Z) : Z := wrap64 v.

(** [PosixMq::send] on a message of [len] bytes, [len] a [size_t].  [os]
    is what the kernel answers if it is asked; [asked] in the result tells
    whether [mq_send] was called at all.  The function decides by the
    length alone; the message is on the queue exactly when the result is
    true, which its callers below record. *)
Definition send (q : PosixMq) (len : Z) (os : os_send) : outcome bool * bool :=
  if negb (is_open q) then (Ret false, false)
  else if len >? size_t_of_long (msgsize (cfg_ q))
       then (Throw "mq_send message too large", false)
  else match os with
       | OsOk => (Ret true, true)
       | OsEAGAIN => (Ret false, true)
       | OsErr e => (Throw ("mq_send failed: " +:+ e), true)
       end.

End Mq.
Export Mq.


(** ** JSON text

    The source writes its JSON as string literals with escaped double
    quotes; here the quote character is [DQ] and [jq s] is [s] between two
    quotes. *)

Definition DQ : string := String "034"%char EmptyString.
Definition NL : string := String "010"%char EmptyString.
Definition CR : string := String "013"%char EmptyString.

Definition jq (s : string) : string := DQ +:+ s +:+ DQ.

(** [operator<<] of an unsigned integer: its decimal digits. *)
Definition dec (z : Z) : string := NilZero.string_of_uint (N.to_uint (Z.to_N z)).

(** [s.empty()] *)
Definition empty (s : string) : bool :=
  match s with
  | EmptyString => true
  | String _ _ => false
  end.

(** Does [p] occur in [s] as a contiguous substring? *)
Fixpoint contains (p s : string) : bool :=
  String.prefix p s ||
  match s with
  | EmptyString => false
  | String _ r => contains p r
  end.

(** A JSON text has a field [k] when it contains the key in quotes followed
    by a colon. *)
Definition has_field (k : string) (s : string) : bool :=
  contains (jq k +:+ ":") s.

(** The pieces of a text between its double quotes. *)
Fixpoint quote_split (l : list ascii) : list (list ascii) :=
  match l with
  | [] => [[]]
  | c :: r =>
      if Ascii.eqb c "034"%char then [] :: quote_split r
      else match quote_split r with
           | [] => [[c]]
           | h :: t => (c :: h) :: t
           end
  end.

(** [s] holds no double quote. *)
Definition noq (s : string) : bool :=
  forallb (fun c => negb (Ascii.eqb c "034"%char)) (list_ascii_of_string s).

(** The pieces [segs] with a double quote between each two. *)
Fixpoint join_dq (segs : list string) : string :=
  match segs with
  | [] => EmptyString
  | a :: rest =>
      match rest with
      | [] => a
      | _ :: _ => a +:+ DQ +:+ join_dq rest
      end
  end.

(** [s] does not hold the character [ch]. *)
Definition lacks (ch : ascii) (s : string) : bool :=
  forallb (fun c => negb (Ascii.eqb c ch)) (list_ascii_of_string s).

(** ** common.hpp and thread_pool.hpp *)

(** A [std::shared_ptr<Pending>]: the address of a slot. *)
Definition loc : Set := positive.

(** The closure a worker runs, with its captures [fd], [corr], [pend] and
    [req = line]. *)
Record Task : Set := mkTask {
  t_fd : Z;
  t_corr : Z;
  t_pend : loc;
  t_req : string
}.

Module Pool.

Record ThreadPool : Set := mkPool {
  stop_ : bool;
  q_ : list Task
}.

(** [ThreadPool::submit] *)
Definition submit (fn : Task) (p : ThreadPool) : outcome ThreadPool :=
  if stop_ p then Throw "ThreadPool stopped"
  else Ret {| stop_ := stop_ p; q_ := q_ p ++ [fn] |}.

End Pool.
Export Pool.

(** ** routing_server.cpp *)

Module Server.

Definition MAX_PENDING : Z := 100000.

(** [struct Pending] without its mutex and condition variable. *)
Record Pending : Set := mkPending {
  done : bool;
  resp : string
}.

Record Conn : Set := mkConn {
  fd : Z;
  inbuf : string;
  outq : list string;
  want_write : bool
}.

(** The state [main] keeps: the connection table, the pending table, the
    slots the shared pointers refer to, the counter [g] of [next_corr_id],
    and the worker pool. *)
Record Server : Type := mkServer {
  conns : gmap Z Conn;
  pending : gmap Z loc;
  slots : gmap loc Pending;
  corr_counter : Z;
  pool : ThreadPool
}.

(** The request queue as [main] opens it. *)
Definition mq_req : PosixMq :=
  {| is_open := true;
     cfg_ := {| name := "/tr_mq_req"; maxmsg := 2048; msgsize := 8192;
                create := false; nonblock := true |} |}.

(** [s.back()] and [s.pop_back()] on a non-empty string. *)
Fixpoint back (s : string) : option ascii :=
  match s with
  | EmptyString => None
  | String c EmptyString => Some c
  | String _ r => back r
  end.

Fixpoint pop_back (s : string) : string :=
  match s with
  | EmptyString => EmptyString
  | String _ EmptyString => EmptyString
  | String c r => String c (pop_back r)
  end.

Definition is_crlf (c : ascii) : bool :=
  Ascii.eqb c "010"%char || Ascii.eqb c "013"%char.

(** Every character of [s] is a carriage return or a newline. *)
Definition all_crlf (s : string) : bool :=
  forallb is_crlf (list_ascii_of_string s).

(** The [while] loop of [trim_newline]; every round removes one character,
    so [String.length s] rounds are enough. *)
Fixpoint trim_loop (fuel : nat) (s : string) : string :=
  match fuel with
  | O => s
  | S f =>
      match back s with
      | Some c => if is_crlf c then trim_loop f (pop_back s) else s
      | None => s
      end
  end.

Definition trim_newline (s : string) : string := trim_loop (String.length s) s.

Definition BUSY_LINE : string :=
  "{" +:+ jq "status" +:+ ":" +:+ jq "BUSY" +:+ "," +:+
  jq "reason" +:+ ":" +:+ jq "overload" +:+ "}" +:+ NL.

Definition MQ_FULL : string :=
  "{" +:+ jq "status" +:+ ":" +:+ jq "ERROR" +:+ "," +:+
  jq "reason" +:+ ":" +:+ jq "mq_full" +:+ "}".

Definition TIMEOUT : string :=
  "{" +:+ jq "status" +:+ ":" +:+ jq "TIMEOUT" +:+ "," +:+
  jq "reason" +:+ ":" +:+ jq "flx_no_response" +:+ "}".

Definition set_conns (c : gmap Z Conn) (s : Server) : Server :=
  {| conns := c; pending := pending s; slots := slots s;
     corr_counter := corr_counter s; pool := pool s |}.

Definition set_slots (h : gmap loc Pending) (s : Server) : Server :=
  {| conns := conns s; pending := pending s; slots := h;
     corr_counter := corr_counter s; pool := pool s |}.

(** [it->second.outq.emplace_back(line)] on the connection [fd]. *)
Definition push_out (fd : Z) (line : string) (s : Server) : Server :=
  set_conns
    (alter (fun c => {| fd := Server.fd c; inbuf := inbuf c;
                        outq := outq c ++ [line];
                        want_write := want_write c |}) fd (conns s)) s.

(** The [enable_write] lambda; the [epoll_ctl] call leaves no trace here. *)
Definition enable_write (fd : Z) (on : bool) (s : Server) : Server :=
  match conns s !! fd with
  | None => s
  | Some c =>
      set_conns (<[fd := {| fd := Server.fd c; inbuf := inbuf c;
                            outq := outq c; want_write := on |}]> (conns s)) s
  end.

(** [next_corr_id]: [g.fetch_add(1)] on a 64-bit counter. *)
Definition next_corr_id (s : Server) : Z * Server :=
  (corr_counter s,
   {| conns := conns s; pending := pending s; slots := slots s;
      corr_counter := wrap64 (corr_counter s + 1); pool := pool s |}).

(** [std::make_shared<Pending>()]: a slot at an address not in use, with
    [done = false] and an empty [resp]. *)
Definition make_shared_Pending (s : Server) : loc * Server :=
  let l := fresh (dom (slots s)) in
  (l, set_slots (<[l := {| done := false; resp := EmptyString |}]> (slots s)) s).

(** [pending.emplace(corr, pend)]: no effect when the key is present. *)
Definition emplace (corr : Z) (pend : loc) (m : gmap Z loc) : gmap Z loc :=
  match m !! corr with
  | Some _ => m
  | None => <[corr := pend]> m
  end.

(** The keys of the pending table are correlation ids that [next_corr_id]
    has already handed out. *)
Definition ids_allocated (s : Server) : Prop :=
  forall k l, pending s !! k = Some l -> 0 < k < corr_counter s.

(** The body of the line loop once a line has been cut from [inbuf]:
    trimming, the empty-line skip, the backpressure check and the hand-off
    to the pool.  [Throw] is an exception leaving [main]. *)
Definition on_line (fd : Z) (line : string) (s : Server) : outcome Server :=
  let line := trim_newline line in
  if empty line then Ret s
  else if Z.of_nat (size (pending s)) >? MAX_PENDING then
    Ret (enable_write fd true (push_out fd BUSY_LINE s))
  else
    let '(corr, s1) := next_corr_id s in
    let '(pend, s2) := make_shared_Pending s1 in
    let s3 := {| conns := conns s2; pending := emplace corr pend (pending s2);
                 slots := slots s2; corr_counter := corr_counter s2;
                 pool := pool s2 |} in
    match submit {| t_fd := fd; t_corr := corr; t_pend := pend; t_req := line |}
                 (pool s3) with
    | Throw e => Throw e
    | Ret p => Ret {| conns := conns s3; pending := pending s3;
                      slots := slots s3; corr_counter := corr_counter s3;
                      pool := p |}
    end.

(** [inbuf.find('\n')], [substr(0, pos + 1)] and [erase(0, pos + 1)]: the
    first line with its newline, and what stays in the buffer. *)
Definition take_line (buf : string) : option (string * string) :=
  match index 0 NL buf with
  | None => None
  | Some pos =>
      Some (substring 0 (pos + 1) buf,
            substring (pos + 1) (String.length buf - (pos + 1)) buf)
  end.

(** The line loop on connection [fd].  [None] means the fuel ran out. *)
Fixpoint line_loop (fuel : nat) (fd : Z) (s : Server) : option (outcome Server) :=
  match fuel with
  | O => None
  | S f =>
      match conns s !! fd with
      | None => Some (Ret s)
      | Some c =>
          match take_line (inbuf c) with
          | None => Some (Ret s)
          | Some (line, rest) =>
              let s1 := set_conns
                          (<[fd := {| fd := Server.fd c; inbuf := rest;
                                      outq := outq c;
                                      want_write := want_write c |}]> (conns s)) s in
              match on_line fd line s1 with
              | Throw e => Some (Throw e)
              | Ret s2 => line_loop f fd s2
              end
          end
      end
  end.

(** Storing a response in the slot at [l] and setting its latch:
    [p->resp = r; p->done = true]. *)
Definition complete (l : loc) (r : string) (s : Server) : Server :=
  set_slots (alter (fun _ => {| done := true; resp := r |}) l (slots s)) s.

(** The retry loop of the worker: at most [n] further calls of [send],
    the [k]-th of which the kernel answers with [os k].  The result is what
    the loop leaves in [sent] (or the exception that left it), the number of
    calls that reached the kernel, and the microseconds slept. *)
Fixpoint send_retry (q : PosixMq) (len : Z) (os : nat -> os_send)
    (n k : nat) : outcome bool * nat * Z :=
  match n with
  | O => (Ret false, O, 0)
  | S n' =>
      match send q len (os k) with
      | (Throw e, asked) => (Throw e, if asked then 1%nat else O, 0)
      | (Ret true, asked) => (Ret true, if asked then 1%nat else O, 0)
      | (Ret false, asked) =>
          let '(r, calls, slept) := send_retry q len os n' (S k) in
          (r, ((if asked then 1 else 0) + calls)%nat, 200 + slept)
      end
  end.

(** First part of a worker task: pack, the bounded retry, and the local
    completion when nothing was sent.  An exception is caught and logged by
    the task itself, which then ends.  The third component is what the task
    has put on the request queue: the frame [msg] when an attempt has
    returned true, nothing otherwise. *)
Definition worker_send_io (q : PosixMq) (os : nat -> os_send) (t : Task)
    (s : Server) : outcome unit * Server * list (list byte) :=
  let msg := pack RouteReq (t_corr t) (t_req t) in
  match send_retry q (Z.of_nat (length msg)) os 1000 0 with
  | (Throw e, _, _) => (Throw e, s, [])
  | (Ret true, _, _) => (Ret tt, s, [msg])
  | (Ret false, _, _) => (Ret tt, complete (t_pend t) MQ_FULL s, [])
  end.

(** The same seen from the server alone: the result and the state. *)
Definition worker_send (q : PosixMq) (os : nat -> os_send) (t : Task)
    (s : Server) : outcome unit * Server :=
  fst (worker_send_io q os t s).

(** Second part: what the task does when [wait_for] returns.  The call
    returns the value of the predicate [pend->done]; when that is false the
    500 ms have elapsed and the slot is filled locally. *)
Definition worker_wait (t : Task) (s : Server) : Server :=
  match slots s !! t_pend t with
  | Some p => if done p then s else complete (t_pend t) TIMEOUT s
  | None => s
  end.

(** Third part: the response line goes to the connection, if it is still
    in the table. *)
Definition worker_reply (t : Task) (s : Server) : Server :=
  match slots s !! t_pend t with
  | None => s
  | Some p =>
      let resp_line := resp p +:+ NL in
      match conns s !! t_fd t with
      | None => s
      | Some _ => enable_write (t_fd t) true (push_out (t_fd t) resp_line s)
      end
  end.

(** A whole task run without another thread in between. *)
Definition worker_task (q : PosixMq) (os : nat -> os_send) (t : Task)
    (s : Server) : Server :=
  match worker_send q os t s with
  | (Throw _, s1) => s1
  | (Ret _, s1) => worker_reply t (worker_wait t s1)
  end.

(** The response dispatcher on one received message [data]. *)
Definition dispatch (data : list byte) (s : Server) : Server :=
  match unpack data with
  | None => s
  | Some (h, payload) =>
      if negb (type h =? msgtype_code RouteResp) then s
      else match pending s !! corr_id h with
           | None => s
           | Some p =>
               complete p payload
                 {| conns := conns s; pending := delete (corr_id h) (pending s);
                    slots := slots s; corr_counter := corr_counter s;
                    pool := pool s |}
           end
  end.

(** The dispatcher on the messages [frames], received in this order. *)
Definition dispatch_all (frames : list (list byte)) (s : Server) : Server :=
  foldl (fun a data => dispatch data a) s frames.

(** What the threads of the server do, one atomic action at a time: the
    event loop handles a line, the dispatcher a message, a worker one of
    the three parts of a task.  Which task is at which part is not tracked:
    any task may take any part at any time, which admits every run of the
    pool and more.  The third part, the reply, is one action here; its push
    and its call of [enable_write] are taken apart in [Overlap] below. *)
Inductive event : Type :=
  | EvLine (fd : Z) (line : string)
  | EvResp (data : list byte)
  | EvSend (t : Task) (os : nat -> os_send)
  | EvWait (t : Task)
  | EvReply (t : Task).

Inductive step : Server -> event -> Server -> Prop :=
  | step_line fd line s s' :
      on_line fd line s = Ret s' -> step s (EvLine fd line) s'
  | step_resp data s :
      step s (EvResp data) (dispatch data s)
  | step_send t os s :
      step s (EvSend t os) (snd (worker_send mq_req os t s))
  | step_wait t s :
      step s (EvWait t) (worker_wait t s)
  | step_reply t s :
      step s (EvReply t) (worker_reply t s).

(** The server before the first event, with the connections [c]. *)
Definition init (c : gmap Z Conn) : Server :=
  {| conns := c; pending := ∅; slots := ∅; corr_counter := 1;
     pool := {| stop_ := false; q_ := [] |} |}.

(** A run used below: one client on descriptor 5 sends a request line, the
    task sends it at once, no response comes and the wait times out; then a
    response frame for the same correlation id arrives late. *)
Definition run_accepted : Server :=
  match on_line 5 ("{}" +:+ NL) (init {[ 5 := mkConn 5 EmptyString [] false ]}) with
  | Ret s => s
  | Throw _ => init ∅
  end.

Definition run_task : Task :=
  hd (mkTask 0 0 1%positive EmptyString) (q_ (pool run_accepted)).

Definition run_timed_out : Server :=
  worker_wait run_task (snd (worker_send mq_req (fun _ => OsOk) run_task run_accepted)).

Definition late_frame : list byte := pack RouteResp 1 "{late}".

(** A server with [n] requests in flight: correlation ids 1 to [n], each
    with its entry in the pending table, and one idle client on
    descriptor 5. *)
Definition busy_entries (n : nat) : list (Z * loc) :=
  (fun i => (Z.of_nat i, Pos.of_nat i)) <$> seq 1 n.

Definition busy (n : nat) : Server :=
  {| conns := {[ 5 := mkConn 5 EmptyString [] false ]};
     pending := list_to_map (busy_entries n);
     slots := list_to_map ((fun i => (Pos.of_nat i, mkPending false EmptyString))
                             <$> seq 1 n);
     corr_counter := Z.of_nat n + 1;
     pool := mkPool false [] |}.

End Server.
Export Server.

(** ** alr_store.hpp *)

Module Alr.

Record AlrRecord : Set := mkRec {
  imsi : string;
  serving_msc : string;
  serving_vlr : string;
  region : string
}.

(** The map [db_] after the constructor of [AlrStore]. *)
Definition db_ : gmap string AlrRecord :=
  <["+442079460123" := mkRec "234150111222333" "MSC_LON_01" "VLR_LON_01" "UK"]>
  (<["+12125550123" := mkRec "310150987654321" "MSC_NYC_01" "VLR_NYC_01" "US-EAST"]>
  (<["+14085551234" := mkRec "310150123456789" "MSC_DALLAS_01" "VLR_DAL_01" "US-SOUTH"]>
   ∅)).

Definition seeded_keys : list string :=
  ["+14085551234"; "+12125550123"; "+442079460123"].

Definition lookup_msisdn (msisdn : string) : option AlrRecord := db_ !! msisdn.

Definition route_policy (rec : AlrRecord) : string :=
  if String.eqb (region rec) "US-EAST" then "ROUTE_GROUP_EAST"
  else if String.eqb (region rec) "US-SOUTH" then "ROUTE_GROUP_SOUTH"
  else "ROUTE_GROUP_INTL".

End Alr.
Export Alr.

(** ** flx_engine.cpp *)

Module Engine.

(** [json_get_string]; [std::string::find] from a position is
    [String.index], [npos] is [None]. *)
Definition json_get_string (j key : string) : string :=
  let pat := DQ +:+ key +:+ DQ in
  match index 0 pat j with
  | None => EmptyString
  | Some k =>
      match index (k + String.length pat) ":" j with
      | None => EmptyString
      | Some colon =>
          match index colon DQ j with
          | None => EmptyString
          | Some q1 =>
              match index (q1 + 1) DQ j with
              | None => EmptyString
              | Some q2 => substring (q1 + 1) (q2 - (q1 + 1)) j
              end
          end
      end
  end.

(** The text the engine streams into [resp] for a request with header [h]
    and payload [payload]; [t0] and [t1] are the two readings of
    [steady_millis]. *)
Definition response (h : MsgHdr) (payload : string) (t0 t1 : Z) : string :=
  let msisdn := json_get_string payload "msisdn" in
  let op := json_get_string payload "op" in
  "{" +:+
  jq "corr_id" +:+ ":" +:+ dec (corr_id h) +:+ "," +:+
  jq "op" +:+ ":" +:+ DQ +:+ (if empty op then "route" else op) +:+ DQ +:+ "," +:+
  jq "msisdn" +:+ ":" +:+ DQ +:+ msisdn +:+ DQ +:+ "," +:+
  match lookup_msisdn msisdn with
  | None =>
      jq "status" +:+ ":" +:+ jq "NOT_FOUND" +:+ "," +:+
      jq "reason" +:+ ":" +:+ jq "subscriber_not_in_alr"
  | Some rec =>
      let rg := route_policy rec in
      jq "status" +:+ ":" +:+ jq "OK" +:+ "," +:+
      jq "imsi" +:+ ":" +:+ DQ +:+ imsi rec +:+ DQ +:+ "," +:+
      jq "serving_msc" +:+ ":" +:+ DQ +:+ serving_msc rec +:+ DQ +:+ "," +:+
      jq "serving_vlr" +:+ ":" +:+ DQ +:+ serving_vlr rec +:+ DQ +:+ "," +:+
      jq "route_group" +:+ ":" +:+ DQ +:+ rg +:+ DQ
  end +:+
  "," +:+ jq "flx_latency_ms" +:+ ":" +:+ dec (wrap64 (t1 - t0)) +:+
  "}".

(** One round of the engine loop on a received message [data]: [None]
    when the message is dropped, otherwise the frame handed to
    [mq_resp.send]. *)
Definition handle (data : list byte) (t0 t1 : Z) : option (list byte) :=
  if Z.of_nat (length data) <=? 0 then None
  else match unpack data with
       | None => None
       | Some (h, payload) =>
           if negb (type h =? msgtype_code RouteReq) then None
           else Some (pack RouteResp (corr_id h) (response h payload t0 t1))
       end.

End Engine.
Export Engine.

(** ** thread_pool.hpp: the worker loop and the destructor *)

Module PoolLoop.

(** One round of [ThreadPool::worker_loop] on the shared queue: the worker
    stays in [cv_.wait] while the pool runs and the queue is empty, returns
    when the pool is stopped and the queue is empty, and otherwise takes the
    job at the front. *)
Inductive round : Set :=
  | Blocked
  | Exit
  | Run (job : Task) (p : ThreadPool).

Definition worker_round (p : ThreadPool) : round :=
  match q_ p with
  | [] => if stop_ p then Exit else Blocked
  | job :: rest => Run job {| stop_ := stop_ p; q_ := rest |}
  end.

(** The destructor sets [stop_] and wakes the workers. *)
Definition shutdown (p : ThreadPool) : ThreadPool :=
  {| stop_ := true; q_ := q_ p |}.

(** [submit] of the jobs of a list, one after the other; the first
    exception ends the sequence. *)
Fixpoint submit_all (jobs : list Task) (p : ThreadPool) : outcome ThreadPool :=
  match jobs with
  | [] => Ret p
  | j :: rest =>
      match submit j p with
      | Throw e => Throw e
      | Ret p' => submit_all rest p'
      end
  end.

(** The jobs one worker runs, in order, until it blocks or returns; the
    flag tells whether it returned.  A round with a job shortens the queue,
    so fuel above the queue length is never used up. *)
Fixpoint drain (fuel : nat) (p : ThreadPool) : list Task * bool :=
  match fuel with
  | O => ([], false)
  | S f =>
      match worker_round p with
      | Blocked => ([], false)
      | Exit => ([], true)
      | Run job p' => let '(jobs, exited) := drain f p' in (job :: jobs, exited)
      end
  end.

End PoolLoop.
Export PoolLoop.

(** ** routing_server.cpp: sockets *)

Module ServerIO.

(** [conns.emplace(cfd, Conn{cfd})] after [accept]: a connection with empty
    buffers and no write interest; no effect when the key is present. *)
Definition accept_conn (cfd : Z) (s : Server) : Server :=
  match conns s !! cfd with
  | Some _ => s
  | None =>
      set_conns (<[cfd := {| fd := cfd; inbuf := EmptyString; outq := [];
                             want_write := false |}]> (conns s)) s
  end.

(** The [close_conn] lambda. *)
Definition close_conn (cfd : Z) (s : Server) : Server :=
  set_conns (delete cfd (conns s)) s.

(** [s] holds no newline. *)
Definition nl_free (s : string) : bool :=
  forallb (fun c => negb (Ascii.eqb c "010"%char)) (list_ascii_of_string s).

(** [it->second.inbuf.append(buf, buf + r)] *)
Definition append_inbuf (cfd : Z) (data : string) (s : Server) : Server :=
  set_conns
    (alter (fun c => {| fd := fd c; inbuf := inbuf c +:+ data;
                        outq := outq c; want_write := want_write c |})
       cfd (conns s)) s.

(** One successful [read] of the bytes [data] on a connection in the
    table: they are appended to the read buffer and the line loop runs.
    The fuel is above the buffer length. *)
Definition feed (cfd : Z) (data : string) (s : Server) : option (outcome Server) :=
  let s1 := append_inbuf cfd data s in
  match conns s1 !! cfd with
  | None => Some (Ret s1)
  | Some c => line_loop (S (String.length (inbuf c))) cfd s1
  end.

(** How the read loop ends: [read] returns 0 (peer closed), fails with
    [EAGAIN], or fails otherwise. *)
Inductive read_end : Set := RdEof | RdAgain | RdErr.

(** The read loop on a readable connection: the chunks the successive
    [read] calls return, then the call that ends the loop. *)
Fixpoint on_readable (cfd : Z) (chunks : list string) (fin : read_end)
    (s : Server) : option (outcome Server) :=
  match chunks with
  | [] =>
      match fin with
      | RdAgain => Some (Ret s)
      | RdEof | RdErr => Some (Ret (close_conn cfd s))
      end
  | data :: rest =>
      match feed cfd data s with
      | Some (Ret s1) => on_readable cfd rest fin s1
      | r => r
      end
  end.

(** The result of [write] on the head of the output queue: [w] bytes
    taken, or failure with [EAGAIN], or another failure. *)
Inductive os_write : Set := WrOk (w : nat) | WrAgain | WrErr.

(** What the write loop leaves: the output queue, whether the connection
    was closed, and the bytes the kernel took, in order. *)
Record written : Set := mkWritten {
  w_outq : list string;
  w_closed : bool;
  w_sent : string
}.

(** The [while (!c.outq.empty())] loop; [ws k] is the result of the [k]-th
    call of [write].  On [w] bytes taken the kernel has the first [w] bytes
    of the head; when [w] is less than its size the rest of the head stays
    at the front and the loop ends, otherwise the head is popped. *)
Fixpoint write_loop (q : list string) (ws : nat -> os_write) (k : nat) : written :=
  match q with
  | [] => {| w_outq := []; w_closed := false; w_sent := EmptyString |}
  | s :: rest =>
      match ws k with
      | WrAgain => {| w_outq := s :: rest; w_closed := false; w_sent := EmptyString |}
      | WrErr => {| w_outq := s :: rest; w_closed := true; w_sent := EmptyString |}
      | WrOk w =>
          if (w <? String.length s)%nat then
            {| w_outq := substring w (String.length s - w) s :: rest;
               w_closed := false; w_sent := substring 0 w s |}
          else
            let r := write_loop rest ws (S k) in
            {| w_outq := w_outq r; w_closed := w_closed r;
               w_sent := s +:+ w_sent r |}
      end
  end.

(** The bytes of an output queue, in the order they are to be sent. *)
Fixpoint flat (q : list string) : string :=
  match q with
  | [] => EmptyString
  | s :: rest => s +:+ flat rest
  end.

(** The handler of a writable connection: the write loop, then
    [close_conn] on an error, or else [enable_write(fd, false)] when the
    queue has emptied.  The second component is what went to the socket. *)
Definition on_writable (cfd : Z) (ws : nat -> os_write) (s : Server)
    : Server * string :=
  match conns s !! cfd with
  | None => (s, EmptyString)
  | Some c =>
      let r := write_loop (outq c) ws 0 in
      if w_closed r then (close_conn cfd s, w_sent r)
      else
        let s1 := set_conns
                    (<[cfd := {| fd := fd c; inbuf := inbuf c; outq := w_outq r;
                                 want_write := want_write c |}]> (conns s)) s in
        (match w_outq r with
         | [] => enable_write cfd false s1
         | _ :: _ => s1
         end, w_sent r)
  end.

(** The first [j] calls of [write] took each the whole string at the head
    of the queue [q]: the [i]-th call returned at least the size of the
    [i]-th string. *)
Definition whole_writes (q : list string) (ws : nat -> os_write) (j : nat) : Prop :=
  forall i x, (i < j)%nat -> q !! i = Some x ->
    exists w, ws i = WrOk w /\ (String.length x <= w)%nat.

(** The actions of the server with its sockets: those of [step], a new
    connection, a hangup, a writable and a readable connection.  Each
    handler is taken as a whole here, and each looks its connection up in
    the table: these are the runs in which no other thread acts on the
    connection table while a handler or the reply of a worker is under way.
    The event loop takes no lock, so the source has other runs too: those
    in which the write handler and the reply of a worker overlap are the
    subject of [Overlap] below.  In the source the write handler of an
    event that is readable and writable at once goes through the iterator
    found before the read handler ran; the model covers the events where
    that iterator is still valid, that is where the read handler has not
    closed the connection. *)
Inductive io_event : Type :=
  | IoStep (ev : event)
  | IoAccept (cfd : Z)
  | IoHangup (cfd : Z)
  | IoWritable (cfd : Z) (ws : nat -> os_write)
  | IoReadable (cfd : Z) (chunks : list string) (fin : read_end).

Inductive io_step : Server -> io_event -> Server -> Prop :=
  | io_inner ev s s' : step s ev s' -> io_step s (IoStep ev) s'
  | io_accept cfd s : io_step s (IoAccept cfd) (accept_conn cfd s)
  | io_hangup cfd s : io_step s (IoHangup cfd) (close_conn cfd s)
  | io_writable cfd ws s : io_step s (IoWritable cfd ws) (fst (on_writable cfd ws s))
  | io_readable cfd chunks fin s s' :
      on_readable cfd chunks fin s = Some (Ret s') ->
      io_step s (IoReadable cfd chunks fin) s'.

(** A run: the actions taken from one state to another, in order. *)
Inductive io_run : Server -> list io_event -> Server -> Prop :=
  | io_run_nil s : io_run s [] s
  | io_run_cons s ev s1 evs s2 :
      io_step s ev s1 -> io_run s1 evs s2 -> io_run s (ev :: evs) s2.

(** A run of the actions of [step] alone. *)
Inductive run : Server -> list event -> Server -> Prop :=
  | run_nil s : run s [] s
  | run_cons s ev s1 evs s2 :
      step s ev s1 -> run s1 evs s2 -> run s (ev :: evs) s2.

(** Every connection is filed under its own descriptor, and a connection
    with queued output has its write interest set. *)
Definition conns_ok (s : Server) : Prop :=
  forall k c, conns s !! k = Some c ->
    fd c = k /\ (outq c <> [] -> want_write c = true).

End ServerIO.
Export ServerIO.

(** ** routing_server.cpp: the write handler and a reply at the same time

    The event loop reads and writes the connection table without a lock;
    a worker pushes its response line and calls [enable_write] under
    [conns_mu], which only the workers take.  So the push and the
    [enable_write] of a worker can fall between the steps of the write
    handler, and the steps of the write handler between those two.  Here
    the write handler and the reply are cut into the steps between which
    the other thread can act; the accesses of the two threads to one
    connection are taken to happen one after the other, in some order. *)

Module Overlap.

(** Where the event loop is: between two events; or in the write handler
    of a connection, at the test of its [while] loop (line 292), at the
    test after the loop (lines 307 and 308), or, the queue found empty
    there, at the call [enable_write(fd, false)] of line 308. *)
Inductive loop_pc : Set :=
  | Idle
  | AtLoop (cfd : Z)
  | AtFind (cfd : Z)
  | AtDisable (cfd : Z).

(** The server, where the event loop is, and the descriptor of the worker
    that has pushed its line and holds [conns_mu] before its call of
    [enable_write], if there is one. *)
Record Sys : Type := mkSys {
  srv : Server;
  loop : loop_pc;
  holder : option Z
}.

(** [conns.find(fd) != conns.end()] and [c.outq.empty()]: the connection
    is in the table and its output queue is empty. *)
Definition found_empty (cfd : Z) (s : Server) : bool :=
  match conns s !! cfd with
  | Some c => match outq c with [] => true | _ :: _ => false end
  | None => false
  end.

(** One round of the [while] loop of the write handler on a queue that is
    not empty (lines 293 to 305); [o] is the result of [write].  The
    second component tells whether the loop goes on. *)
Definition write_round (cfd : Z) (o : os_write) (s : Server) : Server * bool :=
  match conns s !! cfd with
  | None => (s, false)
  | Some c =>
      match outq c with
      | [] => (s, false)
      | x :: rest =>
          match o with
          | WrAgain => (s, false)
          | WrErr => (close_conn cfd s, false)
          | WrOk w =>
              if (w <? String.length x)%nat then
                (set_conns
                   (<[cfd := {| fd := fd c; inbuf := inbuf c;
                                outq := substring w (String.length x - w) x :: rest;
                                want_write := want_write c |}]> (conns s)) s,
                 false)
              else
                (set_conns
                   (<[cfd := {| fd := fd c; inbuf := inbuf c; outq := rest;
                                want_write := want_write c |}]> (conns s)) s,
                 true)
          end
      end
  end.

(** Lines 273 to 278 of the reply of a worker: the response line is built
    from the slot and pushed on the connection when it is in the table.
    The second component is the descriptor for which [enable_write] is
    still to be called. *)
Definition reply_push (t : Task) (s : Server) : Server * option Z :=
  match slots s !! t_pend t with
  | None => (s, None)
  | Some p =>
      match conns s !! t_fd t with
      | None => (s, None)
      | Some _ => (push_out (t_fd t) (resp p +:+ NL) s, Some (t_fd t))
      end
  end.

(** The actions: one of [io_step] other than the write handler and the
    reply, taken as a whole; the event loop entering the write handler of
    a connection; one round of its loop; the loop left on an empty queue;
    the test after the loop; the call [enable_write(fd, false)]; the push
    of a worker; its call [enable_write(fd, true)]. *)
Inductive ov_event : Type :=
  | OvIo (ev : io_event)
  | OvWritable (cfd : Z)
  | OvRound (o : os_write)
  | OvLoopEnd
  | OvFind
  | OvDisable
  | OvPush (t : Task)
  | OvEnable.

(** The actions of [io_step] that the event loop takes. *)
Definition on_loop (ev : io_event) : bool :=
  match ev with
  | IoStep (EvLine _ _) => true
  | IoStep _ => false
  | IoAccept _ | IoHangup _ | IoWritable _ _ | IoReadable _ _ _ => true
  end.

(** The actions of [io_step] that are taken in steps here. *)
Definition in_steps (ev : io_event) : bool :=
  match ev with
  | IoWritable _ _ | IoStep (EvReply _) => true
  | _ => false
  end.

(** The event loop takes an action of its own only between two events, and
    enters the write handler of a connection only when write interest is
    set for it; a worker pushes only when no other worker holds
    [conns_mu]. *)
Inductive ov_step : Sys -> ov_event -> Sys -> Prop :=
  | ov_io ev x s' :
      io_step (srv x) ev s' ->
      in_steps ev = false ->
      (on_loop ev = true -> loop x = Idle) ->
      ov_step x (OvIo ev) {| srv := s'; loop := loop x; holder := holder x |}
  | ov_writable cfd c x :
      loop x = Idle -> conns (srv x) !! cfd = Some c -> want_write c = true ->
      ov_step x (OvWritable cfd)
        {| srv := srv x; loop := AtLoop cfd; holder := holder x |}
  | ov_round cfd o x :
      loop x = AtLoop cfd -> found_empty cfd (srv x) = false ->
      ov_step x (OvRound o)
        {| srv := fst (write_round cfd o (srv x));
           loop := if snd (write_round cfd o (srv x)) then AtLoop cfd
                   else AtFind cfd;
           holder := holder x |}
  | ov_loop_end cfd x :
      loop x = AtLoop cfd -> found_empty cfd (srv x) = true ->
      ov_step x OvLoopEnd
        {| srv := srv x; loop := AtFind cfd; holder := holder x |}
  | ov_find cfd x :
      loop x = AtFind cfd ->
      ov_step x OvFind
        {| srv := srv x;
           loop := if found_empty cfd (srv x) then AtDisable cfd else Idle;
           holder := holder x |}
  | ov_disable cfd x :
      loop x = AtDisable cfd ->
      ov_step x OvDisable
        {| srv := enable_write cfd false (srv x); loop := Idle;
           holder := holder x |}
  | ov_push t x :
      holder x = None ->
      ov_step x (OvPush t)
        {| srv := fst (reply_push t (srv x)); loop := loop x;
           holder := snd (reply_push t (srv x)) |}
  | ov_enable cfd x :
      holder x = Some cfd ->
      ov_step x OvEnable
        {| srv := enable_write cfd true (srv x); loop := loop x;
           holder := None |}.

Inductive ov_run : Sys -> list ov_event -> Sys -> Prop :=
  | ov_run_nil x : ov_run x [] x
  | ov_run_cons x ev x1 evs x2 :
      ov_step x ev x1 -> ov_run x1 evs x2 -> ov_run x (ev :: evs) x2.


(** [conns_ok] but for the connection on which a worker has pushed and
    not yet called [enable_write]. *)
Definition conns_okx (h : option Z) (s : Server) : Prop :=
  forall k c, conns s !! k = Some c ->
    fd c = k /\ (outq c <> [] -> want_write c = true \/ h = Some k).







End Overlap.
Export Overlap.

(** ** flx_engine.cpp: the response queue *)

Module EngineIO.

(** The response queue as the engine opens it. *)
Definition mq_resp : PosixMq :=
  {| is_open := true;
     cfg_ := {| name := "/tr_mq_resp"; maxmsg := 2048; msgsize := 8192;
                create := true; nonblock := false |} |}.

(** One round of the engine loop with its send: the frame that reaches the
    response queue, if any.  An exception of [send] is caught and logged,
    and the message is dropped. *)
Definition engine_round (data : list byte) (t0 t1 : Z) (os : os_send)
    : option (list byte) :=
  match handle data t0 t1 with
  | None => None
  | Some out =>
      match send mq_resp (Z.of_nat (length out)) os with
      | (Ret true, _) => Some out
      | _ => None
      end
  end.

End EngineIO.
Export EngineIO.

(** * The framing codec *)

Section Codec.

Lemma Z_of_byte_of_Z (z : Z) : Z_of_byte (byte_of_Z z) = z mod 256.
Proof.
  unfold Z_of_byte, byte_of_Z.
  assert (Hr : 0 <= z mod 256 < 256) by (apply Z.mod_pos_bound; lia).
  destruct (Byte.of_N (Z.to_N (z mod 256))) as [b|] eqn:E.
  - apply Byte.to_of_N in E. rewrite E. lia.
  - apply Byte.of_N_None_iff in E. lia.
Qed.

Lemma length_le_bytes (n : nat) (z : Z) : length (le_bytes n z) = n.
Proof. revert z. induction n as [|n IH]; intros z; simpl; [done|]. by rewrite IH. Qed.

Lemma le_value_bytes (n : nat) (z : Z) :
  0 <= z < 256 ^ Z.of_nat n -> le_value (le_bytes n z) = z.
Proof.
  revert z. induction n as [|n IH]; intros z Hz.
  - simpl in *. lia.
  - cbn [le_bytes le_value]. rewrite Z_of_byte_of_Z.
    rewrite Nat2Z.inj_succ, Z.pow_succ_r in Hz by lia.
    rewrite IH.
    + pose proof (Z.div_mod z 256). lia.
    + split; [apply Z.div_pos; lia|].
      apply Z.div_lt_upper_bound; lia.
Qed.

End Codec.

Lemma hdr_of_bytes_app (h : MsgHdr) (rest : list byte) :
  0 <= magic h < 2 ^ 32 -> 0 <= version h < 2 ^ 16 -> 0 <= type h < 2 ^ 16 ->
  0 <= corr_id h < 2 ^ 64 -> 0 <= payload_len h < 2 ^ 32 ->
  0 <= reserved h < 2 ^ 32 ->
  hdr_of_bytes (hdr_bytes h ++ rest) = h.
Proof.
  intros Hm Hv Ht Hc Hp Hr.
  unfold hdr_of_bytes, hdr_bytes.
  set (d := (_ ++ _) ++ rest).
  change (take 4 d) with (le_bytes 4 (magic h)).
  change (take 2 (drop 4 d)) with (le_bytes 2 (version h)).
  change (take 2 (drop 6 d)) with (le_bytes 2 (type h)).
  change (take 8 (drop 8 d)) with (le_bytes 8 (corr_id h)).
  change (take 4 (drop 16 d)) with (le_bytes 4 (payload_len h)).
  change (take 4 (drop 20 d)) with (le_bytes 4 (reserved h)).
  rewrite !le_value_bytes by (simpl; lia).
  by destruct h.
Qed.

Lemma length_hdr_bytes (h : MsgHdr) : length (hdr_bytes h) = HDR_SIZE.
Proof. reflexivity. Qed.

Lemma length_list_byte_of_string (s : string) :
  length (list_byte_of_string s) = String.length s.
Proof.
  unfold list_byte_of_string. rewrite length_map.
  induction s as [|c s IH]; simpl; [done | by rewrite IH].
Qed.

Lemma length_pack (t : MsgType) (c : Z) (p : string) :
  Z.of_nat (length (pack t c p)) = 24 + Z.of_nat (String.length p).
Proof.
  unfold pack. rewrite length_app, length_hdr_bytes, length_list_byte_of_string.
  unfold HDR_SIZE. lia.
Qed.

(** The round trip without any reference to a queue: it needs the
    correlation id to be a 64-bit value and the payload size to fit the
    32-bit length field. *)
Lemma unpack_pack_gen (t : MsgType) (c : Z) (p : string) :
  0 <= c < 2 ^ 64 ->
  Z.of_nat (String.length p) < 2 ^ 32 ->
  unpack (pack t c p) =
  Some ({| magic := MAGIC; version := 1; type := msgtype_code t; corr_id := c;
           payload_len := Z.of_nat (String.length p); reserved := 0 |}, p).
Proof.
  intros Hc Hp.
  assert (Hw : wrap32 (Z.of_nat (String.length p)) = Z.of_nat (String.length p)).
  { unfold wrap32. apply Z.mod_small. lia. }
  assert (Hh : hdr_of_bytes (pack t c p) =
               {| magic := MAGIC; version := 1; type := msgtype_code t;
                  corr_id := c; payload_len := Z.of_nat (String.length p);
                  reserved := 0 |}).
  { unfold pack. rewrite Hw.
    apply hdr_of_bytes_app; cbn [magic version type corr_id payload_len reserved];
      [unfold MAGIC; lia | lia | destruct t; simpl; lia | lia | lia | lia]. }
  unfold unpack. rewrite length_pack, Hh.
  cbn [magic version type corr_id payload_len reserved].
  destruct (24 + Z.of_nat (String.length p) <? Z.of_nat HDR_SIZE) eqn:E1.
  { apply Z.ltb_lt in E1. unfold HDR_SIZE in E1. lia. }
  rewrite !Z.eqb_refl. cbn [negb orb].
  assert (Hs : wrap64 (Z.of_nat HDR_SIZE + Z.of_nat (String.length p))
               = 24 + Z.of_nat (String.length p)).
  { unfold wrap64, HDR_SIZE. apply Z.mod_small. lia. }
  rewrite Hs, Z.eqb_refl. cbn [negb].
  unfold pack.
  match goal with
  | |- context [drop HDR_SIZE (hdr_bytes ?h ++ ?k)] =>
      rewrite (drop_app_length' (hdr_bytes h) k HDR_SIZE (length_hdr_bytes h))
  end.
  rewrite Nat2Z.id, <- length_list_byte_of_string, firstn_all.
  by rewrite string_of_list_byte_of_string.
Qed.

(** C1. A frame built by [pack] from a type in {RouteReq, RouteResp}, a
    64-bit correlation id and a payload whose size fits in 32 bits and
    whose frame (24 header bytes plus payload) is within the message-size
    cap of the queue is accepted by [unpack], which returns the header with
    magic 0x54524D51, version 1, that type, that correlation id, the payload
    size and a zero reserved field, and the payload itself. *)
Theorem unpack_pack (q : PosixMq) (t : MsgType) (c : Z) (p : string) :
  0 <= c < 2 ^ 64 ->
  Z.of_nat (String.length p) < 2 ^ 32 ->
  Z.of_nat HDR_SIZE + Z.of_nat (String.length p) <= msgsize (cfg_ q) ->
  unpack (pack t c p) =
  Some ({| magic := 0x54524D51; version := 1; type := msgtype_code t;
           corr_id := c; payload_len := Z.of_nat (String.length p);
           reserved := 0 |}, p).
Proof. intros Hc Hp _. by apply unpack_pack_gen. Qed.

Lemma unpack_pack_witness :
  (0 <= 7 < 2 ^ 64) /\
  Z.of_nat (String.length "{}") < 2 ^ 32 /\
  Z.of_nat HDR_SIZE + Z.of_nat (String.length "{}") <= msgsize (cfg_ mq_req) /\
  unpack (pack RouteResp 7 "{}") =
  Some ({| magic := 0x54524D51; version := 1; type := 2; corr_id := 7;
           payload_len := 2; reserved := 0 |}, "{}").
Proof.
  assert (H1 : 0 <= 7 < 2 ^ 64) by (split; [lia | reflexivity]).
  assert (H2 : Z.of_nat (String.length "{}") < 2 ^ 32) by reflexivity.
  assert (H3 : Z.of_nat HDR_SIZE + Z.of_nat (String.length "{}")
               <= msgsize (cfg_ mq_req)) by (unfold HDR_SIZE, mq_req; simpl; lia).
  split; [exact H1 |]. split; [exact H2 |]. split; [exact H3 |].
  exact (unpack_pack mq_req RouteResp 7 "{}" H1 H2 H3).
Defined.

(** * Oversize frames *)

Lemma worker_send_eq (q : PosixMq) (os : nat -> os_send) (t : Task) (s : Server) :
  worker_send q os t s =
  match send_retry q (Z.of_nat (length (pack RouteReq (t_corr t) (t_req t))))
          os 1000 0 with
  | (Throw e, _, _) => (Throw e, s)
  | (Ret true, _, _) => (Ret tt, s)
  | (Ret false, _, _) => (Ret tt, complete (t_pend t) MQ_FULL s)
  end.
Proof.
  unfold worker_send, worker_send_io.
  by destruct (send_retry q _ os 1000 0) as [[[[|]|e] calls] slept].
Qed.

Lemma size_t_of_long_id (v : Z) : 0 <= v < 2 ^ 63 -> size_t_of_long v = v.
Proof. intros H. unfold size_t_of_long, wrap64. apply Z.mod_small. lia. Qed.

Lemma size_t_of_long_neg (v : Z) :
  - 2 ^ 63 <= v < 0 -> size_t_of_long v = v + 2 ^ 64.
Proof.
  intros H. unfold size_t_of_long, wrap64.
  symmetry. apply (Z.mod_unique v (2 ^ 64) (-1) (v + 2 ^ 64)); lia.
Qed.

Lemma send_too_large_iff (q : PosixMq) (len : Z) (os : os_send) :
  is_open q = true ->
  (fst (send q len os) = Throw "mq_send message too large"
   <-> len > size_t_of_long (msgsize (cfg_ q))).
Proof.
  intros Ho. unfold send. rewrite Ho. cbn [negb].
  destruct (len >? size_t_of_long (msgsize (cfg_ q))) eqn:E.
  - apply Z.gtb_lt in E. cbn [fst]. split; [lia | done].
  - assert (~ len > size_t_of_long (msgsize (cfg_ q)))
      by (rewrite Z.gtb_ltb in E; apply Z.ltb_ge in E; lia).
    split; [| lia]. destruct os; cbn [fst]; intros Heq; inversion Heq.
Qed.

(** An oversize message stops the retry loop at its first call of [send],
    before the kernel is asked. *)
Lemma send_retry_too_large (q : PosixMq) (len : Z) (os : nat -> os_send)
    (n k : nat) :
  is_open q = true -> len > size_t_of_long (msgsize (cfg_ q)) ->
  send_retry q len os (S n) k = (Throw "mq_send message too large", O, 0).
Proof.
  intros Ho Hl. cbn [send_retry]. unfold send. rewrite Ho. cbn [negb].
  assert (E : (len >? size_t_of_long (msgsize (cfg_ q))) = true)
    by (apply Z.gtb_lt; lia).
  by rewrite E.
Qed.

(** C7, as the code has it.  [pack] has no failure path: it returns a frame
    of 24 bytes plus the payload whatever the size.  The size cap is
    enforced by [PosixMq::send], which compares the length of the frame
    with the configured message size converted to [size_t] and throws
    "mq_send message too large" when the frame is longer, without calling
    the kernel's [mq_send].  On an open queue whose configured size is not
    negative, as that of both queues of the program, it throws exactly when
    the frame is longer than the configured size, and a worker task with
    such a request ends with that exception at its first attempt, leaving
    the server state as it was and nothing on the queue.  With a negative
    configured size the converted size is above every frame length under
    [2 ^ 63], and no such frame is rejected for its size. *)
Theorem oversize_rejected_by_send (q : PosixMq) (os : nat -> os_send)
    (t : Task) (s : Server) :
  is_open q = true ->
  let frame := pack RouteReq (t_corr t) (t_req t) in
  let len := Z.of_nat (length frame) in
  len = Z.of_nat HDR_SIZE + Z.of_nat (String.length (t_req t)) /\
  (forall o, fst (send q len o) = Throw "mq_send message too large"
             <-> len > size_t_of_long (msgsize (cfg_ q))) /\
  (0 <= msgsize (cfg_ q) < 2 ^ 63 ->
   (forall o, fst (send q len o) = Throw "mq_send message too large"
              <-> len > msgsize (cfg_ q)) /\
   (len > msgsize (cfg_ q) ->
    (forall o, snd (send q len o) = false) /\
    send_retry q len os 1000 0 = (Throw "mq_send message too large", O, 0) /\
    worker_send_io q os t s = (Throw "mq_send message too large", s, []))) /\
  (- 2 ^ 63 <= msgsize (cfg_ q) < 0 -> len < 2 ^ 63 ->
   forall o, fst (send q len o) <> Throw "mq_send message too large").
Proof.
  intros Ho frame len.
  split; [apply length_pack |].
  split; [intros o; by apply send_too_large_iff |].
  split.
  - intros Hm. pose proof (size_t_of_long_id _ Hm) as Hid.
    split; [intros o; rewrite <- Hid; by apply send_too_large_iff |].
    intros Hl.
    assert (E : (len >? size_t_of_long (msgsize (cfg_ q))) = true)
      by (apply Z.gtb_lt; lia).
    split; [| split].
    + intros o. unfold send. rewrite Ho. cbn [negb]. by rewrite E.
    + apply send_retry_too_large; [done | lia].
    + unfold worker_send_io. fold frame. fold len.
      rewrite send_retry_too_large; [done | done | lia].
  - intros Hm Hl o Ht. apply (send_too_large_iff q len o Ho) in Ht.
    rewrite (size_t_of_long_neg _ Hm) in Ht. lia.
Qed.

Lemma oversize_rejected_by_send_witness :
  let q := mkMq true (mkCfg "/q" 4 32 false true) in
  let t := mkTask 5 1 1%positive "0123456789" in
  is_open q = true /\
  0 <= msgsize (cfg_ q) < 2 ^ 63 /\
  Z.of_nat (length (pack RouteReq (t_corr t) (t_req t))) > msgsize (cfg_ q) /\
  worker_send_io q (fun _ => OsOk) t (init ∅)
  = (Throw "mq_send message too large", init ∅, []).
Proof.
  intros q t.
  assert (H1 : is_open q = true) by reflexivity.
  assert (H2 : 0 <= msgsize (cfg_ q) < 2 ^ 63) by (split; [discriminate | reflexivity]).
  assert (H3 : Z.of_nat (length (pack RouteReq (t_corr t) (t_req t)))
               > msgsize (cfg_ q)) by reflexivity.
  split; [exact H1 |]. split; [exact H2 |]. split; [exact H3 |].
  exact (proj2 (proj2 (proj2 (proj1 (proj2 (proj2
           (oversize_rejected_by_send q (fun _ => OsOk) t (init ∅) H1))) H2) H3))).
Defined.

(** [pack] does not fail on a payload of 8169 bytes, although the frame of
    8193 bytes is above the cap of 8192: it returns a well-formed frame. *)
Lemma pack_oversize_returns_frame :
  let p := string_of_list_ascii (replicate (Z.to_nat 8169) "x"%char) in
  Z.of_nat HDR_SIZE + Z.of_nat (String.length p) > msgsize (cfg_ mq_req) /\
  Z.of_nat (length (pack RouteReq 1 p)) = 8193 /\
  unpack (pack RouteReq 1 p) =
  Some ({| magic := MAGIC; version := 1; type := 1; corr_id := 1;
           payload_len := 8169; reserved := 0 |}, p).
Proof.
  intros p.
  assert (Hl : Z.of_nat (String.length p) = 8169) by (vm_compute; reflexivity).
  split; [rewrite Hl; vm_compute; reflexivity |].
  split; [rewrite length_pack, Hl; reflexivity |].
  rewrite unpack_pack_gen; [by rewrite Hl | split; [lia | reflexivity] | rewrite Hl; reflexivity].
Qed.

(** * The request path of the event loop *)

Section Trim.

Lemma back_crlf (s : string) (c : ascii) :
  all_crlf s = true -> back s = Some c -> is_crlf c = true.
Proof.
  unfold all_crlf. induction s as [|a r IH]; [done |].
  cbn [list_ascii_of_string forallb]. intros [Ha Hr]%andb_prop.
  destruct r as [|b r']; cbn [back]; [congruence | exact (IH Hr)].
Qed.

Lemma pop_back_crlf (s : string) :
  all_crlf s = true -> all_crlf (pop_back s) = true.
Proof.
  unfold all_crlf. induction s as [|a r IH]; [done |].
  cbn [list_ascii_of_string forallb]. intros [Ha Hr]%andb_prop.
  destruct r as [|b r']; [done |].
  change (pop_back (String a (String b r'))) with (String a (pop_back (String b r'))).
  cbn [list_ascii_of_string forallb]. rewrite Ha. exact (IH Hr).
Qed.

Lemma length_pop_back (s : string) :
  String.length (pop_back s) = pred (String.length s).
Proof.
  induction s as [|a r IH]; [done |].
  destruct r as [|b r']; [done |].
  change (pop_back (String a (String b r'))) with (String a (pop_back (String b r'))).
  cbn [String.length]. rewrite IH. done.
Qed.

Lemma back_None (s : string) : back s = None -> s = EmptyString.
Proof.
  induction s as [|a r IH]; [done |].
  destruct r as [|b r']; [done |]. intros H. specialize (IH H). done.
Qed.

(** With at least [String.length s] rounds the loop removes the whole of a
    string made of carriage returns and newlines. *)
Lemma trim_loop_crlf (fuel : nat) (s : string) :
  (String.length s <= fuel)%nat -> all_crlf s = true ->
  trim_loop fuel s = EmptyString.
Proof.
  revert s. induction fuel as [|f IH]; intros s Hlen Hall.
  - destruct s; [done | simpl in Hlen; lia].
  - cbn [trim_loop]. destruct (back s) as [c|] eqn:Hb.
    + rewrite (back_crlf s c Hall Hb). apply IH.
      * rewrite length_pop_back. lia.
      * by apply pop_back_crlf.
    + by apply back_None.
Qed.

Lemma pop_back_snoc (s : string) (c : ascii) :
  back s = Some c -> s = pop_back s +:+ String c EmptyString.
Proof.
  induction s as [|a r IH]; [done |].
  destruct r as [|b r'].
  - intros [= ->]. reflexivity.
  - intros H. change (pop_back (String a (String b r')))
      with (String a (pop_back (String b r'))).
    change (String a (pop_back (String b r')) +:+ String c EmptyString)
      with (String a (pop_back (String b r') +:+ String c EmptyString)).
    f_equal. exact (IH H).
Qed.

Lemma all_crlf_app (a b : string) :
  all_crlf (a +:+ b) = all_crlf a && all_crlf b.
Proof.
  unfold all_crlf. induction a as [|c a IH]; [done |].
  simpl. rewrite IH. by rewrite andb_assoc.
Qed.

Lemma trim_loop_empty_inv (fuel : nat) (s : string) :
  trim_loop fuel s = EmptyString -> all_crlf s = true.
Proof.
  revert s. induction fuel as [|f IH]; intros s H.
  - simpl in H. by subst.
  - cbn [trim_loop] in H. destruct (back s) as [c|] eqn:Hb.
    + destruct (is_crlf c) eqn:Hc.
      * rewrite (pop_back_snoc s c Hb), all_crlf_app, (IH _ H).
        unfold all_crlf. simpl. by rewrite Hc.
      * subst. done.
    + by rewrite (back_None s Hb).
Qed.

(** [trim_newline] returns the empty string exactly on the lines made of
    carriage returns and newlines only. *)
Lemma trim_newline_empty_iff (s : string) :
  trim_newline s = EmptyString <-> all_crlf s = true.
Proof.
  split.
  - apply trim_loop_empty_inv.
  - intros H. by apply trim_loop_crlf.
Qed.

End Trim.

Section RequestPath.

Variables (cfd : Z) (line : string) (s : Server).

(** C10. A line that is empty once its trailing carriage returns and
    newlines are trimmed, that is a line made only of such characters (a bare
    newline, or a carriage return and a newline), is skipped: the server state
    after the line is the state before it, so no output is queued on any
    connection, the correlation-id counter has not moved, and the pending
    table, the slots and the worker queue are untouched. *)
Theorem empty_line_skipped :
  all_crlf line = true ->
  trim_newline line = EmptyString /\ on_line cfd line s = Ret s.
Proof.
  intros H. apply trim_newline_empty_iff in H.
  split; [exact H |]. unfold on_line. by rewrite H.
Qed.

Lemma enable_write_push_out (c : Conn) (x : string) :
  conns s !! cfd = Some c ->
  enable_write cfd true (push_out cfd x s) =
  set_conns (<[cfd := {| fd := Server.fd c; inbuf := inbuf c;
                        outq := outq c ++ [x]; want_write := true |}]> (conns s)) s.
Proof.
  intros Hc. unfold enable_write, push_out. cbn [conns set_conns].
  rewrite lookup_alter_eq, Hc. cbn [fmap option_fmap option_map].
  cbn [Server.fd inbuf outq want_write]. unfold set_conns.
  cbn [conns pending slots corr_counter pool].
  by rewrite insert_alter_eq.
Qed.

(** The branch over the ceiling. *)
Lemma on_line_busy (c : Conn) :
  conns s !! cfd = Some c ->
  empty (trim_newline line) = false ->
  Z.of_nat (size (pending s)) > MAX_PENDING ->
  on_line cfd line s =
  Ret {| conns := <[cfd := {| fd := fd c; inbuf := inbuf c;
                               outq := outq c ++ [BUSY_LINE];
                               want_write := true |}]> (conns s);
         pending := pending s; slots := slots s;
         corr_counter := corr_counter s; pool := pool s |}.
Proof.
  intros Hc Hne Hbig. unfold on_line. rewrite Hne.
  assert (E : (Z.of_nat (size (pending s)) >? MAX_PENDING) = true)
    by (apply Z.gtb_lt; lia).
  rewrite E. by rewrite (enable_write_push_out c).
Qed.

(** The branch at or under the ceiling. *)
Lemma on_line_accept :
  empty (trim_newline line) = false ->
  stop_ (pool s) = false ->
  pending s !! corr_counter s = None ->
  Z.of_nat (size (pending s)) <= MAX_PENDING ->
  on_line cfd line s =
  Ret {| conns := conns s;
         pending := <[corr_counter s := fresh (dom (slots s))]> (pending s);
         slots := <[fresh (dom (slots s)) :=
                      {| done := false; resp := EmptyString |}]> (slots s);
         corr_counter := wrap64 (corr_counter s + 1);
         pool := {| stop_ := false;
                    q_ := q_ (pool s) ++
                          [{| t_fd := cfd; t_corr := corr_counter s;
                              t_pend := fresh (dom (slots s));
                              t_req := trim_newline line |}] |} |}.
Proof.
  intros Hne Hstop Hfresh Hsmall. unfold on_line. rewrite Hne.
  assert (E : (Z.of_nat (size (pending s)) >? MAX_PENDING) = false).
  { rewrite Z.gtb_ltb. apply Z.ltb_ge. lia. }
  rewrite E. cbn [next_corr_id make_shared_Pending set_slots slots pending
                  conns corr_counter pool].
  unfold submit. rewrite Hstop. unfold emplace. rewrite Hfresh.
  reflexivity.
Qed.

(** C2. For a line that is not empty after trimming, on a connection in the
    table, with the pool accepting tasks and the pending keys all handed out
    earlier by the counter:
    - when the pending table holds more than 100000 entries, the BUSY line
      is appended to the output queue of that connection and its write
      interest is set, while the counter, the pending table, the slots and
      the worker queue stay as they were;
    - otherwise the counter value [corr] is taken and the counter advanced,
      a new slot (latch clear, empty response) is allocated at an unused
      address and entered in the pending table under [corr], which was not
      a key before, and a task for (fd, corr, slot, trimmed line) is
      appended to the worker queue; the connections are untouched. *)
Theorem request_path (c : Conn) :
  conns s !! cfd = Some c ->
  empty (trim_newline line) = false ->
  stop_ (pool s) = false ->
  ids_allocated s ->
  (Z.of_nat (size (pending s)) > MAX_PENDING ->
   on_line cfd line s =
   Ret {| conns := <[cfd := {| fd := Server.fd c; inbuf := inbuf c;
                              outq := outq c ++ [BUSY_LINE];
                              want_write := true |}]> (conns s);
          pending := pending s; slots := slots s;
          corr_counter := corr_counter s; pool := pool s |}) /\
  (Z.of_nat (size (pending s)) <= MAX_PENDING ->
   let corr := corr_counter s in
   let pend := fresh (dom (slots s)) in
   pending s !! corr = None /\
   slots s !! pend = None /\
   on_line cfd line s =
   Ret {| conns := conns s;
          pending := <[corr := pend]> (pending s);
          slots := <[pend := {| done := false; resp := EmptyString |}]> (slots s);
          corr_counter := wrap64 (corr + 1);
          pool := {| stop_ := false;
                     q_ := q_ (pool s) ++
                           [{| t_fd := cfd; t_corr := corr; t_pend := pend;
                               t_req := trim_newline line |}] |} |}).
Proof.
  intros Hc Hne Hstop Hids. split.
  - intros Hbig. by apply on_line_busy.
  - intros Hsmall corr pend.
    assert (Hfresh : pending s !! corr = None).
    { destruct (pending s !! corr) as [l|] eqn:El; [| done].
      apply Hids in El. unfold corr in El. lia. }
    assert (Hnew : slots s !! pend = None).
    { apply not_elem_of_dom. apply is_fresh. }
    split; [exact Hfresh |]. split; [exact Hnew |].
    by apply on_line_accept.
Qed.

End RequestPath.

Lemma ids_allocated_init (c : gmap Z Conn) : ids_allocated (init c).
Proof. intros k l H. cbn in H. by rewrite lookup_empty in H. Qed.

Lemma request_path_witness :
  let c0 := mkConn 5 EmptyString [] false in
  let s0 := init {[ 5 := c0 ]} in
  let ln := "{}" +:+ NL in
  conns s0 !! 5 = Some c0 /\
  empty (trim_newline ln) = false /\
  stop_ (pool s0) = false /\
  Z.of_nat (size (pending s0)) <= MAX_PENDING /\
  on_line 5 ln s0 =
  Ret {| conns := conns s0;
         pending := <[1 := fresh (dom (slots s0))]> (pending s0);
         slots := <[fresh (dom (slots s0)) :=
                      {| done := false; resp := EmptyString |}]> (slots s0);
         corr_counter := wrap64 (1 + 1);
         pool := {| stop_ := false;
                    q_ := q_ (pool s0) ++
                          [{| t_fd := 5; t_corr := 1;
                              t_pend := fresh (dom (slots s0));
                              t_req := trim_newline ln |}] |} |}.
Proof.
  intros c0 s0 ln.
  assert (H1 : conns s0 !! 5 = Some c0) by reflexivity.
  assert (H2 : empty (trim_newline ln) = false) by reflexivity.
  assert (H3 : stop_ (pool s0) = false) by reflexivity.
  assert (H4 : Z.of_nat (size (pending s0)) <= MAX_PENDING)
    by (vm_compute; discriminate).
  split; [exact H1 |]. split; [exact H2 |]. split; [exact H3 |].
  split; [exact H4 |].
  exact (proj2 (proj2 (proj2 (request_path 5 ln s0 c0 H1 H2 H3
                                (ids_allocated_init _)) H4))).
Defined.

Lemma empty_line_skipped_witness :
  let s0 := init {[ 5 := mkConn 5 EmptyString [] false ]} in
  all_crlf (CR +:+ NL) = true /\
  trim_newline (CR +:+ NL) = EmptyString /\
  on_line 5 (CR +:+ NL) s0 = Ret s0.
Proof.
  intros s0. split; [reflexivity |].
  exact (empty_line_skipped 5 (CR +:+ NL) s0 eq_refl).
Defined.

(** * The line loop *)

Section LineLoop.

Lemma length_substring_le (n m : nat) (s : string) :
  (String.length (substring n m s) <= m)%nat.
Proof.
  revert n m. induction s as [|c s IH]; intros n m.
  - destruct n, m; simpl; lia.
  - destruct n as [|n].
    + destruct m as [|m]; [simpl; lia |]. cbn. specialize (IH O m). lia.
    + cbn. apply IH.
Qed.

Lemma take_line_shorter (buf line rest : string) :
  take_line buf = Some (line, rest) ->
  (String.length rest < String.length buf)%nat.
Proof.
  unfold take_line. destruct (index 0 NL buf) as [pos|] eqn:E; [| done].
  intros [= _ <-]. destruct buf as [|c buf]; [done |].
  pose proof (length_substring_le (pos + 1)
                (String.length (String c buf) - (pos + 1)) (String c buf)).
  cbn [String.length] in *. lia.
Qed.

Lemma inbuf_enable_write (cfd : Z) (on : bool) (s : Server) :
  inbuf <$> conns (enable_write cfd on s) !! cfd = inbuf <$> conns s !! cfd.
Proof.
  unfold enable_write. destruct (conns s !! cfd) as [c|] eqn:E; [| by rewrite E].
  cbn [conns set_conns]. by rewrite lookup_insert_eq.
Qed.

Lemma inbuf_push_out (cfd : Z) (x : string) (s : Server) :
  inbuf <$> conns (push_out cfd x s) !! cfd = inbuf <$> conns s !! cfd.
Proof.
  unfold push_out. cbn [conns set_conns]. rewrite lookup_alter_eq.
  by destruct (conns s !! cfd).
Qed.

(** Handling a line leaves the read buffer of its connection alone. *)
Lemma inbuf_on_line (cfd : Z) (line : string) (s s' : Server) :
  on_line cfd line s = Ret s' ->
  inbuf <$> conns s' !! cfd = inbuf <$> conns s !! cfd.
Proof.
  unfold on_line. destruct (empty (trim_newline line)); [by intros [= <-] |].
  destruct (Z.of_nat (size (pending s)) >? MAX_PENDING).
  - intros [= <-]. by rewrite inbuf_enable_write, inbuf_push_out.
  - cbn [next_corr_id make_shared_Pending set_slots slots pending conns
         corr_counter pool].
    destruct (submit _ (pool s)) as [pl|e]; [| done]. by intros [= <-].
Qed.

(** The line loop ends: every round takes at least one character from the
    read buffer, so fuel above the buffer length is never used up. *)
Lemma line_loop_total (fuel : nat) (cfd : Z) (s : Server) :
  (forall c, conns s !! cfd = Some c -> (String.length (inbuf c) < fuel)%nat) ->
  (0 < fuel)%nat ->
  exists r, line_loop fuel cfd s = Some r.
Proof.
  revert s. induction fuel as [|f IH]; intros s Hlen Hpos; [lia |].
  cbn [line_loop]. destruct (conns s !! cfd) as [c|] eqn:Ec; [| by eexists].
  destruct (take_line (inbuf c)) as [[line rest]|] eqn:Et; [| by eexists].
  pose proof (take_line_shorter _ _ _ Et) as Hshort.
  specialize (Hlen c eq_refl).
  match goal with |- context [on_line cfd line ?s1] => set (st := s1) end.
  destruct (on_line cfd line st) as [s2|e] eqn:Eo; [| by eexists].
  apply IH; [| lia].
  intros c2 Hc2. apply inbuf_on_line in Eo. rewrite Hc2 in Eo.
  unfold st in Eo. cbn [conns set_conns] in Eo.
  rewrite lookup_insert_eq in Eo. cbn in Eo. injection Eo as ->. lia.
Qed.

(** A buffer holding an empty line, a request and the start of another
    line: the empty line leaves no trace, the request gets correlation id 1
    and a slot, and the unfinished line stays in the buffer. *)
Example line_loop_run :
  line_loop 16 5
    (init {[ 5 := mkConn 5 (CR +:+ NL +:+ "{}" +:+ NL +:+ "par") [] false ]}) =
  Some (Ret {| conns := {[ 5 := mkConn 5 "par" [] false ]};
               pending := {[ 1 := 1%positive ]};
               slots := {[ 1%positive := mkPending false EmptyString ]};
               corr_counter := 2;
               pool := mkPool false [mkTask 5 1 1%positive "{}"] |}).
Proof. vm_compute. reflexivity. Qed.

End LineLoop.

(** * A state over the ceiling *)

Section Overload.

Variable n : nat.
Hypothesis Hn : MAX_PENDING < Z.of_nat n.

Lemma busy_size : size (pending (busy n)) = n.
Proof using Type.
  cbn [pending busy]. rewrite map_size_list_to_map.
  - unfold busy_entries. by rewrite length_fmap, length_seq.
  - unfold busy_entries. rewrite <- list_fmap_compose.
    apply NoDup_fmap_2; [| apply NoDup_seq].
    intros i j H. cbn in H. lia.
Qed.

Lemma busy_ids : ids_allocated (busy n).
Proof using Type.
  intros k l Hk. cbn [pending corr_counter busy] in *.
  apply elem_of_list_to_map_2 in Hk. unfold busy_entries in Hk.
  apply list_elem_of_fmap in Hk as (i & [= -> ->] & Hi).
  apply elem_of_seq in Hi. lia.
Qed.

(** With [n] requests pending, [n] above the ceiling, the next request line
    is answered with the BUSY line and nothing else changes. *)
Lemma request_path_busy :
  on_line 5 ("{}" +:+ NL) (busy n) =
  Ret {| conns := {[ 5 := mkConn 5 EmptyString [BUSY_LINE] true ]};
         pending := pending (busy n); slots := slots (busy n);
         corr_counter := corr_counter (busy n); pool := pool (busy n) |}.
Proof using Hn.
  rewrite (on_line_busy 5 ("{}" +:+ NL) (busy n) (mkConn 5 EmptyString [] false));
    [| reflexivity | reflexivity | rewrite busy_size; lia].
  cbn [conns busy fd inbuf outq want_write app].
  by rewrite insert_singleton_eq.
Qed.

End Overload.

(** * Worker tasks *)

Section Worker.

Variables (q : PosixMq) (os : nat -> os_send) (t : Task) (s : Server).

Lemma complete_lookup (l : loc) (r : string) (p : Pending) :
  slots s !! l = Some p ->
  slots (complete l r s) !! l = Some {| done := true; resp := r |}.
Proof.
  intros H. unfold complete. cbn [slots set_slots].
  by rewrite lookup_alter_eq, H.
Qed.

(** The reply step on a connection still in the table: the stored
    response and a newline go to the end of its output queue. *)
Lemma worker_reply_conn (p : Pending) (c : Conn) :
  slots s !! t_pend t = Some p ->
  conns s !! t_fd t = Some c ->
  conns (worker_reply t s) !! t_fd t =
  Some {| fd := fd c; inbuf := inbuf c;
          outq := outq c ++ [resp p +:+ NL]; want_write := true |}.
Proof.
  intros Hp Hc. unfold worker_reply. rewrite Hp, Hc.
  unfold enable_write, push_out. cbn [conns set_conns].
  rewrite lookup_alter_eq, Hc. cbn [fmap option_fmap option_map].
  cbn [conns set_conns fd inbuf outq want_write].
  by rewrite lookup_insert_eq.
Qed.

End Worker.

Section SendRetry.

Variables (q : PosixMq) (len : Z) (os : nat -> os_send).

(** When every one of the [n] calls returns [false] the loop runs to its
    bound, leaves [sent] false and has slept 200 microseconds per call. *)
Lemma send_retry_all_false (n k : nat) :
  (forall j, (k <= j < k + n)%nat -> fst (send q len (os j)) = Ret false) ->
  fst (fst (send_retry q len os n k)) = Ret false /\
  snd (send_retry q len os n k) = 200 * Z.of_nat n.
Proof.
  revert k. induction n as [|n IH]; intros k H.
  - by cbn.
  - cbn [send_retry].
    pose proof (H k ltac:(lia)) as Hk.
    destruct (send q len (os k)) as [r asked]. cbn [fst] in Hk. subst r.
    destruct (IH (S k)) as [IH1 IH2]; [intros j Hj; apply H; lia |].
    destruct (send_retry q len os n (S k)) as [[r calls] slept].
    cbn [fst snd] in *. split; [exact IH1 | lia].
Qed.

(** When one of the [n] kernel answers is a success the loop does not end
    with [sent] false: it ends at the first success, or earlier with an
    exception. *)
Lemma send_retry_some_true (n k : nat) :
  (exists j, (k <= j < k + n)%nat /\ fst (send q len (os j)) = Ret true) ->
  fst (fst (send_retry q len os n k)) <> Ret false.
Proof.
  revert k. induction n as [|n IH]; intros k [j [Hj Hs]].
  - lia.
  - cbn [send_retry].
    destruct (send q len (os k)) as [r asked] eqn:E.
    destruct r as [[|]|e]; cbn [fst]; [done | | done].
    assert (j <> k) by (intros ->; rewrite E in Hs; cbn in Hs; congruence).
    specialize (IH (S k)).
    destruct (send_retry q len os n (S k)) as [[r calls] slept].
    cbn [fst] in *. apply IH. exists j. split; [lia | exact Hs].
Qed.

End SendRetry.

Section WorkerSend.

Variables (q : PosixMq) (os : nat -> os_send) (t : Task) (s : Server).

Lemma worker_send_all_false :
  (forall k, (k < 1000)%nat ->
     fst (send q (Z.of_nat (length (pack RouteReq (t_corr t) (t_req t)))) (os k))
     = Ret false) ->
  worker_send q os t s = (Ret tt, complete (t_pend t) MQ_FULL s).
Proof.
  intros Hall.
  destruct (send_retry_all_false q _ os 1000 0 (fun j _ => Hall j ltac:(lia)))
    as [H1 _].
  rewrite worker_send_eq.
  destruct (send_retry q _ os 1000 0) as [[r calls] slept].
  cbn [fst] in H1. by subst r.
Qed.

(** C4. If each of the 1000 attempts to send the request frame returns
    [false] (would-block), the worker has slept 200 microseconds after each
    of them and then stores the ERROR mq_full payload in its slot and sets
    the latch.  If one of the 1000 kernel answers is a success, the send
    part of the task leaves the server state, and so every slot, as it
    was: there is no ERROR completion. *)
Theorem send_exhausted_mq_full :
  let len := Z.of_nat (length (pack RouteReq (t_corr t) (t_req t))) in
  ((forall k, (k < 1000)%nat -> fst (send q len (os k)) = Ret false) ->
   snd (send_retry q len os 1000 0) = 200 * 1000 /\
   worker_send q os t s = (Ret tt, complete (t_pend t) MQ_FULL s) /\
   (forall p, slots s !! t_pend t = Some p ->
      slots (snd (worker_send q os t s)) !! t_pend t =
      Some {| done := true; resp := MQ_FULL |})) /\
  ((exists k, (k < 1000)%nat /\ fst (send q len (os k)) = Ret true) ->
   snd (worker_send q os t s) = s).
Proof.
  intros len0. split.
  - intros Hall.
    destruct (send_retry_all_false q len0 os 1000 0) as [_ H2];
      [intros j Hj; apply Hall; lia |].
    pose proof (worker_send_all_false Hall) as Hw.
    split; [exact H2 |]. split; [exact Hw |].
    intros p Hp. rewrite Hw. cbn [snd]. by apply (complete_lookup _ _ _ p).
  - intros Hex.
    pose proof (send_retry_some_true q len0 os 1000 0) as Hne.
    rewrite worker_send_eq. fold len0.
    destruct (send_retry q len0 os 1000 0) as [[r calls] slept].
    cbn [fst] in Hne.
    destruct r as [[|]|e]; cbn [snd]; [done | | done].
    exfalso. apply Hne; [| done].
    destruct Hex as [k [Hk Hs]]. exists k. split; [lia | exact Hs].
Qed.

(** The whole task when the queue stays full: the slot is completed
    locally, the wait returns at once, and the client gets the ERROR line. *)
Lemma worker_task_mq_full (p : Pending) (c : Conn) :
  (forall k, (k < 1000)%nat ->
     fst (send q (Z.of_nat (length (pack RouteReq (t_corr t) (t_req t)))) (os k))
     = Ret false) ->
  slots s !! t_pend t = Some p ->
  conns s !! t_fd t = Some c ->
  outq <$> conns (worker_task q os t s) !! t_fd t
  = Some (outq c ++ [MQ_FULL +:+ NL]).
Proof.
  intros Hall Hp Hc. unfold worker_task. rewrite (worker_send_all_false Hall).
  pose proof (complete_lookup s (t_pend t) MQ_FULL p Hp) as Hs.
  unfold worker_wait. rewrite Hs. cbn [done].
  by rewrite (worker_reply_conn _ _ _ c Hs Hc).
Qed.

End WorkerSend.

Lemma send_exhausted_mq_full_witness :
  let s0 := {| conns := ∅; pending := {[ 1 := 1%positive ]};
               slots := {[ 1%positive := mkPending false EmptyString ]};
               corr_counter := 2; pool := mkPool false [] |} in
  let t0 := mkTask 5 1 1%positive "{}" in
  slots (snd (worker_send mq_req (fun _ => OsEAGAIN) t0 s0)) !! 1%positive =
    Some {| done := true; resp := MQ_FULL |} /\
  snd (worker_send mq_req (fun k => if (k <? 3)%nat then OsEAGAIN else OsOk) t0 s0)
    = s0.
Proof.
  intros s0 t0. split.
  - refine (proj2 (proj2 (proj1 (send_exhausted_mq_full mq_req
              (fun _ => OsEAGAIN) t0 s0) _)) _ eq_refl).
    intros k _. reflexivity.
  - refine (proj2 (send_exhausted_mq_full mq_req
              (fun k => if (k <? 3)%nat then OsEAGAIN else OsOk) t0 s0) _).
    exists 3%nat. split; [lia | reflexivity].
Defined.

(** * Pending slots and the pending table *)

Section Dispatcher.

Lemma slots_complete_ne (l l' : loc) (r : string) (s : Server) :
  l <> l' -> slots (complete l r s) !! l' = slots s !! l'.
Proof. intros H. unfold complete. cbn [slots set_slots]. by rewrite lookup_alter_ne. Qed.

Lemma pending_complete (l : loc) (r : string) (s : Server) :
  pending (complete l r s) = pending s.
Proof. reflexivity. Qed.

(** A completion leaves a set latch set, whichever slot it writes. *)
Lemma complete_keeps_done (l l' : loc) (r : string) (s : Server) (p : Pending) :
  slots s !! l' = Some p -> done p = true ->
  exists p', slots (complete l r s) !! l' = Some p' /\ done p' = true.
Proof.
  intros Hp Hd. destruct (decide (l = l')) as [->|Hne].
  - eexists. split; [by apply (complete_lookup _ _ _ p) | done].
  - exists p. by rewrite slots_complete_ne.
Qed.

(** What the dispatcher does on a message that passes its two checks. *)
Lemma dispatch_resp (data : list byte) (h : MsgHdr) (payload : string) (s : Server) :
  unpack data = Some (h, payload) -> type h = msgtype_code RouteResp ->
  dispatch data s =
  match pending s !! corr_id h with
  | None => s
  | Some p =>
      complete p payload
        {| conns := conns s; pending := delete (corr_id h) (pending s);
           slots := slots s; corr_counter := corr_counter s; pool := pool s |}
  end.
Proof. intros Hu Ht. unfold dispatch. by rewrite Hu, Ht, Z.eqb_refl. Qed.

Lemma dispatch_dropped (data : list byte) (s : Server) :
  (forall h payload, unpack data = Some (h, payload) ->
                     type h <> msgtype_code RouteResp) ->
  dispatch data s = s.
Proof.
  intros H. unfold dispatch. destruct (unpack data) as [[h payload]|]; [| done].
  specialize (H h payload eq_refl).
  destruct (type h =? msgtype_code RouteResp) eqn:E; [| done].
  apply Z.eqb_eq in E. done.
Qed.

Lemma dispatch_cases (data : list byte) (s : Server) :
  dispatch data s = s \/
  exists h payload p,
    unpack data = Some (h, payload) /\ type h = msgtype_code RouteResp /\
    pending s !! corr_id h = Some p /\
    dispatch data s =
    complete p payload
      {| conns := conns s; pending := delete (corr_id h) (pending s);
         slots := slots s; corr_counter := corr_counter s; pool := pool s |}.
Proof.
  unfold dispatch. destruct (unpack data) as [[h payload]|]; [| by left].
  destruct (type h =? msgtype_code RouteResp) eqn:E; [| by left].
  apply Z.eqb_eq in E. cbn [negb].
  destruct (pending s !! corr_id h) as [p|] eqn:Ep; [| by left].
  right. by exists h, payload, p.
Qed.

End Dispatcher.

Section Completion.

Lemma dispatch_absent (data : list byte) (h : MsgHdr) (payload : string)
    (s : Server) :
  unpack data = Some (h, payload) -> pending s !! corr_id h = None ->
  dispatch data s = s.
Proof.
  intros Hu Hn.
  destruct (dispatch_cases data s) as [H | (h' & pl & p' & Hu' & _ & Hp & _)];
    [done |].
  rewrite Hu in Hu'. injection Hu' as <- <-. congruence.
Qed.

(** The dispatcher removes the entry it completes through, so a second
    message for the same correlation id is dropped. *)
Lemma dispatch_twice (data data' : list byte) (h h' : MsgHdr) (pl pl' : string)
    (s : Server) :
  unpack data = Some (h, pl) -> type h = msgtype_code RouteResp ->
  unpack data' = Some (h', pl') -> corr_id h' = corr_id h ->
  dispatch data' (dispatch data s) = dispatch data s.
Proof.
  intros Hu Ht Hu' Hc.
  apply (dispatch_absent data' h' pl' _ Hu').
  rewrite Hc, (dispatch_resp data h pl s Hu Ht).
  destruct (pending s !! corr_id h) as [p0|] eqn:E; [| done].
  rewrite pending_complete. cbn [pending]. apply lookup_delete_eq.
Qed.

Variables (s : Server) (l : loc) (p : Pending).
Hypothesis Hslot : slots s !! l = Some p.
Hypothesis Hdone : done p = true.

Lemma worker_wait_completed (t : Task) : slots (worker_wait t s) !! l = Some p.
Proof using Hslot Hdone.
  unfold worker_wait. destruct (slots s !! t_pend t) as [p0|] eqn:E; [| done].
  destruct (done p0) eqn:Ed; [done |].
  rewrite slots_complete_ne; [done |].
  intros Heq. rewrite Heq, Hslot in E. congruence.
Qed.

Lemma dispatch_keeps_done (data : list byte) :
  exists p', slots (dispatch data s) !! l = Some p' /\ done p' = true.
Proof using Hslot Hdone.
  destruct (dispatch_cases data s) as [H | (h & pl & p0 & _ & _ & _ & H)];
    rewrite H; [by exists p |].
  by apply (complete_keeps_done _ _ _ _ p).
Qed.

Lemma worker_send_keeps_done (q : PosixMq) (os : nat -> os_send) (t : Task) :
  exists p', slots (snd (worker_send q os t s)) !! l = Some p' /\ done p' = true.
Proof using Hslot Hdone.
  rewrite worker_send_eq.
  destruct (send_retry q _ os 1000 0) as [[[[|]|e] calls] slept]; cbn [snd];
    [by exists p | | by exists p].
  by apply (complete_keeps_done _ _ _ _ p).
Qed.

(** C8, as the code has it.  For a slot in the Completed state (latch set,
    payload stored):
    - the worker timeout fill leaves payload and latch unchanged, since it
      runs only when the latch is clear;
    - a dispatcher completion attempt for a correlation id that is no longer
      in the pending table changes nothing, and the dispatcher removes the
      entry it completes through, so a second message for the same id
      changes nothing either;
    - the dispatcher and the send-failure fill, which store their payload
      without testing the latch, leave the latch set. *)
Theorem completed_slot_paths :
  (forall t, slots (worker_wait t s) !! l = Some p) /\
  (forall data h payload,
     unpack data = Some (h, payload) -> pending s !! corr_id h = None ->
     dispatch data s = s) /\
  (forall data data' h h' pl pl',
     unpack data = Some (h, pl) -> type h = msgtype_code RouteResp ->
     unpack data' = Some (h', pl') -> corr_id h' = corr_id h ->
     dispatch data' (dispatch data s) = dispatch data s) /\
  (forall data, exists p',
     slots (dispatch data s) !! l = Some p' /\ done p' = true) /\
  (forall q os t, exists p',
     slots (snd (worker_send q os t s)) !! l = Some p' /\ done p' = true).
Proof using Hslot Hdone.
  split; [exact worker_wait_completed |].
  split; [intros data h payload; apply dispatch_absent |].
  split; [intros data data' h h' pl pl'; apply dispatch_twice |].
  split; [exact dispatch_keeps_done | exact worker_send_keeps_done].
Qed.

End Completion.

Lemma completed_slot_paths_witness :
  slots run_timed_out !! t_pend run_task =
    Some {| done := true; resp := TIMEOUT |} /\
  slots (worker_wait run_task run_timed_out) !! t_pend run_task =
    Some {| done := true; resp := TIMEOUT |}.
Proof.
  assert (H : slots run_timed_out !! t_pend run_task =
              Some {| done := true; resp := TIMEOUT |})
    by (vm_compute; reflexivity).
  split; [exact H |].
  exact (proj1 (completed_slot_paths run_timed_out (t_pend run_task) _ H eq_refl)
           run_task).
Defined.

(** The slot of the run was completed by the timeout fill; the late
    response frame, whose entry is still in the table, replaces the payload
    of the completed slot. *)
Lemma late_response_overwrites :
  slots run_timed_out !! t_pend run_task =
    Some {| done := true; resp := TIMEOUT |} /\
  slots (dispatch late_frame run_timed_out) !! t_pend run_task =
    Some {| done := true; resp := "{late}" |} /\
  slots (dispatch late_frame run_timed_out) !! t_pend run_task <>
  slots run_timed_out !! t_pend run_task.
Proof.
  assert (H1 : slots run_timed_out !! t_pend run_task =
               Some {| done := true; resp := TIMEOUT |})
    by (vm_compute; reflexivity).
  assert (H2 : slots (dispatch late_frame run_timed_out) !! t_pend run_task =
               Some {| done := true; resp := "{late}" |})
    by (vm_compute; reflexivity).
  split; [exact H1 |]. split; [exact H2 |].
  rewrite H1, H2. intros E. inversion E.
Qed.

(** * The reply after a timeout *)

Section TimeoutReply.

(** A message that is not a RouteResp frame for the id [c] leaves alone a
    slot that only [c] leads to, and the entry of [c]. *)
Lemma dispatch_other_id (data : list byte) (s : Server) (l : loc) (c : Z) :
  (forall k, pending s !! k = Some l -> k = c) ->
  (forall h pl, unpack data = Some (h, pl) ->
                type h = msgtype_code RouteResp -> corr_id h <> c) ->
  slots (dispatch data s) !! l = slots s !! l /\
  pending (dispatch data s) !! c = pending s !! c /\
  (forall k, pending (dispatch data s) !! k = Some l -> k = c).
Proof.
  intros Huniq Hother.
  destruct (dispatch_cases data s) as [-> | (h & pl & p0 & Hu & Ht & Hp & ->)];
    [done |].
  pose proof (Hother h pl Hu Ht) as Hne.
  assert (Hl : p0 <> l) by (intros ->; by apply Hne, Huniq).
  split; [by rewrite slots_complete_ne |].
  rewrite pending_complete. cbn [pending]. split.
  - by rewrite lookup_delete_ne.
  - intros k Hk. apply lookup_delete_Some in Hk as [_ Hk]. by apply Huniq.
Qed.

Lemma dispatch_all_other_id (frames : list (list byte)) (s : Server) (l : loc)
    (c : Z) :
  (forall k, pending s !! k = Some l -> k = c) ->
  (forall d h pl, In d frames -> unpack d = Some (h, pl) ->
                  type h = msgtype_code RouteResp -> corr_id h <> c) ->
  slots (dispatch_all frames s) !! l = slots s !! l /\
  pending (dispatch_all frames s) !! c = pending s !! c /\
  (forall k, pending (dispatch_all frames s) !! k = Some l -> k = c).
Proof.
  revert s. induction frames as [|d rest IH]; intros s Huniq Hother; [done |].
  change (dispatch_all (d :: rest) s) with (dispatch_all rest (dispatch d s)).
  destruct (dispatch_other_id d s l c Huniq) as (H1 & H2 & H3).
  { intros h pl. apply (Hother d). by left. }
  destruct (IH (dispatch d s) H3) as (H4 & H5 & H6).
  { intros d' h pl Hin. apply (Hother d'). by right. }
  rewrite H4, H5. done.
Qed.

(** A slot that no entry of the pending table leads to is out of the
    dispatcher's reach. *)
Lemma dispatch_all_no_entry (frames : list (list byte)) (s : Server) (l : loc) :
  (forall k, pending s !! k <> Some l) ->
  slots (dispatch_all frames s) !! l = slots s !! l.
Proof.
  revert s. induction frames as [|d rest IH]; intros s Hno; [done |].
  change (dispatch_all (d :: rest) s) with (dispatch_all rest (dispatch d s)).
  destruct (dispatch_cases d s) as [-> | (h & pl & p0 & Hu & Ht & Hp & ->)];
    [by apply IH |].
  rewrite IH.
  - rewrite slots_complete_ne; [done |]. intros ->. by apply (Hno (corr_id h)).
  - intros k. rewrite pending_complete. cbn [pending]. intros Hk.
    apply lookup_delete_Some in Hk as [_ Hk]. by apply (Hno k).
Qed.

Lemma dispatch_all_keeps_done (frames : list (list byte)) (s : Server) (l : loc)
    (p : Pending) :
  slots s !! l = Some p -> done p = true ->
  exists p', slots (dispatch_all frames s) !! l = Some p' /\ done p' = true.
Proof.
  revert s p. induction frames as [|d rest IH]; intros s p Hp Hd; [by exists p |].
  change (dispatch_all (d :: rest) s) with (dispatch_all rest (dispatch d s)).
  destruct (dispatch_keeps_done s l p Hp Hd d) as (p1 & Hp1 & Hd1).
  by apply (IH _ p1).
Qed.

Lemma dispatch_all_app (pre post : list (list byte)) (s : Server) :
  dispatch_all (pre ++ post) s = dispatch_all post (dispatch_all pre s).
Proof. unfold dispatch_all. apply foldl_app. Qed.

Variables (t : Task) (s : Server) (p : Pending).

(** C3, as the code has it.  When [wait_for] returns with the latch of the
    task's slot still clear, that is when the 500 ms have elapsed without a
    completion, the worker stores the TIMEOUT payload in the slot and sets
    the latch, and leaves the pending table as it is.  The worker then
    releases the slot and reads it again to build the response line, so the
    line is the payload the slot holds at that moment, followed by a
    newline; in between the dispatcher may have handled the messages
    [frames] and the event loop may have changed the connection table to
    [cs].  The latch is still set at the read.  The line is appended to the
    output queue of the connection filed under the task's descriptor at that
    moment, whose write interest is set; nothing is queued when there is
    none.  The line is the TIMEOUT payload and a newline when none of
    [frames] is a RouteResp frame with the id of the task; when one is, and
    the entry of the task is in the pending table, the line is the payload
    of the first such frame and a newline. *)
Theorem worker_timeout (frames : list (list byte)) (cs : gmap Z Conn) :
  slots s !! t_pend t = Some p ->
  done p = false ->
  (forall k, pending s !! k = Some (t_pend t) -> k = t_corr t) ->
  let s1 := worker_wait t s in
  let s2 := set_conns cs (dispatch_all frames s1) in
  slots s1 !! t_pend t = Some {| done := true; resp := TIMEOUT |} /\
  pending s1 = pending s /\
  conns s1 = conns s /\
  exists p2,
    slots s2 !! t_pend t = Some p2 /\
    done p2 = true /\
    (forall c, cs !! t_fd t = Some c ->
       conns (worker_reply t s2) !! t_fd t =
       Some {| fd := fd c; inbuf := inbuf c;
               outq := outq c ++ [resp p2 +:+ NL]; want_write := true |}) /\
    (cs !! t_fd t = None -> worker_reply t s2 = s2) /\
    ((forall d h pl, In d frames -> unpack d = Some (h, pl) ->
        type h = msgtype_code RouteResp -> corr_id h <> t_corr t) ->
     resp p2 = TIMEOUT) /\
    (forall pre d post h pl,
       frames = pre ++ d :: post ->
       (forall d' h' pl', In d' pre -> unpack d' = Some (h', pl') ->
          type h' = msgtype_code RouteResp -> corr_id h' <> t_corr t) ->
       unpack d = Some (h, pl) -> type h = msgtype_code RouteResp ->
       corr_id h = t_corr t ->
       pending s !! t_corr t = Some (t_pend t) ->
       resp p2 = pl).
Proof.
  intros Hp Hd Huniq s1 s2.
  assert (Hs1 : s1 = complete (t_pend t) TIMEOUT s).
  { unfold s1, worker_wait. by rewrite Hp, Hd. }
  assert (Hslot : slots s1 !! t_pend t = Some {| done := true; resp := TIMEOUT |}).
  { rewrite Hs1. by apply (complete_lookup _ _ _ p). }
  assert (Hpend : pending s1 = pending s) by (by rewrite Hs1).
  split; [exact Hslot |]. split; [exact Hpend |]. split; [by rewrite Hs1 |].
  destruct (dispatch_all_keeps_done frames s1 _ _ Hslot eq_refl) as (p2 & Hp2 & Hd2).
  exists p2.
  assert (Hp2' : slots s2 !! t_pend t = Some p2) by exact Hp2.
  split; [exact Hp2' |]. split; [exact Hd2 |]. split; [| split; [| split]].
  - intros c Hc. by apply (worker_reply_conn t s2 p2 c Hp2').
  - intros Hc. unfold worker_reply. rewrite Hp2'.
    change (conns s2) with cs. by rewrite Hc.
  - intros Hother.
    destruct (dispatch_all_other_id frames s1 (t_pend t) (t_corr t)) as (H1 & _).
    { intros k. rewrite Hpend. apply Huniq. }
    { exact Hother. }
    rewrite H1, Hslot in Hp2. by injection Hp2 as <-.
  - intros pre d post h pl -> Hpre Hu Ht Hc Hentry.
    rewrite (dispatch_all_app pre (d :: post)) in Hp2.
    change (dispatch_all (d :: post) ?x) with (dispatch_all post (dispatch d x)) in Hp2.
    destruct (dispatch_all_other_id pre s1 (t_pend t) (t_corr t)) as (H1 & H2 & H3).
    { intros k. rewrite Hpend. apply Huniq. }
    { exact Hpre. }
    set (sa := dispatch_all pre s1) in *.
    rewrite Hslot in H1. rewrite Hpend, Hentry in H2.
    rewrite dispatch_all_no_entry in Hp2.
    + rewrite (dispatch_resp d h pl sa Hu Ht), Hc, H2 in Hp2.
      match type of Hp2 with
      | slots (complete _ _ ?x) !! _ = _ =>
          rewrite (complete_lookup x _ pl _ H1) in Hp2
      end.
      by injection Hp2 as <-.
    + intros k. rewrite (dispatch_resp d h pl sa Hu Ht), Hc, H2.
      rewrite pending_complete. cbn [pending]. intros Hk.
      apply lookup_delete_Some in Hk as [Hne Hk]. by apply Hne, eq_sym, H3.
Qed.

End TimeoutReply.

Lemma worker_timeout_witness :
  let c0 := mkConn 5 EmptyString [] false in
  let s0 := {| conns := {[ 5 := c0 ]}; pending := {[ 1 := 1%positive ]};
               slots := {[ 1%positive := mkPending false EmptyString ]};
               corr_counter := 2; pool := mkPool false [] |} in
  let t0 := mkTask 5 1 1%positive "{}" in
  let frames := [pack RouteResp 2 "{x}"] in
  slots s0 !! t_pend t0 = Some (mkPending false EmptyString) /\
  (forall k, pending s0 !! k = Some (t_pend t0) -> k = t_corr t0) /\
  exists p2,
    slots (set_conns (conns s0) (dispatch_all frames (worker_wait t0 s0)))
      !! t_pend t0 = Some p2 /\
    resp p2 = TIMEOUT /\
    conns (worker_reply t0
             (set_conns (conns s0) (dispatch_all frames (worker_wait t0 s0)))) !! 5
    = Some {| fd := 5; inbuf := EmptyString; outq := [] ++ [resp p2 +:+ NL];
              want_write := true |}.
Proof.
  intros c0 s0 t0 frames.
  assert (H1 : slots s0 !! t_pend t0 = Some (mkPending false EmptyString))
    by reflexivity.
  assert (H2 : forall k, pending s0 !! k = Some (t_pend t0) -> k = t_corr t0).
  { intros k Hk. change (({[ 1 := 1%positive ]} : gmap Z loc) !! k
                         = Some 1%positive) in Hk.
    apply lookup_singleton_Some in Hk as [<- _]. reflexivity. }
  split; [exact H1 |]. split; [exact H2 |].
  destruct (worker_timeout t0 s0 _ frames (conns s0) H1 eq_refl H2)
    as (_ & _ & _ & p2 & Hs & _ & Hq & _ & Hto & _).
  exists p2. split; [exact Hs |]. split.
  - apply Hto. intros d h pl [<- | []] Hu _.
    vm_compute in Hu. injection Hu as <- _. discriminate.
  - exact (Hq c0 eq_refl).
Defined.

(** The line a client gets after a timeout need not be the TIMEOUT line.
    The wait of the task of [run_accepted] ends with its slot not
    completed, and the worker stores the TIMEOUT payload; a response frame
    for its id is then dispatched before the worker reads the slot, and the
    line queued on the connection is the payload of that frame. *)
Lemma timeout_line_replaced :
  let s0 := snd (worker_send mq_req (fun _ => OsOk) run_task run_accepted) in
  let s3 := worker_reply run_task (dispatch late_frame (worker_wait run_task s0)) in
  slots s0 !! t_pend run_task = Some {| done := false; resp := EmptyString |} /\
  slots (worker_wait run_task s0) !! t_pend run_task
    = Some {| done := true; resp := TIMEOUT |} /\
  run s0 [EvWait run_task; EvResp late_frame; EvReply run_task] s3 /\
  outq <$> conns s3 !! t_fd run_task = Some ["{late}" +:+ NL] /\
  "{late}" +:+ NL <> TIMEOUT +:+ NL.
Proof.
  intros s0 s3.
  split; [vm_compute; reflexivity |].
  split; [vm_compute; reflexivity |].
  split.
  - eapply run_cons; [apply step_wait |].
    eapply run_cons; [apply step_resp |].
    eapply run_cons; [apply step_reply |]. apply run_nil.
  - split; [vm_compute; reflexivity | discriminate].
Qed.

Section PendingTable.

Lemma pending_on_line (cfd : Z) (line : string) (s s' : Server) (c : Z) (l : loc) :
  on_line cfd line s = Ret s' -> pending s !! c = Some l ->
  pending s' !! c = Some l.
Proof.
  unfold on_line. intros H Hc.
  destruct (empty (trim_newline line)); [by injection H as <- |].
  destruct (Z.of_nat (size (pending s)) >? MAX_PENDING).
  - injection H as <-. unfold enable_write, push_out. cbn [conns set_conns].
    by destruct (alter _ cfd (conns s) !! cfd).
  - cbn [next_corr_id make_shared_Pending set_slots slots pending conns
         corr_counter pool] in H.
    destruct (submit _ (pool s)) as [pl|e]; [| done].
    injection H as <-. cbn [pending]. unfold emplace.
    destruct (pending s !! corr_counter s) as [l0|] eqn:E; [done |].
    rewrite lookup_insert_ne; [done |]. intros Heq. rewrite Heq in E. congruence.
Qed.

Lemma pending_worker_send (q : PosixMq) (os : nat -> os_send) (t : Task) (s : Server) :
  pending (snd (worker_send q os t s)) = pending s.
Proof.
  rewrite worker_send_eq.
  by destruct (send_retry q _ os 1000 0) as [[[[|]|e] calls] slept].
Qed.

Lemma pending_worker_wait (t : Task) (s : Server) :
  pending (worker_wait t s) = pending s.
Proof.
  unfold worker_wait. destruct (slots s !! t_pend t) as [p|]; [| done].
  by destruct (done p).
Qed.

Lemma pending_worker_reply (t : Task) (s : Server) :
  pending (worker_reply t s) = pending s.
Proof.
  unfold worker_reply. destruct (slots s !! t_pend t) as [p|]; [| done].
  destruct (conns s !! t_fd t); [| done].
  unfold enable_write, push_out. cbn [conns set_conns].
  by destruct (alter _ (t_fd t) (conns s) !! t_fd t).
Qed.

(** C9, as the code has it.  In one action of any thread of the server, an
    entry of the pending table disappears exactly when the action is the
    dispatcher receiving a well-formed RouteResp frame that carries the
    entry's correlation id.  The worker's timeout fill (like its
    send-failure fill and its reply) leaves the table as it is: after the
    500 ms timeout has completed a slot the entry is still in the table. *)
Theorem entry_removed_by_dispatcher_only (s s' : Server) (ev : event)
    (c : Z) (l : loc) :
  step s ev s' ->
  pending s !! c = Some l ->
  (pending s' !! c = None <->
   exists data h payload,
     ev = EvResp data /\ unpack data = Some (h, payload) /\
     type h = msgtype_code RouteResp /\ corr_id h = c) /\
  (forall t, ev = EvWait t -> pending s' = pending s).
Proof.
  intros Hstep Hc. split.
  - inversion Hstep as [cfd line s0 s0' Hl | data s0 | t os s0 | t s0 | t s0]; subst.
    + rewrite (pending_on_line _ _ _ _ _ _ Hl Hc).
      split; [done | intros (? & ? & ? & ? & _); done].
    + destruct (dispatch_cases data s) as [H | (h & pl & p0 & Hu & Ht & Hp & H)];
        rewrite H.
      * rewrite Hc. split; [done |].
        intros (d & h & pl & [= <-] & Hu & Ht & Hcid).
        rewrite (dispatch_resp _ _ _ _ Hu Ht), Hcid, Hc in H.
        apply (f_equal (fun x => pending x !! c)) in H.
        rewrite pending_complete in H. cbn [pending] in H.
        rewrite lookup_delete_eq, Hc in H. done.
      * rewrite pending_complete. cbn [pending]. split.
        -- intros Hn. apply lookup_delete_None in Hn as [Heq | Hn]; [| congruence].
           by exists data, h, pl.
        -- intros (d & h' & pl' & [= <-] & Hu' & _ & Hcid).
           rewrite Hu in Hu'. injection Hu' as <- <-. rewrite Hcid.
           apply lookup_delete_eq.
    + rewrite pending_worker_send, Hc.
      split; [done | intros (? & ? & ? & ? & _); done].
    + rewrite pending_worker_wait, Hc.
      split; [done | intros (? & ? & ? & ? & _); done].
    + rewrite pending_worker_reply, Hc.
      split; [done | intros (? & ? & ? & ? & _); done].
  - intros t ->. inversion Hstep; subst. apply pending_worker_wait.
Qed.

Lemma corr_counter_dispatch (data : list byte) (s : Server) :
  corr_counter (dispatch data s) = corr_counter s.
Proof.
  by destruct (dispatch_cases data s) as [H | (h & pl & p0 & _ & _ & _ & H)];
    rewrite H.
Qed.

Lemma corr_counter_worker_send (q : PosixMq) (os : nat -> os_send) (t : Task)
    (s : Server) :
  corr_counter (snd (worker_send q os t s)) = corr_counter s.
Proof.
  rewrite worker_send_eq.
  by destruct (send_retry q _ os 1000 0) as [[[[|]|e] calls] slept].
Qed.

Lemma corr_counter_worker_wait (t : Task) (s : Server) :
  corr_counter (worker_wait t s) = corr_counter s.
Proof.
  unfold worker_wait. destruct (slots s !! t_pend t) as [p|]; [| done].
  by destruct (done p).
Qed.

Lemma corr_counter_worker_reply (t : Task) (s : Server) :
  corr_counter (worker_reply t s) = corr_counter s.
Proof.
  unfold worker_reply. destruct (slots s !! t_pend t) as [p|]; [| done].
  destruct (conns s !! t_fd t); [| done].
  unfold enable_write, push_out. cbn [conns set_conns].
  by destruct (alter _ (t_fd t) (conns s) !! t_fd t).
Qed.

(** The keys of the pending table stay below the counter, as long as the
    64-bit counter has not wrapped: the hypothesis of the request path on
    correlation ids holds in every state the server reaches from [init]. *)
Lemma ids_allocated_step (s s' : Server) (ev : event) :
  step s ev s' ->
  0 < corr_counter s -> corr_counter s + 1 < 2 ^ 64 ->
  ids_allocated s ->
  ids_allocated s' /\ corr_counter s <= corr_counter s'.
Proof.
  intros Hstep Hpos Hmax Hids.
  inversion Hstep as [cfd line s0 s0' Hl | data s0 | t os s0 | t s0 | t s0]; subst.
  - unfold on_line in Hl.
    destruct (empty (trim_newline line)); [injection Hl as <-; split; [done | lia] |].
    destruct (Z.of_nat (size (pending s)) >? MAX_PENDING).
    + injection Hl as <-.
      assert (Hp : forall x, pending (enable_write cfd true (push_out cfd x s)) = pending s
                             /\ corr_counter (enable_write cfd true (push_out cfd x s))
                                = corr_counter s).
      { intros x. unfold enable_write, push_out. cbn [conns set_conns].
        by destruct (alter _ cfd (conns s) !! cfd). }
      destruct (Hp BUSY_LINE) as [Hp1 Hp2].
      split; [| lia]. intros k l. rewrite Hp1, Hp2. apply Hids.
    + cbn [next_corr_id make_shared_Pending set_slots slots pending conns
           corr_counter pool] in Hl.
      destruct (submit _ (pool s)) as [pl|e]; [| done].
      injection Hl as <-. cbn [pending corr_counter].
      assert (Hw : wrap64 (corr_counter s + 1) = corr_counter s + 1)
        by (unfold wrap64; apply Z.mod_small; lia).
      split; [| lia]. intros k l. cbn [pending corr_counter]. rewrite Hw.
      unfold emplace. destruct (pending s !! corr_counter s) eqn:E.
      * intros Hk. apply Hids in Hk. lia.
      * destruct (decide (k = corr_counter s)) as [-> | Hne]; [lia |].
        rewrite lookup_insert_ne by done. intros Hk. apply Hids in Hk. lia.
  - split; [| rewrite corr_counter_dispatch; lia].
    intros k l Hk. rewrite corr_counter_dispatch.
    destruct (dispatch_cases data s) as [H | (h & pl & p0 & _ & _ & _ & H)];
      rewrite H in Hk.
    + by apply (Hids k l).
    + rewrite pending_complete in Hk. cbn [pending] in Hk.
      apply lookup_delete_Some in Hk as [_ Hk]. by apply (Hids k l).
  - split; [| rewrite corr_counter_worker_send; lia].
    intros k l. rewrite pending_worker_send, corr_counter_worker_send. apply Hids.
  - split; [| rewrite corr_counter_worker_wait; lia].
    intros k l. rewrite pending_worker_wait, corr_counter_worker_wait. apply Hids.
  - split; [| rewrite corr_counter_worker_reply; lia].
    intros k l. rewrite pending_worker_reply, corr_counter_worker_reply. apply Hids.
Qed.

End PendingTable.

Lemma entry_removed_by_dispatcher_only_witness :
  step run_timed_out (EvResp late_frame) (dispatch late_frame run_timed_out) /\
  pending run_timed_out !! 1 = Some (t_pend run_task) /\
  pending (dispatch late_frame run_timed_out) !! 1 = None.
Proof.
  assert (H1 : step run_timed_out (EvResp late_frame)
                 (dispatch late_frame run_timed_out)) by constructor.
  assert (H2 : pending run_timed_out !! 1 = Some (t_pend run_task))
    by (vm_compute; reflexivity).
  split; [exact H1 |]. split; [exact H2 |].
  apply (proj1 (entry_removed_by_dispatcher_only _ _ _ 1 _ H1 H2)).
  exists late_frame. eexists. eexists.
  split; [reflexivity |]. split; [vm_compute; reflexivity |].
  split; reflexivity.
Defined.

(** After the timeout fill has completed the slot of the run, and after
    the worker has queued its TIMEOUT line, the pending table still holds
    the entry of correlation id 1. *)
Lemma timeout_keeps_entry :
  t_corr run_task = 1 /\
  slots run_timed_out !! t_pend run_task =
    Some {| done := true; resp := TIMEOUT |} /\
  pending run_timed_out !! 1 = Some (t_pend run_task) /\
  pending (worker_reply run_task run_timed_out) !! 1 = Some (t_pend run_task) /\
  pending (worker_reply run_task run_timed_out) !! 1 <> None.
Proof.
  assert (H : pending (worker_reply run_task run_timed_out) !! 1
              = Some (t_pend run_task)) by (vm_compute; reflexivity).
  split; [reflexivity |]. split; [vm_compute; reflexivity |].
  split; [vm_compute; reflexivity |]. split; [exact H |].
  rewrite H. done.
Qed.

(** * JSON text: substrings and fields *)

Section Text.

Lemma string_app_assoc (a b c : string) : (a +:+ b) +:+ c = a +:+ (b +:+ c).
Proof.
  induction a as [|x a IH]; [done |].
  change (String x ((a +:+ b) +:+ c) = String x (a +:+ b +:+ c)). by f_equal.
Qed.

Lemma las_app (a b : string) :
  list_ascii_of_string (a +:+ b) = list_ascii_of_string a ++ list_ascii_of_string b.
Proof.
  induction a as [|x a IH]; [done |].
  change (x :: list_ascii_of_string (a +:+ b)
          = x :: (list_ascii_of_string a ++ list_ascii_of_string b)).
  by f_equal.
Qed.

Lemma prefix_split (p s : string) :
  String.prefix p s = true -> exists post, s = p +:+ post.
Proof.
  revert s. induction p as [|x p IH]; intros s H.
  - by exists s.
  - destruct s as [|y s]; [done |]. cbn in H.
    destruct (ascii_dec x y) as [->|]; [| done].
    destruct (IH s H) as [post ->]. by exists post.
Qed.

Lemma prefix_append (p post : string) : String.prefix p (p +:+ post) = true.
Proof.
  induction p as [|x p IH]; [by destruct post |].
  change (String.prefix (String x p) (String x (p +:+ post)) = true).
  cbn [String.prefix]. destruct (ascii_dec x x); [exact IH | done].
Qed.

Lemma contains_split (p s : string) :
  contains p s = true -> exists pre post, s = pre +:+ p +:+ post.
Proof.
  induction s as [|y s IH]; cbn [contains]; intros H.
  - rewrite orb_false_r in H. destruct (prefix_split _ _ H) as [post Hp].
    by exists EmptyString, post.
  - apply orb_prop in H as [H | H].
    + destruct (prefix_split _ _ H) as [post Hp]. by exists EmptyString, post.
    + destruct (IH H) as (pre & post & ->). by exists (String y pre), post.
Qed.

Lemma contains_intro (pre p post : string) :
  contains p (pre +:+ p +:+ post) = true.
Proof.
  induction pre as [|y pre IH].
  - change (EmptyString +:+ p +:+ post) with (p +:+ post).
    destruct (p +:+ post) eqn:E; cbn [contains]; rewrite <- E, prefix_append; done.
  - change (String y pre +:+ p +:+ post) with (String y (pre +:+ p +:+ post)).
    cbn [contains]. rewrite IH. apply orb_true_r.
Qed.

Lemma quote_split_nonempty (l : list ascii) : exists h t, quote_split l = h :: t.
Proof.
  induction l as [|c l (h & t & IH)]; [by eexists _, _ |].
  cbn [quote_split]. destruct (Ascii.eqb c "034"); [by eexists _, _ |].
  rewrite IH. by eexists _, _.
Qed.

Lemma quote_split_app (l r : list ascii) :
  quote_split (l ++ "034"%char :: r) = quote_split l ++ quote_split r.
Proof.
  induction l as [|c l IH]; [done |].
  cbn [app quote_split]. destruct (Ascii.eqb c "034"); rewrite IH; [done |].
  by destruct (quote_split_nonempty l) as (h & t & ->).
Qed.

Lemma quote_split_noq (s : string) :
  noq s = true -> quote_split (list_ascii_of_string s) = [list_ascii_of_string s].
Proof.
  unfold noq. induction s as [|c s IH]; [done |].
  cbn [list_ascii_of_string forallb quote_split].
  intros [Hc Hs]%andb_prop. apply negb_true_iff in Hc. rewrite Hc, (IH Hs). done.
Qed.

Lemma quote_split_join (segs : list string) :
  segs <> [] -> forallb noq segs = true ->
  quote_split (list_ascii_of_string (join_dq segs)) = map list_ascii_of_string segs.
Proof.
  induction segs as [|a rest IH]; [done |]. intros _ H.
  cbn [forallb] in H. apply andb_prop in H as [Ha Hr].
  destruct rest as [|b rest]; [by apply quote_split_noq |].
  change (join_dq (a :: b :: rest)) with (a +:+ DQ +:+ join_dq (b :: rest)).
  rewrite las_app.
  change (list_ascii_of_string (DQ +:+ join_dq (b :: rest)))
    with ("034"%char :: list_ascii_of_string (join_dq (b :: rest))).
  rewrite quote_split_app, (quote_split_noq a Ha), IH; done.
Qed.

(** If the text has a field [k], the key is one of the pieces between two
    quotes, and the next piece starts with the colon. *)
Lemma has_field_pieces (k s : string) :
  noq k = true -> has_field k s = true ->
  exists i rest,
    quote_split (list_ascii_of_string s) !! S i = Some (list_ascii_of_string k) /\
    quote_split (list_ascii_of_string s) !! S (S i) = Some (":"%char :: rest).
Proof.
  intros Hk H. apply contains_split in H as (pre & post & ->).
  assert (E : list_ascii_of_string (pre +:+ (jq k +:+ ":") +:+ post) =
              list_ascii_of_string pre ++ "034"%char ::
                (list_ascii_of_string k ++ "034"%char ::
                   (":"%char :: list_ascii_of_string post))).
  { unfold jq. rewrite !las_app. cbn. by rewrite <- !app_assoc. }
  rewrite E, !quote_split_app, (quote_split_noq k Hk).
  cbn [quote_split]. change (Ascii.eqb ":" "034") with false. cbn iota.
  destruct (quote_split_nonempty (list_ascii_of_string post)) as (h & t & ->).
  destruct (quote_split_nonempty (list_ascii_of_string pre)) as (h0 & t0 & ->).
  exists (length t0), h. split.
  - replace (S (length t0)) with (length (h0 :: t0) + 0)%nat by (simpl; lia).
    by rewrite lookup_app_r, Nat.add_comm, Nat.add_sub by lia.
  - replace (S (S (length t0))) with (length (h0 :: t0) + 1)%nat by (simpl; lia).
    rewrite lookup_app_r by lia.
    replace (length (h0 :: t0) + 1 - length (h0 :: t0))%nat with 1%nat by lia.
    done.
Qed.

End Text.

(** * The FLX engine *)

Section Extraction.

Lemma noq_uint (d : Decimal.uint) : noq (NilEmpty.string_of_uint d) = true.
Proof. unfold noq. induction d; cbn; done. Qed.

Lemma noq_dec (z : Z) : noq (dec z) = true.
Proof.
  unfold dec, NilZero.string_of_uint.
  destruct (N.to_uint (Z.to_N z)) eqn:E; try done; rewrite <- E; apply noq_uint.
Qed.

Lemma noq_get (s : string) :
  (forall i, get i s <> Some "034"%char) -> noq s = true.
Proof.
  unfold noq. induction s as [|c s IH]; [done |]. intros H.
  cbn [list_ascii_of_string forallb]. apply andb_true_intro. split.
  - apply negb_true_iff, Ascii.eqb_neq. intros ->. by apply (H O).
  - apply IH. intros i. apply (H (S i)).
Qed.

Lemma substring_one (s : string) (i : nat) (c : ascii) :
  get i s = Some c -> substring i 1 s = String c EmptyString.
Proof.
  revert i. induction s as [|a s IH]; intros i H; [by destruct i |].
  destruct i as [|i].
  - cbn in H. injection H as ->. cbn. by destruct s.
  - cbn in H. cbn. by apply IH.
Qed.

(** The text between a quote and the next quote holds no quote. *)
Lemma noq_between (j : string) (q1 q2 : nat) :
  index (q1 + 1) DQ j = Some q2 ->
  noq (substring (q1 + 1) (q2 - (q1 + 1)) j) = true.
Proof.
  intros H. apply noq_get. intros i Hi.
  destruct (Nat.lt_ge_cases i (q2 - (q1 + 1))) as [Hlt | Hge].
  - rewrite substring_correct1 in Hi by exact Hlt.
    apply substring_one in Hi.
    apply (index_correct2 _ _ _ _ H (i + (q1 + 1))%nat); [lia | lia | exact Hi].
  - by rewrite substring_correct2 in Hi by exact Hge.
Qed.

Lemma noq_json_get_string (j key : string) : noq (json_get_string j key) = true.
Proof.
  unfold json_get_string.
  destruct (index 0 _ j) as [k|]; [| done].
  destruct (index _ ":" j) as [colon|]; [| done].
  destruct (index colon DQ j) as [q1|]; [| done].
  destruct (index (q1 + 1) DQ j) as [q2|] eqn:E; [| done].
  by apply noq_between.
Qed.

End Extraction.

Lemma contains_app_r (p a b : string) :
  contains p b = true -> contains p (a +:+ b) = true.
Proof.
  intros (pre & post & ->)%contains_split.
  rewrite <- string_app_assoc. apply contains_intro.
Qed.

Lemma contains_app_l (p a b : string) :
  contains p a = true -> contains p (a +:+ b) = true.
Proof.
  intros (pre & post & ->)%contains_split.
  rewrite !string_app_assoc. apply contains_intro.
Qed.

(** Walk along a text built by appending until a closed piece holds the
    pattern. *)
Ltac find_piece :=
  repeat first [ apply contains_app_l; reflexivity | apply contains_app_r ].

Section EngineLoop.

Lemma noq_app (a b : string) : noq (a +:+ b) = noq a && noq b.
Proof. unfold noq. by rewrite las_app, forallb_app. Qed.

Lemma unpack_length (data : list byte) (h : MsgHdr) (payload : string) :
  unpack data = Some (h, payload) -> Z.of_nat HDR_SIZE <= Z.of_nat (length data).
Proof.
  unfold unpack. destruct (Z.of_nat (length data) <? Z.of_nat HDR_SIZE) eqn:E; [done |].
  intros _. by apply Z.ltb_ge in E.
Qed.

(** The engine answers every well-formed RouteReq frame. *)
Lemma handle_route_req (data : list byte) (h : MsgHdr) (payload : string) (t0 t1 : Z) :
  unpack data = Some (h, payload) -> type h = msgtype_code RouteReq ->
  handle data t0 t1 = Some (pack RouteResp (corr_id h) (response h payload t0 t1)).
Proof.
  intros Hu Ht. unfold handle.
  pose proof (unpack_length _ _ _ Hu) as Hl. unfold HDR_SIZE in Hl.
  destruct (Z.of_nat (length data) <=? 0) eqn:E; [apply Z.leb_le in E; lia |].
  by rewrite Hu, Ht, Z.eqb_refl.
Qed.

Lemma lookup_unseeded (m : string) :
  m = EmptyString \/ ~ In m seeded_keys -> lookup_msisdn m = None.
Proof.
  intros H. assert (Hn : ~ In m seeded_keys).
  { destruct H as [-> | H]; [| exact H]. cbn. intros [H|[H|[H|[]]]]; discriminate. }
  unfold lookup_msisdn, db_. cbn in Hn.
  rewrite !lookup_insert_ne by (intros <-; tauto).
  apply lookup_empty.
Qed.

(** The text of a NOT_FOUND response, cut at its double quotes. *)
Lemma response_not_found (h : MsgHdr) (payload : string) (t0 t1 : Z) :
  lookup_msisdn (json_get_string payload "msisdn") = None ->
  response h payload t0 t1 =
  join_dq [ "{"; "corr_id"; ":" +:+ dec (corr_id h) +:+ ","; "op"; ":";
            (if empty (json_get_string payload "op") then "route"
             else json_get_string payload "op"); ",";
            "msisdn"; ":"; json_get_string payload "msisdn"; ",";
            "status"; ":"; "NOT_FOUND"; ",";
            "reason"; ":"; "subscriber_not_in_alr"; ",";
            "flx_latency_ms"; ":" +:+ dec (wrap64 (t1 - t0)) +:+ "}" ].
Proof.
  intros Hl. unfold response. rewrite Hl. unfold jq, DQ. cbn [join_dq].
  rewrite !string_app_assoc. reflexivity.
Qed.

Lemma noq_op (payload : string) :
  noq (if empty (json_get_string payload "op") then "route"
       else json_get_string payload "op") = true.
Proof. destruct (empty _); [done | apply noq_json_get_string]. Qed.

(** A key without quotes that is none of corr_id, op, msisdn, status,
    reason and flx_latency_ms (nor a lone colon or comma) is not a field of
    a NOT_FOUND response. *)
Lemma not_found_no_field (k : string) (h : MsgHdr) (payload : string) (t0 t1 : Z) :
  lookup_msisdn (json_get_string payload "msisdn") = None ->
  noq k = true ->
  k <> "corr_id" -> k <> "op" -> k <> "msisdn" -> k <> "status" ->
  k <> "reason" -> k <> "flx_latency_ms" -> k <> ":" -> k <> "," ->
  has_field k (response h payload t0 t1) = false.
Proof.
  intros Hl Hk N1 N2 N3 N4 N5 N6 N7 N8.
  destruct (has_field k (response h payload t0 t1)) eqn:E; [| done].
  exfalso. apply has_field_pieces in E as (i & rest & H1 & H2); [| exact Hk].
  rewrite (response_not_found h payload t0 t1 Hl) in H1, H2.
  match type of H1 with
  | context [join_dq ?segs] => pose proof (quote_split_join segs) as Hq
  end.
  rewrite Hq in H1, H2 by
    (try done; cbn [forallb];
     rewrite !noq_app, !noq_dec, noq_op, noq_json_get_string; done).
  clear Hq. cbn [map] in H1, H2.
  assert (Hinj : forall a : string, Some (list_ascii_of_string a)
                   = Some (list_ascii_of_string k) -> a = k).
  { intros a [= Ha]. apply (f_equal string_of_list_ascii) in Ha.
    by rewrite !string_of_list_ascii_of_string in Ha. }
  do 21 (destruct i as [|i];
         [cbn [lookup list_lookup] in H1, H2;
          first [ by (simpl in H2; discriminate H2)
                | by (apply Hinj in H1; congruence) ] |]).
  discriminate H1.
Qed.

(** C5. For a well-formed RouteReq frame whose extracted msisdn is the
    empty string (no msisdn in the payload) or is not one of the three
    seeded registry keys, the engine packs a RouteResp frame whose payload
    contains the status NOT_FOUND and the reason subscriber_not_in_alr, and
    has no imsi, serving_msc, serving_vlr or route_group field. *)
Theorem engine_not_found (data : list byte) (h : MsgHdr) (payload : string)
    (t0 t1 : Z) :
  unpack data = Some (h, payload) ->
  type h = msgtype_code RouteReq ->
  (json_get_string payload "msisdn" = EmptyString \/
   ~ In (json_get_string payload "msisdn") seeded_keys) ->
  exists body,
    handle data t0 t1 = Some (pack RouteResp (corr_id h) body) /\
    contains (jq "status" +:+ ":" +:+ jq "NOT_FOUND") body = true /\
    contains (jq "reason" +:+ ":" +:+ jq "subscriber_not_in_alr") body = true /\
    has_field "imsi" body = false /\
    has_field "serving_msc" body = false /\
    has_field "serving_vlr" body = false /\
    has_field "route_group" body = false.
Proof.
  intros Hu Ht Hm. apply lookup_unseeded in Hm.
  exists (response h payload t0 t1).
  split; [by apply handle_route_req |].
  split; [| split].
  - unfold response. rewrite Hm. find_piece.
  - unfold response. rewrite Hm. find_piece.
  - repeat split; apply not_found_no_field; done.
Qed.

End EngineLoop.

Lemma engine_not_found_witness :
  let data := pack RouteReq 42 "{}" in
  let h := mkHdr MAGIC 1 1 42 2 0 in
  unpack data = Some (h, "{}") /\
  type h = msgtype_code RouteReq /\
  json_get_string "{}" "msisdn" = EmptyString /\
  exists body,
    handle data 100 103 = Some (pack RouteResp (corr_id h) body) /\
    contains (jq "status" +:+ ":" +:+ jq "NOT_FOUND") body = true /\
    contains (jq "reason" +:+ ":" +:+ jq "subscriber_not_in_alr") body = true /\
    has_field "imsi" body = false /\
    has_field "serving_msc" body = false /\
    has_field "serving_vlr" body = false /\
    has_field "route_group" body = false.
Proof.
  intros data h.
  assert (H1 : unpack data = Some (h, "{}")) by (vm_compute; reflexivity).
  assert (H2 : type h = msgtype_code RouteReq) by reflexivity.
  assert (H3 : json_get_string "{}" "msisdn" = EmptyString) by reflexivity.
  split; [exact H1 |]. split; [exact H2 |]. split; [exact H3 |].
  exact (engine_not_found data h "{}" 100 103 H1 H2 (or_introl H3)).
Defined.

Section EngineOk.

Lemma Z_of_byte_range (b : byte) : 0 <= Z_of_byte b < 256.
Proof. unfold Z_of_byte. pose proof (Byte.to_N_bounded b). lia. Qed.

Lemma le_value_range (bs : list byte) :
  0 <= le_value bs < 256 ^ Z.of_nat (length bs).
Proof.
  induction bs as [|b bs IH]; [simpl; lia |].
  cbn [le_value length]. rewrite Nat2Z.inj_succ, Z.pow_succ_r by lia.
  pose proof (Z_of_byte_range b). lia.
Qed.

(** A header read from memory has a 64-bit correlation id. *)
Lemma corr_id_range (d : list byte) : 0 <= corr_id (hdr_of_bytes d) < 2 ^ 64.
Proof.
  unfold hdr_of_bytes. cbn [corr_id].
  pose proof (le_value_range (take 8 (drop 8 d))) as H.
  assert (Hl : (length (take 8 (drop 8 d)) <= 8)%nat) by (rewrite length_take; lia).
  assert (256 ^ Z.of_nat (length (take 8 (drop 8 d))) <= 256 ^ 8)
    by (apply Z.pow_le_mono_r; lia).
  change (2 ^ 64) with (256 ^ 8). lia.
Qed.

Lemma unpack_hdr (data : list byte) (h : MsgHdr) (payload : string) :
  unpack data = Some (h, payload) -> h = hdr_of_bytes data.
Proof.
  unfold unpack. destruct (_ <? _); [done |].
  destruct (_ || _); [done |]. destruct (negb _); [done |]. by intros [= <- _].
Qed.

(** The header of a packed frame, whatever the payload size. *)
Lemma pack_hdr (t : MsgType) (c : Z) (p : string) :
  0 <= c < 2 ^ 64 ->
  type (hdr_of_bytes (pack t c p)) = msgtype_code t /\
  corr_id (hdr_of_bytes (pack t c p)) = c.
Proof.
  intros Hc. unfold pack. rewrite hdr_of_bytes_app;
    cbn [magic version type corr_id payload_len reserved]; try done;
    try (unfold MAGIC; lia); try (destruct t; simpl; lia).
  unfold wrap32. apply Z.mod_pos_bound. lia.
Qed.

Lemma lookup_seeded (m : string) :
  In m seeded_keys -> exists rec, lookup_msisdn m = Some rec.
Proof.
  intros [<- | [<- | [<- | []]]]; eexists; vm_compute; reflexivity.
Qed.

(** C6. For a well-formed RouteReq frame whose extracted msisdn is a key of
    the registry, the engine hands to the response queue a frame packed with
    type RouteResp and the correlation id of the request, as the header of
    that frame shows; its payload starts with the corr_id field holding the
    decimal digits of that id, then the op field, then the msisdn field
    holding the extracted msisdn, then the status OK. *)
Theorem engine_ok_echo (data : list byte) (h : MsgHdr) (payload : string)
    (t0 t1 : Z) :
  unpack data = Some (h, payload) ->
  type h = msgtype_code RouteReq ->
  In (json_get_string payload "msisdn") seeded_keys ->
  exists body op rest,
    handle data t0 t1 = Some (pack RouteResp (corr_id h) body) /\
    type (hdr_of_bytes (pack RouteResp (corr_id h) body)) = msgtype_code RouteResp /\
    corr_id (hdr_of_bytes (pack RouteResp (corr_id h) body)) = corr_id h /\
    noq op = true /\
    noq (json_get_string payload "msisdn") = true /\
    body = "{" +:+ jq "corr_id" +:+ ":" +:+ dec (corr_id h) +:+ "," +:+
           jq "op" +:+ ":" +:+ jq op +:+ "," +:+
           jq "msisdn" +:+ ":" +:+ jq (json_get_string payload "msisdn") +:+ "," +:+
           jq "status" +:+ ":" +:+ jq "OK" +:+ "," +:+ rest.
Proof.
  intros Hu Ht Hin. destruct (lookup_seeded _ Hin) as [rec Hrec].
  assert (Hc : 0 <= corr_id h < 2 ^ 64).
  { rewrite (unpack_hdr _ _ _ Hu). apply corr_id_range. }
  destruct (pack_hdr RouteResp (corr_id h) (response h payload t0 t1) Hc) as [Hty Hid].
  eexists (response h payload t0 t1), _, _.
  split; [by apply handle_route_req |].
  split; [exact Hty |]. split; [exact Hid |].
  split; [apply (noq_op payload) |].
  split; [apply noq_json_get_string |].
  unfold response. rewrite Hrec. unfold jq. rewrite !string_app_assoc. reflexivity.
Qed.

End EngineOk.

Lemma engine_ok_echo_witness :
  let req := "{" +:+ jq "msisdn" +:+ ":" +:+ jq "+14085551234" +:+ "," +:+
             jq "op" +:+ ":" +:+ jq "route" +:+ "}" in
  let data := pack RouteReq 42 req in
  let h := mkHdr MAGIC 1 1 42 38 0 in
  unpack data = Some (h, req) /\
  In (json_get_string req "msisdn") seeded_keys /\
  exists body op rest,
    handle data 100 103 = Some (pack RouteResp 42 body) /\
    type (hdr_of_bytes (pack RouteResp 42 body)) = 2 /\
    corr_id (hdr_of_bytes (pack RouteResp 42 body)) = 42 /\
    noq op = true /\
    noq (json_get_string req "msisdn") = true /\
    body = "{" +:+ jq "corr_id" +:+ ":" +:+ dec 42 +:+ "," +:+
           jq "op" +:+ ":" +:+ jq op +:+ "," +:+
           jq "msisdn" +:+ ":" +:+ jq (json_get_string req "msisdn") +:+ "," +:+
           jq "status" +:+ ":" +:+ jq "OK" +:+ "," +:+ rest.
Proof.
  intros req data h.
  assert (H1 : unpack data = Some (h, req)) by (vm_compute; reflexivity).
  assert (H2 : In (json_get_string req "msisdn") seeded_keys)
    by (left; vm_compute; reflexivity).
  split; [exact H1 |]. split; [exact H2 |].
  exact (engine_ok_echo data h req 100 103 H1 eq_refl H2).
Defined.



(** * The texts sent by the server, byte by byte *)

Example busy_line_bytes :
  list_byte_of_string BUSY_LINE =
  [x7b; x22; x73; x74; x61; x74; x75; x73; x22; x3a; x22; x42; x55; x53; x59;
   x22; x2c; x22; x72; x65; x61; x73; x6f; x6e; x22; x3a; x22; x6f; x76; x65;
   x72; x6c; x6f; x61; x64; x22; x7d; x0a].
Proof. reflexivity. Qed.

(** When the late frame is dispatched after the worker has read the slot,
    the TIMEOUT line is what the client gets; dispatched between the return
    of the wait and that read, it replaces the payload the worker reads. *)
Remark late_response_and_reply :
  outq <$> conns (worker_reply run_task run_timed_out) !! 5
    = Some [TIMEOUT +:+ NL] /\
  outq <$> conns (dispatch late_frame (worker_reply run_task run_timed_out)) !! 5
    = Some [TIMEOUT +:+ NL] /\
  outq <$> conns (worker_reply run_task (dispatch late_frame run_timed_out)) !! 5
    = Some ["{late}" +:+ NL].
Proof. repeat split; vm_compute; reflexivity. Qed.


(** * Further properties of the framing codec *)

Section CodecInverse.

Lemma byte_of_Z_of_byte (b : byte) : byte_of_Z (Z_of_byte b) = b.
Proof.
  unfold byte_of_Z. pose proof (Z_of_byte_range b) as Hr.
  rewrite Z.mod_small by lia. unfold Z_of_byte. rewrite N2Z.id.
  by rewrite Byte.of_to_N.
Qed.

Lemma byte_of_Z_low (a v : Z) : byte_of_Z (a + 256 * v) = byte_of_Z a.
Proof.
  unfold byte_of_Z.
  replace ((a + 256 * v) mod 256) with (a mod 256); [done |].
  rewrite Z.mul_comm, Z.mod_add by lia. done.
Qed.

(** Writing back the value read from [bs] gives [bs]. *)
Lemma le_bytes_value (bs : list byte) : le_bytes (length bs) (le_value bs) = bs.
Proof.
  induction bs as [|b bs IH]; [done |].
  cbn [length le_value le_bytes]. pose proof (Z_of_byte_range b) as Hr.
  rewrite byte_of_Z_low, byte_of_Z_of_byte. f_equal.
  replace ((Z_of_byte b + 256 * le_value bs) / 256) with (le_value bs); [exact IH |].
  rewrite Z.mul_comm, Z.div_add by lia. rewrite Z.div_small by lia. lia.
Qed.

Lemma take_split {A} (a b : nat) (d : list A) :
  take (a + b) d = take a d ++ take b (drop a d).
Proof.
  revert d. induction a as [|a IH]; intros d; [done |].
  destruct d as [|x d]; [by destruct b |]. cbn. by rewrite IH.
Qed.

Lemma le_bytes_take (n k : nat) (d : list byte) :
  (k + n <= length d)%nat ->
  le_bytes n (le_value (take n (drop k d))) = take n (drop k d).
Proof.
  intros H.
  assert (Hl : length (take n (drop k d)) = n)
    by (rewrite length_take, length_drop; lia).
  rewrite <- Hl at 1. apply le_bytes_value.
Qed.

(** The header read from a buffer of at least 24 bytes, written back, is
    the first 24 bytes of the buffer. *)
Lemma hdr_bytes_of_bytes (d : list byte) :
  (HDR_SIZE <= length d)%nat -> hdr_bytes (hdr_of_bytes d) = take HDR_SIZE d.
Proof.
  unfold HDR_SIZE. intros H. unfold hdr_bytes, hdr_of_bytes.
  cbn [magic version type corr_id payload_len reserved].
  rewrite <- (drop_0 d) at 1.
  rewrite !le_bytes_take by lia. rewrite drop_0.
  change 24%nat with (4 + (2 + (2 + (8 + (4 + 4)))))%nat.
  rewrite (take_split 4), (take_split 2), (take_split 2), (take_split 8),
    (take_split 4). rewrite !drop_drop. reflexivity.
Qed.

End CodecInverse.

Section UnpackStrict.

Lemma payload_len_range (d : list byte) :
  0 <= payload_len (hdr_of_bytes d) < 2 ^ 32.
Proof.
  unfold hdr_of_bytes. cbn [payload_len].
  pose proof (le_value_range (take 4 (drop 16 d))) as H.
  assert (Hl : (length (take 4 (drop 16 d)) <= 4)%nat) by (rewrite length_take; lia).
  assert (256 ^ Z.of_nat (length (take 4 (drop 16 d))) <= 256 ^ 4)
    by (apply Z.pow_le_mono_r; lia).
  change (2 ^ 32) with (256 ^ 4). lia.
Qed.

(** What [unpack] has checked when it returns [true]. *)
Lemma unpack_Some (data : list byte) (h : MsgHdr) (p : string) :
  unpack data = Some (h, p) <->
  (HDR_SIZE <= length data)%nat /\ h = hdr_of_bytes data /\
  magic h = MAGIC /\ version h = 1 /\
  Z.of_nat HDR_SIZE + payload_len h = Z.of_nat (length data) /\
  p = string_of_list_byte (drop HDR_SIZE data).
Proof.
  unfold unpack.
  pose proof (payload_len_range data) as Hr.
  assert (Hw : wrap64 (Z.of_nat HDR_SIZE + payload_len (hdr_of_bytes data))
               = Z.of_nat HDR_SIZE + payload_len (hdr_of_bytes data)).
  { unfold wrap64, HDR_SIZE. apply Z.mod_small. lia. }
  rewrite Hw. clear Hw.
  destruct (Z.of_nat (length data) <? Z.of_nat HDR_SIZE) eqn:E1.
  { apply Z.ltb_lt in E1. split; [done | intros (H & _); lia]. }
  apply Z.ltb_ge in E1.
  destruct (magic (hdr_of_bytes data) =? MAGIC) eqn:E2; cbn [negb orb].
  2:{ apply Z.eqb_neq in E2. split; [done | intros (_ & -> & H & _); done]. }
  apply Z.eqb_eq in E2.
  destruct (version (hdr_of_bytes data) =? 1) eqn:E3; cbn [negb].
  2:{ apply Z.eqb_neq in E3. split; [done | intros (_ & -> & _ & H & _); done]. }
  apply Z.eqb_eq in E3.
  destruct (_ =? Z.of_nat (length data)) eqn:E4; cbn [negb].
  2:{ apply Z.eqb_neq in E4. split; [done | intros (_ & -> & _ & _ & H & _); done]. }
  apply Z.eqb_eq in E4.
  assert (Ht : take (Z.to_nat (payload_len (hdr_of_bytes data))) (drop HDR_SIZE data)
               = drop HDR_SIZE data).
  { apply take_ge. rewrite length_drop. lia. }
  rewrite Ht. split.
  - intros [= <- <-]. repeat split; try done. lia.
  - intros (_ & -> & _ & _ & _ & ->). done.
Qed.

Lemma hdr_of_bytes_prefix (d e : list byte) :
  (HDR_SIZE <= length d)%nat -> hdr_of_bytes (d ++ e) = hdr_of_bytes d.
Proof.
  unfold HDR_SIZE. intros H. unfold hdr_of_bytes.
  rewrite !drop_app_le by lia.
  rewrite !take_app_le by (rewrite ?length_drop; lia). reflexivity.
Qed.

(** X1. A buffer that [unpack] accepts is exactly a header followed by the
    payload it returns: writing the returned header and payload back gives
    the buffer, nothing is left over and nothing is missing.  The header has
    the magic and version 1, its length field is the payload size, and the
    buffer starts with the six bytes 51 4D 52 54 01 00. *)
Theorem unpack_exact (data : list byte) (h : MsgHdr) (p : string) :
  unpack data = Some (h, p) ->
  data = hdr_bytes h ++ list_byte_of_string p /\
  magic h = MAGIC /\ version h = 1 /\
  payload_len h = Z.of_nat (String.length p) /\
  take 6 data = [x51; x4d; x52; x54; x01; x00].
Proof.
  intros (Hlen & -> & Hm & Hv & Hp & ->)%unpack_Some.
  assert (Hd : data = hdr_bytes (hdr_of_bytes data) ++
                      list_byte_of_string (string_of_list_byte (drop HDR_SIZE data))).
  { rewrite list_byte_of_string_of_list_byte, hdr_bytes_of_bytes by exact Hlen.
    by rewrite take_drop. }
  split; [exact Hd |]. split; [exact Hm |]. split; [exact Hv |]. split.
  - rewrite <- length_list_byte_of_string, list_byte_of_string_of_list_byte,
      length_drop. unfold HDR_SIZE in *. lia.
  - rewrite Hd. unfold hdr_bytes. rewrite Hm, Hv. reflexivity.
Qed.

(** X2. The length check is strict: a buffer that [unpack] accepts is
    rejected once bytes are appended to it, and so is every proper prefix
    of it. *)
Theorem unpack_rejects_resized (data : list byte) (h : MsgHdr) (p : string) :
  unpack data = Some (h, p) ->
  (forall extra, extra <> [] -> unpack (data ++ extra) = None) /\
  (forall n, (n < length data)%nat -> unpack (take n data) = None).
Proof.
  intros (Hlen & -> & Hm & Hv & Hp & ->)%unpack_Some. split.
  - intros extra Hne.
    destruct (unpack (data ++ extra)) as [[h' p']|] eqn:E; [| done].
    apply unpack_Some in E as (_ & -> & _ & _ & Hp' & _).
    rewrite hdr_of_bytes_prefix in Hp' by exact Hlen.
    rewrite length_app in Hp'. destruct extra; [done |]. cbn [length] in Hp'. lia.
  - intros n Hn.
    destruct (unpack (take n data)) as [[h' p']|] eqn:E; [| done].
    apply unpack_Some in E as (Hlen' & -> & _ & _ & Hp' & _).
    rewrite <- (take_drop n data) in Hp at 1.
    rewrite hdr_of_bytes_prefix in Hp by exact Hlen'.
    rewrite length_take in Hp'. lia.
Qed.

End UnpackStrict.

Lemma unpack_exact_witness :
  let data := pack RouteResp 7 "{}" in
  unpack data = Some (mkHdr MAGIC 1 2 7 2 0, "{}") /\
  data = hdr_bytes (mkHdr MAGIC 1 2 7 2 0) ++ list_byte_of_string "{}" /\
  take 6 data = [x51; x4d; x52; x54; x01; x00].
Proof.
  intros data.
  assert (H : unpack data = Some (mkHdr MAGIC 1 2 7 2 0, "{}"))
    by (vm_compute; reflexivity).
  split; [exact H |].
  destruct (unpack_exact data _ _ H) as (H1 & _ & _ & _ & H5).
  split; [exact H1 | exact H5].
Defined.

Lemma unpack_rejects_resized_witness :
  let data := pack RouteResp 7 "{}" in
  unpack data = Some (mkHdr MAGIC 1 2 7 2 0, "{}") /\
  unpack (data ++ [x0a]) = None /\
  unpack (take 25 data) = None.
Proof.
  intros data.
  assert (H : unpack data = Some (mkHdr MAGIC 1 2 7 2 0, "{}"))
    by (vm_compute; reflexivity).
  split; [exact H |].
  destruct (unpack_rejects_resized data _ _ H) as [H1 H2].
  split; [apply H1; discriminate | apply H2; vm_compute; lia].
Defined.

(** * The worker pool *)

Section PoolOrder.

Lemma drain_queue (fuel : nat) (p : ThreadPool) :
  (length (q_ p) < fuel)%nat -> drain fuel p = (q_ p, stop_ p).
Proof.
  revert p. induction fuel as [|f IH]; intros [st q] H; [lia |].
  cbn [q_ stop_] in *. destruct q as [|j rest].
  - cbn. by destruct st.
  - cbn [length] in H.
    change (drain (S f) (mkPool st (j :: rest)))
      with (let '(jobs, exited) := drain f (mkPool st rest) in (j :: jobs, exited)).
    rewrite (IH (mkPool st rest)) by (cbn; lia). done.
Qed.

Lemma submit_all_queue (jobs : list Task) (p : ThreadPool) :
  stop_ p = false ->
  submit_all jobs p = Ret {| stop_ := false; q_ := q_ p ++ jobs |}.
Proof.
  revert p. induction jobs as [|j rest IH]; intros [st q] H; cbn in H; subst st.
  - cbn. by rewrite app_nil_r.
  - cbn [submit_all submit stop_ q_]. rewrite IH by done.
    cbn [q_]. by rewrite <- app_assoc.
Qed.

(** X3. The pool is a first-in first-out queue.  Jobs submitted to a
    running pool are appended; a worker takes them in submission order; with
    the pool still running it then blocks, and once the destructor has set
    the stop flag it returns only after it has run every job that was still
    queued.  A stopped pool accepts nothing: [submit] throws and the queue
    is as before. *)
Theorem pool_fifo (jobs : list Task) (p : ThreadPool) :
  stop_ p = false ->
  exists p',
    submit_all jobs p = Ret p' /\
    q_ p' = q_ p ++ jobs /\
    drain (S (length (q_ p'))) p' = (q_ p ++ jobs, false) /\
    drain (S (length (q_ p'))) (shutdown p') = (q_ p ++ jobs, true) /\
    (forall j, submit j (shutdown p') = Throw "ThreadPool stopped").
Proof.
  intros H. eexists. split; [by apply submit_all_queue |].
  cbn [q_]. split; [done |]. split; [| split].
  - rewrite drain_queue by (cbn; lia). done.
  - rewrite drain_queue by (cbn; lia). done.
  - done.
Qed.

End PoolOrder.

Lemma pool_fifo_witness :
  let a := mkTask 5 1 1%positive "a" in
  let b := mkTask 6 2 2%positive "b" in
  let p := mkPool false [a] in
  stop_ p = false /\
  exists p',
    submit_all [b] p = Ret p' /\
    q_ p' = [a; b] /\
    drain (S (length (q_ p'))) p' = ([a; b], false) /\
    drain (S (length (q_ p'))) (shutdown p') = ([a; b], true) /\
    (forall j, submit j (shutdown p') = Throw "ThreadPool stopped").
Proof.
  intros a b p. split; [reflexivity |].
  exact (pool_fifo [b] p eq_refl).
Defined.

(** * The bounded retry *)

Section RetryBound.

Variables (q : PosixMq) (len : Z) (os : nat -> os_send).

Lemma send_true (o : os_send) (asked : bool) :
  send q len o = (Ret true, asked) -> asked = true /\ o = OsOk.
Proof.
  unfold send. destruct (negb (is_open q)); [done |].
  destruct (len >? size_t_of_long (msgsize (cfg_ q))); [done |].
  destruct o; intros [= <-]; done.
Qed.

(** X4. The retry loop is bounded: with [n] attempts allowed it calls the
    kernel at most [n] times and sleeps 200 microseconds after each failed
    attempt and never otherwise, at most [200 * n] in all (0.2 s for the
    1000 attempts of a worker).  It leaves [sent] true only when the kernel
    has accepted the message, at the first attempt that the kernel accepts,
    every earlier attempt having returned false.  On a closed queue no
    attempt reaches the kernel. *)
Theorem send_retry_bounded (n k : nat) :
  let res := send_retry q len os n k in
  (snd (fst res) <= n)%nat /\
  0 <= snd res <= 200 * Z.of_nat n /\
  (fst (fst res) = Ret true ->
   exists j, (j < n)%nat /\
     send q len (os (k + j)%nat) = (Ret true, true) /\
     os (k + j)%nat = OsOk /\
     snd res = 200 * Z.of_nat j /\
     forall i, (i < j)%nat -> fst (send q len (os (k + i)%nat)) = Ret false) /\
  (is_open q = false -> res = (Ret false, O, 200 * Z.of_nat n)).
Proof.
  revert k. induction n as [|m IH]; intros k.
  - cbn. repeat split; try lia; done.
  - cbn zeta. cbn [send_retry].
    destruct (send q len (os k)) as [[[|]|e] asked] eqn:E.
    + apply send_true in E as E'. destruct E' as [-> Ho]. cbn [fst snd].
      split; [lia |]. split; [lia |]. split.
      * intros _. exists O. rewrite Nat.add_0_r.
        split; [lia |]. split; [exact E |]. split; [exact Ho |].
        split; [lia |]. intros i Hi. lia.
      * intros Hc. unfold send in E. rewrite Hc in E. done.
    + specialize (IH (S k)). cbn zeta in IH.
      destruct (send_retry q len os m (S k)) as [[r calls] slept].
      cbn [fst snd] in *. destruct IH as (IH1 & IH2 & IH3 & IH4).
      split; [destruct asked; lia |]. split; [lia |]. split.
      * intros Hr. destruct (IH3 Hr) as (j & Hj & Hs & Ho & Hsl & Hall).
        exists (S j). rewrite Nat.add_succ_r. cbn [Nat.add] in Hs, Ho.
        split; [lia |]. split; [exact Hs |]. split; [exact Ho |].
        split; [lia |]. intros i Hi. destruct i as [|i].
        -- by rewrite Nat.add_0_r, E.
        -- rewrite Nat.add_succ_r. apply (Hall i). lia.
      * intros Hc. specialize (IH4 Hc). injection IH4 as -> -> ->.
        unfold send in E. rewrite Hc in E. cbn in E. injection E as <-.
        f_equal. lia.
    + cbn [fst snd]. split; [destruct asked; lia |]. split; [lia |].
      split; [done |]. intros Hc. unfold send in E. rewrite Hc in E. done.
Qed.

End RetryBound.

Lemma send_retry_bounded_witness :
  let os := fun k => if (k <? 2)%nat then OsEAGAIN else OsOk in
  fst (fst (send_retry mq_req 26 os 1000 0)) = Ret true /\
  exists j, (j < 1000)%nat /\
    send mq_req 26 (os (0 + j)%nat) = (Ret true, true) /\
    os (0 + j)%nat = OsOk /\
    snd (send_retry mq_req 26 os 1000 0) = 200 * Z.of_nat j /\
    forall i, (i < j)%nat -> fst (send mq_req 26 (os (0 + i)%nat)) = Ret false.
Proof.
  intros os.
  assert (H : fst (fst (send_retry mq_req 26 os 1000 0)) = Ret true)
    by (vm_compute; reflexivity).
  split; [exact H |].
  exact (proj1 (proj2 (proj2 (send_retry_bounded mq_req 26 os 1000 0))) H).
Defined.

(** * Trimming and cutting lines *)

Section TrimSpec.

Lemma length_append (a b : string) :
  String.length (a +:+ b) = (String.length a + String.length b)%nat.
Proof.
  induction a as [|c a IH]; [done |].
  change (S (String.length (a +:+ b)) = S (String.length a + String.length b)).
  by f_equal.
Qed.

Lemma append_empty_r (a : string) : a +:+ EmptyString = a.
Proof.
  induction a as [|c a IH]; [done |].
  change (String c (a +:+ EmptyString) = String c a). by f_equal.
Qed.

Lemma back_append (r t : string) :
  t <> EmptyString -> back (r +:+ t) = back t.
Proof.
  intros Ht. induction r as [|c r IH]; [done |].
  change (String c r +:+ t) with (String c (r +:+ t)).
  destruct (r +:+ t) as [|d u] eqn:E.
  - destruct r; [cbn in E; done | done].
  - cbn [back]. exact IH.
Qed.

Lemma pop_back_append (r t : string) :
  t <> EmptyString -> pop_back (r +:+ t) = r +:+ pop_back t.
Proof.
  intros Ht. induction r as [|c r IH]; [done |].
  change (String c r +:+ t) with (String c (r +:+ t)).
  destruct (r +:+ t) as [|d u] eqn:E.
  - destruct r; [cbn in E; done | done].
  - change (pop_back (String c (String d u))) with (String c (pop_back (String d u))).
    rewrite IH. done.
Qed.

Lemma trim_loop_tail (fuel : nat) (r tail : string) :
  all_crlf tail = true ->
  (forall c, back r = Some c -> is_crlf c = false) ->
  (String.length tail <= fuel)%nat ->
  trim_loop fuel (r +:+ tail) = r.
Proof.
  revert tail. induction fuel as [|f IH]; intros tail Hall Hr Hlen.
  - destruct tail; [| cbn in Hlen; lia]. cbn. apply append_empty_r.
  - destruct (back tail) as [c|] eqn:Hb.
    + assert (Hne : tail <> EmptyString) by (intros ->; done).
      cbn [trim_loop]. rewrite back_append, Hb by exact Hne.
      rewrite (back_crlf tail c Hall Hb), pop_back_append by exact Hne.
      apply IH; [by apply pop_back_crlf | exact Hr |].
      rewrite length_pop_back. lia.
    + apply back_None in Hb. subst tail. rewrite append_empty_r.
      cbn [trim_loop]. destruct (back r) as [c|] eqn:Hc; [| done].
      by rewrite (Hr c eq_refl).
Qed.

Lemma trim_loop_split (fuel : nat) (s : string) :
  exists tail, s = trim_loop fuel s +:+ tail /\ all_crlf tail = true.
Proof.
  revert s. induction fuel as [|f IH]; intros s.
  - exists EmptyString. by rewrite append_empty_r.
  - cbn [trim_loop]. destruct (back s) as [c|] eqn:Hb.
    + destruct (is_crlf c) eqn:Hc.
      * destruct (IH (pop_back s)) as (tail & Hs & Hall).
        exists (tail +:+ String c EmptyString). split.
        -- rewrite <- string_app_assoc, <- Hs. by apply pop_back_snoc.
        -- rewrite all_crlf_app, Hall. unfold all_crlf. cbn. by rewrite Hc.
      * exists EmptyString. by rewrite append_empty_r.
    + exists EmptyString. by rewrite append_empty_r.
Qed.

Lemma trim_loop_end (fuel : nat) (s : string) (c : ascii) :
  (String.length s <= fuel)%nat ->
  back (trim_loop fuel s) = Some c -> is_crlf c = false.
Proof.
  revert s. induction fuel as [|f IH]; intros s Hlen.
  - destruct s; [done | cbn in Hlen; lia].
  - cbn [trim_loop]. destruct (back s) as [d|] eqn:Hb.
    + destruct (is_crlf d) eqn:Hd.
      * apply IH. rewrite length_pop_back. lia.
      * rewrite Hb. by intros [= <-].
    + by rewrite Hb.
Qed.

(** X5. [trim_newline] removes the trailing run of carriage returns and
    newlines and nothing else: its argument is the result followed by
    characters that are all CR or LF, the result does not end in CR or LF,
    and any way of writing a string as a text not ending in CR or LF
    followed by CR/LF characters gives that text back, so CR and LF inside
    a line are kept and trimming twice changes nothing. *)
Theorem trim_newline_spec (s : string) :
  (exists tail, s = trim_newline s +:+ tail /\ all_crlf tail = true) /\
  (forall c, back (trim_newline s) = Some c -> is_crlf c = false) /\
  (forall r tail,
     s = r +:+ tail -> all_crlf tail = true ->
     (forall c, back r = Some c -> is_crlf c = false) ->
     trim_newline s = r) /\
  trim_newline (trim_newline s) = trim_newline s.
Proof.
  assert (H1 : exists tail, s = trim_newline s +:+ tail /\ all_crlf tail = true)
    by apply trim_loop_split.
  assert (H2 : forall c, back (trim_newline s) = Some c -> is_crlf c = false)
    by (intros c; by apply trim_loop_end).
  assert (H3 : forall x r tail, x = r +:+ tail -> all_crlf tail = true ->
                 (forall c, back r = Some c -> is_crlf c = false) ->
                 trim_newline x = r).
  { intros x r tail -> Hall Hr. unfold trim_newline.
    apply trim_loop_tail; [exact Hall | exact Hr |]. rewrite length_append. lia. }
  split; [exact H1 |]. split; [exact H2 |]. split; [apply H3 |].
  apply (H3 _ _ EmptyString); [by rewrite append_empty_r | done | exact H2].
Qed.

End TrimSpec.

Lemma trim_newline_spec_witness :
  let s := "a" +:+ CR +:+ "b" +:+ CR +:+ NL +:+ NL in
  s = ("a" +:+ CR +:+ "b") +:+ (CR +:+ NL +:+ NL) /\
  all_crlf (CR +:+ NL +:+ NL) = true /\
  trim_newline s = "a" +:+ CR +:+ "b".
Proof.
  intros s.
  assert (H1 : s = ("a" +:+ CR +:+ "b") +:+ (CR +:+ NL +:+ NL)) by reflexivity.
  assert (H2 : all_crlf (CR +:+ NL +:+ NL) = true) by reflexivity.
  split; [exact H1 |]. split; [exact H2 |].
  refine (proj1 (proj2 (proj2 (trim_newline_spec s))) _ _ H1 H2 _).
  intros c [= <-]. reflexivity.
Defined.

Section CutLine.

Lemma substring_0_0 (s : string) : substring 0 0 s = EmptyString.
Proof. by destruct s. Qed.

Lemma substring_all (s : string) : substring 0 (String.length s) s = s.
Proof.
  induction s as [|c s IH]; [done |].
  change (String c (substring 0 (String.length s) s) = String c s). by f_equal.
Qed.

(** [take_line] by cases on the first character of the buffer. *)
Lemma take_line_cons (c : ascii) (s : string) :
  take_line (String c s) =
  if Ascii.eqb c "010"%char then Some (NL, s)
  else match take_line s with
       | Some (l, r) => Some (String c l, r)
       | None => None
       end.
Proof.
  unfold take_line. cbn [index String.prefix NL].
  destruct (Ascii.eqb_spec c "010"%char) as [-> | Hne].
  - destruct (ascii_dec "010" "010") as [_ | H]; [| done].
    replace (String.prefix EmptyString s) with true by (by destruct s).
    cbn [Nat.add String.length Nat.sub substring].
    rewrite substring_0_0, Nat.sub_0_r, substring_all. done.
  - destruct (ascii_dec "010" c) as [H | _]; [congruence |].
    destruct (index 0 NL s) as [p|]; [| done].
    cbn [Nat.add String.length Nat.sub substring]. done.
Qed.

Lemma take_line_empty : take_line EmptyString = None.
Proof. reflexivity. Qed.

Lemma take_line_append (x b line rest : string) :
  take_line x = Some (line, rest) ->
  take_line (x +:+ b) = Some (line, rest +:+ b).
Proof.
  revert line rest. induction x as [|c x IH]; intros line rest; [done |].
  change (String c x +:+ b) with (String c (x +:+ b)).
  rewrite !take_line_cons. destruct (Ascii.eqb c "010"); [by intros [= <- <-] |].
  destruct (take_line x) as [[l r]|]; [| done].
  intros [= <- <-]. by rewrite (IH l r eq_refl).
Qed.

Lemma take_line_nl_free (body rest : string) :
  nl_free body = true ->
  take_line (body +:+ NL +:+ rest) = Some (body +:+ NL, rest).
Proof.
  unfold nl_free. induction body as [|c body IH]; intros H.
  - change (EmptyString +:+ NL +:+ rest) with (String "010" rest).
    by rewrite take_line_cons.
  - cbn [list_ascii_of_string forallb] in H. apply andb_prop in H as [Hc Hb].
    apply negb_true_iff in Hc.
    change (String c body +:+ NL +:+ rest) with (String c (body +:+ NL +:+ rest)).
    rewrite take_line_cons, Hc, (IH Hb). done.
Qed.

(** X6. Cutting a line loses nothing.  When the buffer holds a newline,
    [take_line] returns the text up to and including the first newline and
    leaves the rest: the line is a newline-free body followed by the
    newline, and line and rest together are the buffer.  When the buffer
    holds no newline it returns nothing, and it does so only then. *)
Theorem take_line_spec (buf : string) :
  match take_line buf with
  | Some (line, rest) =>
      exists body, line = body +:+ NL /\ nl_free body = true /\
                   buf = line +:+ rest
  | None => nl_free buf = true
  end /\
  (forall body rest,
     buf = body +:+ NL +:+ rest -> nl_free body = true ->
     take_line buf = Some (body +:+ NL, rest)).
Proof.
  split; [| intros body rest -> H; by apply take_line_nl_free].
  induction buf as [|c buf IH]; [done |].
  rewrite take_line_cons. destruct (Ascii.eqb_spec c "010"%char) as [-> | Hne].
  - by exists EmptyString.
  - destruct (take_line buf) as [[l r]|].
    + destruct IH as (body & -> & Hb & ->). exists (String c body).
      split; [done |]. split; [| done].
      unfold nl_free in *. cbn [list_ascii_of_string forallb]. rewrite Hb.
      apply Ascii.eqb_neq in Hne. by rewrite Hne.
    + unfold nl_free in *. cbn [list_ascii_of_string forallb]. rewrite IH.
      apply Ascii.eqb_neq in Hne. by rewrite Hne.
Qed.

End CutLine.

Lemma take_line_spec_witness :
  let buf := "ab" +:+ NL +:+ "cd" +:+ NL +:+ "e" in
  buf = "ab" +:+ NL +:+ ("cd" +:+ NL +:+ "e") /\
  nl_free "ab" = true /\
  take_line buf = Some ("ab" +:+ NL, "cd" +:+ NL +:+ "e").
Proof.
  intros buf.
  assert (H1 : buf = "ab" +:+ NL +:+ ("cd" +:+ NL +:+ "e")) by reflexivity.
  assert (H2 : nl_free "ab" = true) by reflexivity.
  split; [exact H1 |]. split; [exact H2 |].
  exact (proj2 (take_line_spec buf) _ _ H1 H2).
Defined.

(** * Reading in chunks *)

Section Chunks.

Variables (cfd : Z) (b : string).

Lemma conns_append_inbuf (s : Server) :
  conns (append_inbuf cfd b s) !! cfd =
  (fun c => {| fd := fd c; inbuf := inbuf c +:+ b; outq := outq c;
               want_write := want_write c |}) <$> conns s !! cfd.
Proof. unfold append_inbuf. cbn [conns set_conns]. apply lookup_alter_eq. Qed.

Lemma append_inbuf_absent (s : Server) :
  conns s !! cfd = None -> append_inbuf cfd b s = s.
Proof.
  intros H. unfold append_inbuf, set_conns.
  rewrite alter_id' by exact H. by destruct s.
Qed.

Lemma push_out_append_inbuf (x : string) (s : Server) :
  push_out cfd x (append_inbuf cfd b s) = append_inbuf cfd b (push_out cfd x s).
Proof.
  unfold push_out, append_inbuf, set_conns. cbn [conns pending slots corr_counter pool].
  f_equal. rewrite !alter_alter_eq. by apply alter_ext.
Qed.

Lemma enable_write_append_inbuf (on : bool) (s : Server) :
  enable_write cfd on (append_inbuf cfd b s) = append_inbuf cfd b (enable_write cfd on s).
Proof.
  unfold enable_write. rewrite conns_append_inbuf.
  destruct (conns s !! cfd) as [c|] eqn:E; cbn [fmap option_fmap option_map]; [| done].
  unfold append_inbuf, set_conns. cbn [conns pending slots corr_counter pool].
  f_equal. rewrite insert_alter_eq, alter_insert_eq. done.
Qed.

(** Handling a line does not look at the read buffer. *)
Lemma on_line_append_inbuf (line : string) (s : Server) :
  on_line cfd line (append_inbuf cfd b s) =
  match on_line cfd line s with
  | Ret s' => Ret (append_inbuf cfd b s')
  | Throw e => Throw e
  end.
Proof.
  unfold on_line. destruct (empty (trim_newline line)); [done |].
  change (pending (append_inbuf cfd b s)) with (pending s).
  destruct (Z.of_nat (size (pending s)) >? MAX_PENDING).
  - by rewrite push_out_append_inbuf, enable_write_append_inbuf.
  - cbn [next_corr_id make_shared_Pending set_slots slots pending conns
         corr_counter pool append_inbuf set_conns].
    by destruct (submit _ (pool s)).
Qed.

(** More fuel does not change the result of the line loop. *)
Lemma line_loop_mono (f f' : nat) (s : Server) (r : outcome Server) :
  line_loop f cfd s = Some r -> (f <= f')%nat -> line_loop f' cfd s = Some r.
Proof.
  revert f' s. induction f as [|f IH]; intros f' s H Hle; [done |].
  destruct f' as [|f']; [lia |]. cbn [line_loop] in *.
  destruct (conns s !! cfd) as [c|]; [| done].
  destruct (take_line (inbuf c)) as [[line rest]|]; [| done].
  destruct (on_line cfd line _) as [s2|e]; [| done].
  apply IH; [exact H | lia].
Qed.

(** Lines already in the buffer are handled the same way whether or not
    more bytes follow them. *)
Lemma line_loop_append (fuel f : nat) (s s' : Server) (r : outcome Server) :
  line_loop fuel cfd s = Some (Ret s') ->
  line_loop f cfd (append_inbuf cfd b s') = Some r ->
  line_loop (fuel + f) cfd (append_inbuf cfd b s) = Some r.
Proof.
  revert s. induction fuel as [|g IH]; intros s H Hr; [done |].
  cbn [line_loop] in H.
  destruct (conns s !! cfd) as [c|] eqn:Ec.
  2:{ injection H as <-. apply (line_loop_mono f); [exact Hr | lia]. }
  destruct (take_line (inbuf c)) as [[line rest]|] eqn:Et.
  2:{ injection H as <-. apply (line_loop_mono f); [exact Hr | lia]. }
  match type of H with context [on_line cfd line ?x] => set (s1 := x) in * end.
  destruct (on_line cfd line s1) as [s2|e] eqn:Eo; [| done].
  change (S g + f)%nat with (S (g + f)). cbn [line_loop].
  rewrite conns_append_inbuf, Ec. cbn [fmap option_fmap option_map inbuf].
  rewrite (take_line_append _ _ _ _ Et).
  cbn [fd outq want_write].
  match goal with |- context [on_line cfd line ?x] =>
    replace x with (append_inbuf cfd b s1) end.
  - rewrite on_line_append_inbuf, Eo. by apply IH.
  - unfold s1, append_inbuf, set_conns.
    cbn [conns pending slots corr_counter pool]. f_equal.
    by rewrite insert_alter_eq, alter_insert_eq.
Qed.

Lemma conn_kept_on_line (line : string) (s s' : Server) :
  on_line cfd line s = Ret s' -> is_Some (conns s !! cfd) -> is_Some (conns s' !! cfd).
Proof.
  intros H [c Hc]. apply inbuf_on_line in H. rewrite Hc in H.
  destruct (conns s' !! cfd); [done | done].
Qed.

Lemma conn_kept_line_loop (fuel : nat) (s s' : Server) :
  line_loop fuel cfd s = Some (Ret s') ->
  is_Some (conns s !! cfd) -> is_Some (conns s' !! cfd).
Proof.
  revert s. induction fuel as [|g IH]; intros s H Hc; [done |].
  cbn [line_loop] in H. destruct (conns s !! cfd) as [c|] eqn:Ec; [| by destruct Hc].
  destruct (take_line (inbuf c)) as [[line rest]|]; [| by injection H as <-; rewrite Ec].
  match type of H with context [on_line cfd line ?x] => set (s1 := x) in * end.
  destruct (on_line cfd line s1) as [s2|e] eqn:Eo; [| done].
  apply (IH s2 H). apply (conn_kept_on_line _ _ _ Eo).
  unfold s1. cbn [conns set_conns]. rewrite lookup_insert_eq. done.
Qed.

Lemma feed_total (data : string) (s : Server) : exists r, feed cfd data s = Some r.
Proof.
  unfold feed. destruct (conns (append_inbuf cfd data s) !! cfd) as [c|] eqn:E;
    [| by eexists].
  apply line_loop_total; [| lia]. intros c' Hc'. rewrite E in Hc'.
  injection Hc' as <-. lia.
Qed.

End Chunks.

Section ChunkIndependence.

Lemma take_line_None (buf : string) : take_line buf = None -> nl_free buf = true.
Proof.
  induction buf as [|c buf IH]; [done |].
  rewrite take_line_cons. destruct (Ascii.eqb c "010") eqn:E; [done |].
  destruct (take_line buf) as [[l r]|]; [done |]. intros _.
  unfold nl_free in *. cbn [list_ascii_of_string forallb]. by rewrite E, IH.
Qed.

Lemma line_loop_leaves_tail (cfd : Z) (fuel : nat) (s s' : Server) (c' : Conn) :
  line_loop fuel cfd s = Some (Ret s') -> conns s' !! cfd = Some c' ->
  nl_free (inbuf c') = true.
Proof.
  revert s. induction fuel as [|g IH]; intros s H Hc'; [done |].
  cbn [line_loop] in H. destruct (conns s !! cfd) as [c|] eqn:Ec.
  2:{ injection H as <-. congruence. }
  destruct (take_line (inbuf c)) as [[line rest]|] eqn:Et.
  2:{ injection H as <-. rewrite Ec in Hc'. injection Hc' as <-.
      by apply take_line_None. }
  destruct (on_line cfd line _) as [s2|e] eqn:Eo; [| done].
  by apply (IH s2).
Qed.

Lemma append_inbuf_twice (cfd : Z) (a b : string) (s : Server) :
  append_inbuf cfd b (append_inbuf cfd a s) = append_inbuf cfd (a +:+ b) s.
Proof.
  unfold append_inbuf, set_conns. cbn [conns pending slots corr_counter pool].
  f_equal. rewrite alter_alter_eq. apply alter_ext. intros c _. cbn.
  by rewrite string_app_assoc.
Qed.

(** X7. Line framing does not depend on how the stream is cut into reads.
    When the bytes [a] have been read and their lines handled, reading [b]
    next gives the same result as reading [a] and [b] in a single chunk:
    the same lines are handled in the same order from the same states.
    After a read the buffer of the connection holds no newline, only the
    unfinished last line. *)
Theorem feed_chunks (cfd : Z) (a b : string) (s s1 : Server) :
  feed cfd a s = Some (Ret s1) ->
  feed cfd b s1 = feed cfd (a +:+ b) s /\
  (forall c1, conns s1 !! cfd = Some c1 -> nl_free (inbuf c1) = true).
Proof.
  intros H. unfold feed in H.
  destruct (conns (append_inbuf cfd a s) !! cfd) as [c|] eqn:Ec.
  - split; [| intros c1; by apply (line_loop_leaves_tail _ _ _ _ _ H)].
    destruct (feed_total cfd b s1) as [r Hr]. rewrite Hr.
    destruct (feed_total cfd (a +:+ b) s) as [r' Hr']. rewrite Hr'.
    unfold feed in Hr, Hr'.
    assert (Hs1 : is_Some (conns s1 !! cfd)).
    { apply (conn_kept_line_loop _ _ _ _ H). by rewrite Ec. }
    rewrite conns_append_inbuf in Hr. destruct Hs1 as [c1 Hc1].
    rewrite Hc1 in Hr. cbn [fmap option_fmap option_map] in Hr.
    pose proof (line_loop_append cfd b _ _ _ _ _ H Hr) as Hab.
    rewrite append_inbuf_twice in Hab.
    destruct (conns (append_inbuf cfd (a +:+ b) s) !! cfd) as [c2|] eqn:Ec2.
    + set (f1 := (_ + _)%nat) in Hab. set (f2 := S _) in Hr'.
      apply (line_loop_mono cfd f1 (f1 + f2)) in Hab; [| lia].
      apply (line_loop_mono cfd f2 (f1 + f2)) in Hr'; [| lia].
      congruence.
    + rewrite <- append_inbuf_twice, conns_append_inbuf, Ec in Ec2. done.
  - rewrite conns_append_inbuf in Ec.
    destruct (conns s !! cfd) as [c|] eqn:E; [done |].
    rewrite append_inbuf_absent in H by exact E. injection H as <-.
    split; [| intros c1; congruence].
    unfold feed. by rewrite !append_inbuf_absent, E by exact E.
Qed.

End ChunkIndependence.

Lemma feed_chunks_witness :
  let s := init {[ 5 := mkConn 5 EmptyString [] false ]} in
  let s1 := {| conns := {[ 5 := mkConn 5 "{" [] false ]};
               pending := ∅; slots := ∅; corr_counter := 1;
               pool := mkPool false [] |} in
  feed 5 (NL +:+ "{") s = Some (Ret s1) /\
  feed 5 ("}" +:+ NL +:+ "x") s1 = feed 5 ((NL +:+ "{") +:+ ("}" +:+ NL +:+ "x")) s.
Proof.
  intros s s1.
  assert (H : feed 5 (NL +:+ "{") s = Some (Ret s1)) by (vm_compute; reflexivity).
  split; [exact H |].
  exact (proj1 (feed_chunks 5 _ ("}" +:+ NL +:+ "x") s s1 H)).
Defined.

(** * Writing responses *)

Section WritePath.

Lemma substring_split (w : nat) (s : string) :
  (w <= String.length s)%nat ->
  substring 0 w s +:+ substring w (String.length s - w) s = s.
Proof.
  revert w. induction s as [|c s IH]; intros w H.
  - destruct w; [done | cbn in H; lia].
  - destruct w as [|w].
    + cbn [substring append Nat.sub String.length].
      change (String c (substring 0 (String.length s) s) = String c s).
      by rewrite substring_all.
    + cbn [String.length] in H.
      change (String c (substring 0 w s +:+ substring w (String.length s - w) s)
              = String c s).
      rewrite IH by lia. done.
Qed.

(** What the kernel took, followed by what is still queued, is what was
    queued. *)
Lemma write_loop_flat (q : list string) (ws : nat -> os_write) (k : nat) :
  w_sent (write_loop q ws k) +:+ flat (w_outq (write_loop q ws k)) = flat q.
Proof.
  revert k. induction q as [|s rest IH]; intros k; [done |].
  cbn [write_loop]. destruct (ws k) as [w| |]; [| done | done].
  destruct (w <? String.length s)%nat eqn:E.
  - apply Nat.ltb_lt in E. cbn [w_sent w_outq flat].
    rewrite <- string_app_assoc, substring_split by lia. done.
  - cbn [w_sent w_outq flat]. by rewrite string_app_assoc, IH.
Qed.

(** The write loop after [j] whole writes, by the result of the next
    call; [k0] is the number of calls made before. *)
Lemma write_loop_at (q : list string) (ws : nat -> os_write) (k0 j : nat) :
  (forall i x, (i < j)%nat -> q !! i = Some x ->
     exists w, ws (k0 + i)%nat = WrOk w /\ (String.length x <= w)%nat) ->
  (j = length q ->
   write_loop q ws k0 = {| w_outq := []; w_closed := false; w_sent := flat q |}) /\
  (forall x, q !! j = Some x ->
     (ws (k0 + j)%nat = WrAgain ->
      write_loop q ws k0 =
      {| w_outq := drop j q; w_closed := false; w_sent := flat (take j q) |}) /\
     (ws (k0 + j)%nat = WrErr ->
      write_loop q ws k0 =
      {| w_outq := drop j q; w_closed := true; w_sent := flat (take j q) |}) /\
     (forall w, ws (k0 + j)%nat = WrOk w -> (w < String.length x)%nat ->
      write_loop q ws k0 =
      {| w_outq := substring w (String.length x - w) x :: drop (S j) q;
         w_closed := false;
         w_sent := flat (take j q) +:+ substring 0 w x |})).
Proof.
  revert q k0. induction j as [|j IH]; intros q k0 Hwhole.
  - rewrite Nat.add_0_r. split.
    + intros Hq. symmetry in Hq. apply length_zero_iff_nil in Hq. by subst q.
    + intros x Hx. destruct q as [|y rest]; [done |].
      injection Hx as ->. cbn [write_loop drop take flat].
      split; [by intros -> |]. split; [by intros -> |].
      intros w -> Hw. apply Nat.ltb_lt in Hw. by rewrite Hw.
  - destruct q as [|y rest].
    { split; [done |]. intros x Hx. done. }
    destruct (Hwhole O y) as (w0 & Hw0 & Hlen); [lia | done |].
    rewrite Nat.add_0_r in Hw0.
    assert (E : (w0 <? String.length y)%nat = false) by (apply Nat.ltb_ge; lia).
    destruct (IH rest (S k0)) as [IH1 IH2].
    { intros i x Hi Hx. rewrite Nat.add_succ_comm. apply Hwhole; [lia | done]. }
    cbn [write_loop]. rewrite Hw0, E. cbn [drop take flat length].
    rewrite <- Nat.add_succ_comm. split.
    + intros [= Hq]. by rewrite (IH1 Hq).
    + intros x Hx. cbn [lookup list_lookup] in Hx.
      destruct (IH2 x Hx) as (Ha & He & Hp).
      split; [intros H; by rewrite (Ha H) |].
      split; [intros H; by rewrite (He H) |].
      intros w H Hw. rewrite (Hp w H Hw). cbn [w_outq w_closed w_sent].
      by rewrite string_app_assoc.
Qed.

(** The loop closes the connection only at a call of [write] that fails
    with an error, all calls before having taken whole strings. *)
Lemma write_loop_closed (q : list string) (ws : nat -> os_write) (k0 : nat) :
  w_closed (write_loop q ws k0) = true ->
  exists j x,
    (forall i y, (i < j)%nat -> q !! i = Some y ->
       exists w, ws (k0 + i)%nat = WrOk w /\ (String.length y <= w)%nat) /\
    q !! j = Some x /\ ws (k0 + j)%nat = WrErr.
Proof.
  revert k0. induction q as [|y rest IH]; intros k0; [done |].
  cbn [write_loop]. destruct (ws k0) as [w| |] eqn:E; [| done |].
  - destruct (w <? String.length y)%nat eqn:Ew; [done |].
    cbn [w_closed]. intros H. destruct (IH (S k0) H) as (j & x & Hwhole & Hx & Hj).
    exists (S j), x. rewrite <- Nat.add_succ_comm. split; [| done].
    intros i z Hi Hz. destruct i as [|i].
    + injection Hz as <-. rewrite Nat.add_0_r. exists w.
      apply Nat.ltb_ge in Ew. done.
    + rewrite <- Nat.add_succ_comm. apply Hwhole; [lia | done].
  - intros _. exists O, y. rewrite Nat.add_0_r. split; [| done]. intros i z Hi. lia.
Qed.

(** The handler in terms of its write loop. *)
Lemma on_writable_loop (cfd : Z) (ws : nat -> os_write) (s : Server) (c : Conn) :
  conns s !! cfd = Some c ->
  let r := write_loop (outq c) ws 0 in
  snd (on_writable cfd ws s) = w_sent r /\
  (w_closed r = true -> conns (fst (on_writable cfd ws s)) !! cfd = None) /\
  (w_closed r = false ->
   exists c', conns (fst (on_writable cfd ws s)) !! cfd = Some c' /\
              outq c' = w_outq r /\ inbuf c' = inbuf c /\ fd c' = fd c) /\
  (forall k, k <> cfd -> conns (fst (on_writable cfd ws s)) !! k = conns s !! k) /\
  pending (fst (on_writable cfd ws s)) = pending s /\
  slots (fst (on_writable cfd ws s)) = slots s.
Proof.
  intros Hc r. subst r. unfold on_writable. rewrite Hc.
  destruct (write_loop (outq c) ws 0) as [q' closed snt].
  cbn [w_outq w_closed w_sent]. destruct closed; cbn [fst snd].
  - unfold close_conn. cbn [conns set_conns pending slots].
    rewrite lookup_delete_eq. split; [done |]. split; [done |]. split; [done |].
    split; [| done]. intros k Hk. by rewrite lookup_delete_ne.
  - split; [done |]. split; [done |]. destruct q' as [|x q'].
    + unfold enable_write. cbn [conns set_conns]. rewrite lookup_insert_eq.
      cbn [conns set_conns pending slots fd inbuf outq want_write].
      rewrite lookup_insert_eq. split; [intros _; by eexists |].
      split; [| done]. intros k Hk. by rewrite !lookup_insert_ne.
    + cbn [conns set_conns pending slots]. rewrite lookup_insert_eq.
      split; [intros _; by eexists |].
      split; [| done]. intros k Hk. by rewrite lookup_insert_ne.
Qed.

(** X8. The write handler, run with no other thread acting on the
    connection in between, by what the kernel answers.  Let the first [j]
    calls of [write] have taken each the whole string at the head of the
    output queue.
    - If these were all the strings, the queue is left empty and all its
      bytes have gone to the socket.
    - If the next call fails with EAGAIN, the connection stays in the
      table, the strings from the [j]-th on stay in the queue unchanged,
      and the first [j] strings are what has gone to the socket.
    - If the next call fails with another error, the connection leaves the
      table.
    - If the next call takes [w] bytes, fewer than the string at the head,
      the rest of that string stays at the head of the queue, before the
      strings behind it, and its first [w] bytes have gone to the socket
      after the first [j] strings.
    The connection leaves the table only in the third case.  In every case
    a connection that stays keeps its descriptor and its read buffer, and
    the bytes that have gone to the socket followed by the bytes in its
    queue are the bytes that were in the queue, in order; other
    connections, the pending table and the slots are not touched. *)
Theorem on_writable_resumes (cfd : Z) (ws : nat -> os_write) (s : Server)
    (c : Conn) (j : nat) :
  conns s !! cfd = Some c ->
  whole_writes (outq c) ws j ->
  let s' := fst (on_writable cfd ws s) in
  let sent := snd (on_writable cfd ws s) in
  (j = length (outq c) ->
   outq <$> conns s' !! cfd = Some [] /\ sent = flat (outq c)) /\
  (forall x, outq c !! j = Some x ->
     (ws j = WrAgain ->
      outq <$> conns s' !! cfd = Some (drop j (outq c)) /\
      sent = flat (take j (outq c))) /\
     (ws j = WrErr ->
      conns s' !! cfd = None /\ sent = flat (take j (outq c))) /\
     (forall w, ws j = WrOk w -> (w < String.length x)%nat ->
      outq <$> conns s' !! cfd
        = Some (substring w (String.length x - w) x :: drop (S j) (outq c)) /\
      sent = flat (take j (outq c)) +:+ substring 0 w x)) /\
  (conns s' !! cfd = None ->
   exists i x, whole_writes (outq c) ws i /\ outq c !! i = Some x /\
               ws i = WrErr) /\
  (forall c', conns s' !! cfd = Some c' ->
     sent +:+ flat (outq c') = flat (outq c) /\
     inbuf c' = inbuf c /\ fd c' = fd c) /\
  (forall k, k <> cfd -> conns s' !! k = conns s !! k) /\
  pending s' = pending s /\ slots s' = slots s.
Proof.
  intros Hc Hwhole s' sent. subst s' sent.
  destruct (on_writable_loop cfd ws s c Hc) as (Hsent & Hclosed & Hkept & Hrest).
  destruct (write_loop_at (outq c) ws 0 j Hwhole) as [Hall Hnext].
  cbn [Nat.add] in Hnext.
  pose proof (write_loop_flat (outq c) ws 0) as Hflat.
  pose proof (write_loop_closed (outq c) ws 0) as Hwhy.
  set (r := write_loop (outq c) ws 0) in *.
  assert (Hq : forall q', w_closed r = false -> w_outq r = q' ->
             outq <$> conns (fst (on_writable cfd ws s)) !! cfd = Some q').
  { intros q' Hr <-. destruct (Hkept Hr) as (c' & -> & <- & _). done. }
  split; [| split; [| split; [| split]]].
  - intros Hj. rewrite Hsent. specialize (Hall Hj).
    split; [apply Hq |]; by rewrite Hall.
  - intros x Hx. destruct (Hnext x Hx) as (Ha & He & Hp).
    split; [| split].
    + intros H. rewrite Hsent. specialize (Ha H).
      split; [apply Hq |]; by rewrite Ha.
    + intros H. rewrite Hsent. specialize (He H).
      split; [apply Hclosed |]; by rewrite He.
    + intros w H Hw. rewrite Hsent. specialize (Hp w H Hw).
      split; [apply Hq |]; by rewrite Hp.
  - intros Hnone. destruct (w_closed r) eqn:Er.
    + destruct (Hwhy eq_refl) as (i & x & Hw & Hx & He).
      exists i, x. done.
    + destruct (Hkept eq_refl) as (c' & Hc' & _). congruence.
  - intros c' Hc'. destruct (w_closed r) eqn:Er.
    + rewrite (Hclosed eq_refl) in Hc'. done.
    + destruct (Hkept eq_refl) as (c2 & Hc2 & Ho & Hi & Hf).
      rewrite Hc2 in Hc'. injection Hc' as <-.
      rewrite Hsent, Ho. done.
  - exact Hrest.
Qed.

End WritePath.

Lemma on_writable_resumes_witness :
  let c := mkConn 5 "x" ["abc" +:+ NL; "de" +:+ NL] true in
  let s := set_conns {[ 5 := c ]} (init ∅) in
  let ws := fun k => match k with O => WrOk 4 | 1%nat => WrOk 1 | _ => WrAgain end in
  conns s !! 5 = Some c /\
  whole_writes (outq c) ws 1 /\
  outq <$> conns (fst (on_writable 5 ws s)) !! 5 = Some ["e" +:+ NL] /\
  snd (on_writable 5 ws s) = "abc" +:+ NL +:+ "d".
Proof.
  intros c s ws.
  assert (H : conns s !! 5 = Some c) by reflexivity.
  assert (Hw : whole_writes (outq c) ws 1).
  { intros i x Hi Hx. assert (i = O) by lia. subst i.
    injection Hx as <-. exists 4%nat. split; [reflexivity | vm_compute; lia]. }
  assert (Hl : (1 < String.length ("de" +:+ NL))%nat) by (vm_compute; lia).
  split; [exact H |]. split; [exact Hw |].
  exact (proj2 (proj2 (proj1 (proj2 (on_writable_resumes 5 ws s c 1 H Hw))
                         ("de" +:+ NL) eq_refl)) 1%nat eq_refl Hl).
Defined.

(** * Connections along a run *)

Section ConnsOk.

Variable h : option Z.

Lemma okx_same (s s' : Server) :
  conns s' = conns s -> conns_okx h s -> conns_okx h s'.
Proof. intros E H k c. rewrite E. apply H. Qed.

Lemma okx_insert (k : Z) (c' : Conn) (s s' : Server) :
  conns s' = <[k := c']> (conns s) ->
  fd c' = k -> (outq c' <> [] -> want_write c' = true \/ h = Some k) ->
  conns_okx h s -> conns_okx h s'.
Proof.
  intros E Hf Hw H j c. rewrite E.
  destruct (decide (k = j)) as [<- | Hne].
  - rewrite lookup_insert_eq. by intros [= <-].
  - rewrite lookup_insert_ne by done. apply H.
Qed.

Lemma okx_delete (k : Z) (s s' : Server) :
  conns s' = delete k (conns s) -> conns_okx h s -> conns_okx h s'.
Proof.
  intros E H j c. rewrite E. intros [_ Hj]%lookup_delete_Some. by apply H.
Qed.

Lemma okx_queued (cfd : Z) (x : string) (s : Server) :
  conns_okx h s -> conns_okx h (enable_write cfd true (push_out cfd x s)).
Proof.
  intros H. destruct (conns s !! cfd) as [c|] eqn:E.
  - rewrite (enable_write_push_out cfd s c x E).
    eapply okx_insert; [reflexivity | | by left | exact H].
    cbn [fd]. by apply (H cfd c).
  - apply (okx_same s); [| exact H].
    unfold enable_write, push_out. cbn [conns set_conns].
    rewrite lookup_alter_eq, E. cbn. by rewrite alter_id'.
Qed.

Lemma okx_on_line (cfd : Z) (line : string) (s s' : Server) :
  on_line cfd line s = Ret s' -> conns_okx h s -> conns_okx h s'.
Proof.
  unfold on_line. destruct (empty (trim_newline line)); [by intros [= <-] |].
  destruct (Z.of_nat (size (pending s)) >? MAX_PENDING).
  - intros [= <-]. apply okx_queued.
  - cbn [next_corr_id make_shared_Pending set_slots slots pending conns
         corr_counter pool].
    destruct (submit _ (pool s)) as [pl|e]; [| done].
    intros [= <-]. by apply okx_same.
Qed.

Lemma conns_dispatch (data : list byte) (s : Server) :
  conns (dispatch data s) = conns s.
Proof.
  by destruct (dispatch_cases data s) as [H | (h0 & pl & p0 & _ & _ & _ & H)];
    rewrite H.
Qed.

Lemma conns_worker_send (q : PosixMq) (os : nat -> os_send) (t : Task) (s : Server) :
  conns (snd (worker_send q os t s)) = conns s.
Proof.
  rewrite worker_send_eq.
  by destruct (send_retry q _ os 1000 0) as [[[[|]|e] calls] slept].
Qed.

Lemma conns_worker_wait (t : Task) (s : Server) :
  conns (worker_wait t s) = conns s.
Proof.
  unfold worker_wait. destruct (slots s !! t_pend t) as [p|]; [| done].
  by destruct (done p).
Qed.

Lemma okx_worker_reply (t : Task) (s : Server) :
  conns_okx h s -> conns_okx h (worker_reply t s).
Proof.
  intros H. unfold worker_reply. destruct (slots s !! t_pend t) as [p|]; [| done].
  destruct (conns s !! t_fd t); [| done]. by apply okx_queued.
Qed.

Lemma okx_step (s s' : Server) (ev : event) :
  step s ev s' -> conns_okx h s -> conns_okx h s'.
Proof.
  intros Hstep H.
  inversion Hstep as [cfd line s0 s0' Hl | data s0 | t os s0 | t s0 | t s0]; subst.
  - by apply (okx_on_line _ _ _ _ Hl).
  - apply (okx_same s); [apply conns_dispatch | exact H].
  - apply (okx_same s); [apply conns_worker_send | exact H].
  - apply (okx_same s); [apply conns_worker_wait | exact H].
  - by apply okx_worker_reply.
Qed.

Lemma okx_line_loop (cfd : Z) (fuel : nat) (s s' : Server) :
  line_loop fuel cfd s = Some (Ret s') -> conns_okx h s -> conns_okx h s'.
Proof.
  revert s. induction fuel as [|g IH]; intros s H Hok; [done |].
  cbn [line_loop] in H. destruct (conns s !! cfd) as [c|] eqn:Ec;
    [| by injection H as <-].
  destruct (take_line (inbuf c)) as [[line rest]|]; [| by injection H as <-].
  match type of H with context [on_line cfd line ?x] => set (s1 := x) in * end.
  destruct (on_line cfd line s1) as [s2|e] eqn:Eo; [| done].
  apply (IH s2 H). apply (okx_on_line _ _ _ _ Eo).
  destruct (Hok cfd c Ec) as [Hf Hw].
  eapply okx_insert; [reflexivity | exact Hf | exact Hw | exact Hok].
Qed.

Lemma okx_append_inbuf (cfd : Z) (data : string) (s : Server) :
  conns_okx h s -> conns_okx h (append_inbuf cfd data s).
Proof.
  intros H. destruct (conns s !! cfd) as [c|] eqn:E.
  - destruct (H cfd c E) as [Hf Hw].
    apply (okx_insert cfd
             {| fd := fd c; inbuf := inbuf c +:+ data; outq := outq c;
                want_write := want_write c |} s); [| done | done | exact H].
    unfold append_inbuf. cbn [conns set_conns].
    by rewrite (alter_alt_Some _ (conns s) cfd c E).
  - by rewrite append_inbuf_absent.
Qed.

Lemma okx_feed (cfd : Z) (data : string) (s s' : Server) :
  feed cfd data s = Some (Ret s') -> conns_okx h s -> conns_okx h s'.
Proof.
  unfold feed. intros H Hok.
  pose proof (okx_append_inbuf cfd data s Hok) as Hok1.
  destruct (conns (append_inbuf cfd data s) !! cfd); [| by injection H as <-].
  by apply (okx_line_loop _ _ _ _ H).
Qed.

Lemma okx_on_readable (cfd : Z) (chunks : list string) (fin : read_end)
    (s s' : Server) :
  on_readable cfd chunks fin s = Some (Ret s') -> conns_okx h s -> conns_okx h s'.
Proof.
  revert s. induction chunks as [|data rest IH]; intros s H Hok.
  - cbn in H. destruct fin; injection H as <-; try done;
      by apply (okx_delete cfd s).
  - cbn [on_readable] in H. destruct (feed cfd data s) as [[s1|e]|] eqn:E; try done.
    apply (IH s1 H). by apply (okx_feed _ _ _ _ E).
Qed.

Lemma write_loop_nonempty (q : list string) (ws : nat -> os_write) (k : nat) :
  w_outq (write_loop q ws k) <> [] -> q <> [].
Proof. by destruct q. Qed.

Lemma okx_on_writable (cfd : Z) (ws : nat -> os_write) (s : Server) :
  conns_okx h s -> conns_okx h (fst (on_writable cfd ws s)).
Proof.
  intros Hok. unfold on_writable. destruct (conns s !! cfd) as [c|] eqn:Ec; [| done].
  destruct (Hok cfd c Ec) as [Hf Hw].
  pose proof (write_loop_nonempty (outq c) ws 0) as Hne.
  destruct (write_loop (outq c) ws 0) as [q' closed snt].
  cbn [w_outq w_closed w_sent] in *. destruct closed; cbn [fst].
  - by apply (okx_delete cfd s).
  - destruct q' as [|x q'].
    + unfold enable_write. cbn [conns set_conns]. rewrite lookup_insert_eq.
      cbn [fd inbuf outq].
      apply (okx_insert cfd (mkConn (fd c) (inbuf c) [] false) s);
        [| done | done | exact Hok].
      cbn [conns set_conns]. by rewrite insert_insert_eq.
    + eapply okx_insert; [reflexivity | exact Hf | | exact Hok].
      cbn [outq want_write]. intros _. apply Hw, Hne. done.
Qed.

Lemma okx_io_step (s s' : Server) (ev : io_event) :
  io_step s ev s' -> conns_okx h s -> conns_okx h s'.
Proof.
  intros Hstep Hok. inversion Hstep; subst.
  - by eapply okx_step.
  - unfold accept_conn. destruct (conns s !! cfd); [done |].
    eapply okx_insert; [reflexivity | done | done | exact Hok].
  - by apply (okx_delete cfd s).
  - by apply okx_on_writable.
  - by eapply okx_on_readable.
Qed.

End ConnsOk.

Section WriteInterest.


Lemma conns_ok_okx (s : Server) : conns_ok s <-> conns_okx None s.
Proof.
  split; intros H k c Hc; destruct (H k c Hc) as [Hf Hw]; (split; [done |]).
  - intros Hq. left. by apply Hw.
  - intros Hq. by destruct (Hw Hq).
Qed.

(** With every handler and every reply taken as a whole, write interest
    is set wherever output is queued. *)
Lemma conns_ok_io_run (evs : list io_event) (s : Server) :
  io_run (init ∅) evs s -> conns_ok s.
Proof.
  assert (Hgen : forall s0 s1, io_run s0 evs s1 ->
                   conns_okx None s0 -> conns_okx None s1).
  { induction evs as [|ev evs IH]; intros s0 s1 Hrun Hok.
    - inversion Hrun; by subst.
    - inversion Hrun as [| ? ? sm ? ? Hst Hrest]; subst.
      apply (IH sm s1 Hrest). by apply (okx_io_step _ _ _ _ Hst). }
  intros Hrun. apply conns_ok_okx, (Hgen _ _ Hrun).
  intros k c H. cbn in H. by rewrite lookup_empty in H.
Qed.

(** The two halves of a reply, one after the other, are the reply. *)
Lemma reply_push_enable (t : Task) (s : Server) :
  worker_reply t s =
  match snd (reply_push t s) with
  | Some cfd => enable_write cfd true (fst (reply_push t s))
  | None => fst (reply_push t s)
  end.
Proof.
  unfold worker_reply, reply_push. destruct (slots s !! t_pend t); [| done].
  by destruct (conns s !! t_fd t).
Qed.

(** The reply of [io_step] is the push and the [enable_write] taken with
    nothing in between. *)
Lemma ov_reply_whole (t : Task) (s : Server) (l : loop_pc) :
  exists evs,
    ov_run {| srv := s; loop := l; holder := None |} evs
           {| srv := worker_reply t s; loop := l; holder := None |}.
Proof.
  rewrite reply_push_enable.
  destruct (snd (reply_push t s)) as [cfd|] eqn:E.
  - exists [OvPush t; OvEnable].
    eapply ov_run_cons; [by apply ov_push |].
    eapply ov_run_cons; [by apply (ov_enable cfd) |].
    cbn [srv loop holder]. apply ov_run_nil.
  - exists [OvPush t].
    eapply ov_run_cons; [by apply ov_push |].
    cbn [srv loop holder]. rewrite E. apply ov_run_nil.
Qed.

Lemma set_conns_id (s : Server) : set_conns (conns s) s = s.
Proof. by destruct s. Qed.

(** The rounds of the write loop from the [k]-th call of [write] on, the
    test after the loop and the call of [enable_write], with nothing in
    between, leave what [on_writable] leaves. *)
Lemma ov_loop_whole (cfd : Z) (ws : nat -> os_write) (h : option Z)
    (q : list string) :
  forall (k : nat) (s : Server) (c : Conn),
    conns s !! cfd = Some c -> outq c = q ->
    exists evs,
      ov_run {| srv := s; loop := AtLoop cfd; holder := h |} evs
        {| srv :=
             (let r := write_loop q ws k in
              if w_closed r then close_conn cfd s
              else
                let s1 := set_conns
                            (<[cfd := {| fd := fd c; inbuf := inbuf c;
                                         outq := w_outq r;
                                         want_write := want_write c |}]>
                               (conns s)) s in
                match w_outq r with
                | [] => enable_write cfd false s1
                | _ :: _ => s1
                end);
           loop := Idle; holder := h |}.
Proof.
  induction q as [|x rest IH]; intros k s c Hc Hq.
  - assert (He : found_empty cfd s = true) by (unfold found_empty; by rewrite Hc, Hq).
    exists [OvLoopEnd; OvFind; OvDisable].
    eapply ov_run_cons; [by apply (ov_loop_end cfd) |].
    eapply ov_run_cons; [by apply (ov_find cfd) |].
    cbn [srv loop holder]. rewrite He.
    eapply ov_run_cons; [by apply (ov_disable cfd) |].
    cbn [srv loop holder write_loop w_closed w_outq].
    rewrite <- Hq.
    replace {| fd := fd c; inbuf := inbuf c; outq := outq c;
               want_write := want_write c |} with c by (by destruct c).
    rewrite (insert_id _ _ _ Hc), set_conns_id. apply ov_run_nil.
  - assert (He : found_empty cfd s = false) by (unfold found_empty; by rewrite Hc, Hq).
    cbn [write_loop]. destruct (ws k) as [w| |] eqn:Ew.
    + destruct (w <? String.length x)%nat eqn:El.
      * exists [OvRound (WrOk w); OvFind].
        eapply ov_run_cons; [by apply (ov_round cfd) |].
        cbn [srv loop holder]. unfold write_round. rewrite Hc, Hq, El.
        cbn [fst snd srv loop holder].
        eapply ov_run_cons; [by apply (ov_find cfd) |].
        cbn [srv loop holder w_closed w_outq].
        unfold found_empty. cbn [conns set_conns]. rewrite lookup_insert_eq.
        cbn [outq]. apply ov_run_nil.
      * set (c' := {| fd := fd c; inbuf := inbuf c; outq := rest;
                      want_write := want_write c |}).
        set (s' := set_conns (<[cfd := c']> (conns s)) s).
        destruct (IH (S k) s' c') as [evs Hrun].
        { unfold s'. cbn [conns set_conns]. apply lookup_insert_eq. }
        { done. }
        exists (OvRound (WrOk w) :: evs).
        eapply ov_run_cons; [by apply (ov_round cfd) |].
        cbn [srv loop holder]. unfold write_round. rewrite Hc, Hq, El.
        cbn [fst snd srv loop holder].
        fold c'. fold s'.
        cbn [w_closed w_outq] in *.
        replace (close_conn cfd s) with (close_conn cfd s').
        2:{ unfold close_conn, s'. cbn [conns set_conns].
            by rewrite delete_insert_eq. }
        replace (set_conns
                   (<[cfd := {| fd := fd c; inbuf := inbuf c;
                                outq := w_outq (write_loop rest ws (S k));
                                want_write := want_write c |}]> (conns s)) s)
          with (set_conns
                  (<[cfd := {| fd := fd c'; inbuf := inbuf c';
                               outq := w_outq (write_loop rest ws (S k));
                               want_write := want_write c' |}]> (conns s')) s').
        2:{ unfold s'. cbn [conns set_conns fd inbuf want_write c'].
            by rewrite insert_insert_eq. }
        exact Hrun.
    + exists [OvRound WrAgain; OvFind].
      eapply ov_run_cons; [by apply (ov_round cfd) |].
      cbn [srv loop holder]. unfold write_round. rewrite Hc, Hq.
      cbn [fst snd srv loop holder].
      eapply ov_run_cons; [by apply (ov_find cfd) |].
      cbn [srv loop holder w_closed w_outq]. rewrite He.
      rewrite <- Hq.
      replace {| fd := fd c; inbuf := inbuf c; outq := outq c;
                 want_write := want_write c |} with c by (by destruct c).
      rewrite (insert_id _ _ _ Hc), set_conns_id. apply ov_run_nil.
    + exists [OvRound WrErr; OvFind].
      eapply ov_run_cons; [by apply (ov_round cfd) |].
      cbn [srv loop holder]. unfold write_round. rewrite Hc, Hq.
      cbn [fst snd srv loop holder].
      eapply ov_run_cons; [by apply (ov_find cfd) |].
      cbn [srv loop holder w_closed w_outq].
      unfold found_empty, close_conn. cbn [conns set_conns].
      rewrite lookup_delete_eq. apply ov_run_nil.
Qed.

(** The write handler of [io_step], entered with write interest set, is
    the rounds of the loop, the test and the call taken with nothing in
    between. *)
Lemma ov_writable_whole (cfd : Z) (ws : nat -> os_write) (h : option Z)
    (s : Server) (c : Conn) :
  conns s !! cfd = Some c -> want_write c = true ->
  exists evs,
    ov_run {| srv := s; loop := Idle; holder := h |} evs
           {| srv := fst (on_writable cfd ws s); loop := Idle; holder := h |}.
Proof.
  intros Hc Hw.
  destruct (ov_loop_whole cfd ws h (outq c) 0 s c Hc eq_refl) as [evs Hrun].
  exists (OvWritable cfd :: evs).
  eapply ov_run_cons; [by apply (ov_writable cfd c) |].
  cbn [srv loop holder]. unfold on_writable. rewrite Hc.
  cbn zeta in Hrun.
  destruct (w_closed (write_loop (outq c) ws 0)); [exact Hrun |].
  cbn [fst]. by destruct (w_outq (write_loop (outq c) ws 0)).
Qed.






End WriteInterest.


(** * Correlation ids along a run *)

Section IdsInOrder.

Lemma pool_dispatch (data : list byte) (s : Server) : pool (dispatch data s) = pool s.
Proof.
  by destruct (dispatch_cases data s) as [H | (h & pl & p0 & _ & _ & _ & H)];
    rewrite H.
Qed.

Lemma pool_worker_send (q : PosixMq) (os : nat -> os_send) (t : Task) (s : Server) :
  pool (snd (worker_send q os t s)) = pool s.
Proof.
  rewrite worker_send_eq.
  by destruct (send_retry q _ os 1000 0) as [[[[|]|e] calls] slept].
Qed.

Lemma pool_worker_wait (t : Task) (s : Server) : pool (worker_wait t s) = pool s.
Proof.
  unfold worker_wait. destruct (slots s !! t_pend t) as [p|]; [| done].
  by destruct (done p).
Qed.

Lemma pool_worker_reply (t : Task) (s : Server) : pool (worker_reply t s) = pool s.
Proof.
  unfold worker_reply. destruct (slots s !! t_pend t) as [p|]; [| done].
  destruct (conns s !! t_fd t); [| done].
  unfold enable_write, push_out. cbn [conns set_conns].
  by destruct (alter _ (t_fd t) (conns s) !! t_fd t).
Qed.

(** The ids handed out so far are 1, 2, ... in the order of the tasks, and
    the counter is the next one. *)
Lemma ids_in_order_step (s s' : Server) (ev : event) :
  step s ev s' ->
  corr_counter s + 1 < 2 ^ 64 ->
  corr_counter s = Z.of_nat (length (q_ (pool s))) + 1 ->
  t_corr <$> q_ (pool s) = Z.of_nat <$> seq 1 (length (q_ (pool s))) ->
  corr_counter s' = Z.of_nat (length (q_ (pool s'))) + 1 /\
  t_corr <$> q_ (pool s') = Z.of_nat <$> seq 1 (length (q_ (pool s'))) /\
  (length (q_ (pool s')) <= S (length (q_ (pool s))))%nat.
Proof.
  intros Hstep Hmax Hc Hq.
  inversion Hstep as [cfd line s0 s0' Hl | data s0 | t os s0 | t s0 | t s0]; subst.
  - unfold on_line in Hl.
    destruct (empty (trim_newline line)); [injection Hl as <-; split; [done | split; [done | lia]] |].
    destruct (Z.of_nat (size (pending s)) >? MAX_PENDING).
    + injection Hl as <-.
      assert (Hp : pool (enable_write cfd true (push_out cfd BUSY_LINE s)) = pool s
                   /\ corr_counter (enable_write cfd true (push_out cfd BUSY_LINE s))
                      = corr_counter s).
      { unfold enable_write, push_out. cbn [conns set_conns].
        by destruct (alter _ cfd (conns s) !! cfd). }
      destruct Hp as [-> ->]. split; [done | split; [done | lia]].
    + cbn [next_corr_id make_shared_Pending set_slots slots pending conns
           corr_counter pool] in Hl.
      unfold submit in Hl. destruct (stop_ (pool s)); [done |].
      injection Hl as <-. cbn [pool corr_counter q_].
      rewrite length_app, fmap_app, Hq. cbn [length fmap list_fmap t_corr].
      rewrite Nat.add_1_r, seq_S, fmap_app. cbn [fmap list_fmap].
      unfold wrap64. rewrite Z.mod_small by lia.
      split; [lia |]. split; [| lia]. do 2 f_equal. lia.
  - rewrite pool_dispatch, corr_counter_dispatch. split; [done | split; [done | lia]].
  - rewrite pool_worker_send, corr_counter_worker_send.
    split; [done | split; [done | lia]].
  - rewrite pool_worker_wait, corr_counter_worker_wait.
    split; [done | split; [done | lia]].
  - rewrite pool_worker_reply, corr_counter_worker_reply.
    split; [done | split; [done | lia]].
Qed.

(** X10. Correlation ids are handed out in order without gaps: after any
    run of the server from its start that is shorter than the range of the
    64-bit counter, the tasks submitted so far carry, in the order of
    their submission, the ids 1, 2, 3, ...; the counter holds the next id;
    so the ids are distinct and strictly increasing, and every key of the
    pending table is one of them.  The actions of [step] run a task as an
    action of its own and leave the queue as it is, so [q_] holds every
    task submitted in the run. *)
Theorem ids_in_order (c0 : gmap Z Conn) (evs : list event) (s : Server) :
  run (init c0) evs s ->
  Z.of_nat (length evs) + 2 < 2 ^ 64 ->
  t_corr <$> q_ (pool s) = Z.of_nat <$> seq 1 (length (q_ (pool s))) /\
  corr_counter s = Z.of_nat (length (q_ (pool s))) + 1 /\
  ids_allocated s.
Proof.
  assert (Hgen : forall s0 s1,
            run s0 evs s1 ->
            Z.of_nat (length (q_ (pool s0))) + Z.of_nat (length evs) + 2 < 2 ^ 64 ->
            corr_counter s0 = Z.of_nat (length (q_ (pool s0))) + 1 ->
            t_corr <$> q_ (pool s0) = Z.of_nat <$> seq 1 (length (q_ (pool s0))) ->
            ids_allocated s0 ->
            t_corr <$> q_ (pool s1) = Z.of_nat <$> seq 1 (length (q_ (pool s1))) /\
            corr_counter s1 = Z.of_nat (length (q_ (pool s1))) + 1 /\
            ids_allocated s1).
  { induction evs as [|ev evs IH]; intros s0 s1 Hrun Hlen Hc Hq Hids.
    - inversion Hrun; by subst.
    - inversion Hrun as [| ? ? sm ? ? Hst Hrest]; subst.
      cbn [length] in Hlen.
      destruct (ids_in_order_step _ _ _ Hst) as (Hc' & Hq' & Hl'); [lia | done | done |].
      destruct (ids_allocated_step _ _ _ Hst) as [Hids' _]; [lia | lia | done |].
      apply (IH sm s1 Hrest); [lia | done | done | done]. }
  intros Hrun Hlen. apply (Hgen _ _ Hrun); [cbn; lia | done | done |].
  apply ids_allocated_init.
Qed.

End IdsInOrder.

Lemma ids_in_order_witness :
  let c0 : gmap Z Conn := {[ 5 := mkConn 5 EmptyString [] false ]} in
  let evs := [EvLine 5 ("a" +:+ NL); EvLine 5 NL; EvLine 5 ("b" +:+ NL)] in
  exists s, run (init c0) evs s /\
    Z.of_nat (length evs) + 2 < 2 ^ 64 /\
    t_corr <$> q_ (pool s) = Z.of_nat <$> seq 1 (length (q_ (pool s))) /\
    corr_counter s = Z.of_nat (length (q_ (pool s))) + 1.
Proof.
  intros c0 evs.
  assert (H : {s | run (init c0) evs s}).
  { eexists.
    eapply run_cons; [apply step_line; vm_compute; reflexivity |].
    eapply run_cons; [apply step_line; vm_compute; reflexivity |].
    eapply run_cons; [apply step_line; vm_compute; reflexivity |].
    apply run_nil. }
  destruct H as [s H].
  assert (Hlen : Z.of_nat (length evs) + 2 < 2 ^ 64) by reflexivity.
  exists s. split; [exact H |]. split; [exact Hlen |].
  destruct (ids_in_order c0 evs s H Hlen) as (H1 & H2 & _).
  split; [exact H1 | exact H2].
Defined.

(** * Frames of the wrong kind *)

Section WrongKind.

(** The type field of a packed frame, whatever the other fields hold. *)
Lemma type_pack (t : MsgType) (c : Z) (p : string) :
  type (hdr_of_bytes (pack t c p)) = msgtype_code t.
Proof.
  unfold pack, hdr_of_bytes, hdr_bytes. cbn [type magic version corr_id payload_len reserved].
  set (d := (_ ++ _) ++ _).
  change (take 2 (drop 6 d)) with (le_bytes 2 (msgtype_code t)).
  rewrite le_value_bytes; [done |]. destruct t; cbn; lia.
Qed.

Lemma handle_Some (data out : list byte) (t0 t1 : Z) :
  handle data t0 t1 = Some out ->
  exists h payload, unpack data = Some (h, payload) /\
                    type h = msgtype_code RouteReq /\
                    out = pack RouteResp (corr_id h) (response h payload t0 t1).
Proof.
  unfold handle. destruct (Z.of_nat (length data) <=? 0); [done |].
  destruct (unpack data) as [[h payload]|]; [| done].
  destruct (type h =? msgtype_code RouteReq) eqn:E; [| done].
  apply Z.eqb_eq in E. intros [= <-]. by exists h, payload.
Qed.

(** X11. The two sides act only on frames of their own kind.  The engine
    answers a message only when [unpack] accepts it and its type is
    RouteReq; the dispatcher changes the server only when [unpack] accepts
    the message, its type is RouteResp and its id is in the pending table.
    In particular a packed RouteResp frame is never answered by the engine,
    and a packed RouteReq frame never completes a slot. *)
Theorem wrong_kind_dropped (data : list byte) (t0 t1 : Z) (s : Server) :
  (handle data t0 t1 <> None ->
   exists h payload, unpack data = Some (h, payload) /\
                     type h = msgtype_code RouteReq) /\
  (dispatch data s <> s ->
   exists h payload, unpack data = Some (h, payload) /\
                     type h = msgtype_code RouteResp /\
                     is_Some (pending s !! corr_id h)) /\
  (forall c p, handle (pack RouteResp c p) t0 t1 = None) /\
  (forall c p, dispatch (pack RouteReq c p) s = s).
Proof.
  split; [| split; [| split]].
  - destruct (handle data t0 t1) as [out|] eqn:E; [| done]. intros _.
    apply handle_Some in E as (h & payload & Hu & Ht & _). by exists h, payload.
  - intros Hne.
    destruct (dispatch_cases data s) as [H | (h & pl & p0 & Hu & Ht & Hp & _)];
      [done |]. exists h, pl. by rewrite Hp.
  - intros c p. destruct (handle (pack RouteResp c p) t0 t1) as [out|] eqn:E; [| done].
    apply handle_Some in E as (h & payload & Hu & Ht & _).
    apply unpack_hdr in Hu. rewrite Hu, type_pack in Ht. done.
  - intros c p. apply dispatch_dropped. intros h payload Hu.
    apply unpack_hdr in Hu. rewrite Hu, type_pack. done.
Qed.

End WrongKind.

(** * A request from line to response line *)

Section RoundTrip.

Lemma send_retry_first (q : PosixMq) (len : Z) (os : nat -> os_send) (n k : nat) :
  is_open q = true -> 0 <= msgsize (cfg_ q) < 2 ^ 63 ->
  len <= msgsize (cfg_ q) -> os k = OsOk ->
  send_retry q len os (S n) k = (Ret true, 1%nat, 0).
Proof.
  intros Ho Hm Hl Hk. cbn [send_retry]. unfold send. rewrite Ho, Hk. cbn [negb].
  rewrite (size_t_of_long_id _ Hm).
  assert (E : (len >? msgsize (cfg_ q)) = false)
    by (rewrite Z.gtb_ltb; apply Z.ltb_ge; lia).
  by rewrite E.
Qed.

Variables (cfd : Z) (line : string) (s : Server) (c : Conn) (t0 t1 : Z)
          (os : nat -> os_send).

(** X12. One request from end to end, when nothing is slow or full.  For
    a request line accepted on a connection (pending table at or under the
    ceiling), with the request frame and the response frame within the
    message size of the queues and the kernel taking both at the first
    attempt: the event loop submits to the pool the task made of the
    descriptor, the id taken from the counter, the new slot and the trimmed
    line; the send part of that task leaves on the request queue one
    message, the RouteReq frame packed from the trimmed line under that id,
    and leaves the server as it is; the engine, given the message on the
    request queue, puts on the response queue the RouteResp frame with the
    same id; the dispatcher, given the message on the response queue,
    completes the slot of the request with the engine's payload and removes
    the entry, so the pending table is as before the request; and the
    worker appends that payload and a newline to the output queue of the
    connection the line came from, with write interest set. *)
Theorem request_round_trip :
  conns s !! cfd = Some c ->
  empty (trim_newline line) = false ->
  stop_ (pool s) = false ->
  ids_allocated s ->
  0 <= corr_counter s < 2 ^ 64 ->
  Z.of_nat (size (pending s)) <= MAX_PENDING ->
  os O = OsOk ->
  let req := trim_newline line in
  let corr := corr_counter s in
  let pend := fresh (dom (slots s)) in
  let t := {| t_fd := cfd; t_corr := corr; t_pend := pend; t_req := req |} in
  let h := {| magic := MAGIC; version := 1; type := msgtype_code RouteReq;
              corr_id := corr; payload_len := Z.of_nat (String.length req);
              reserved := 0 |} in
  let body := response h req t0 t1 in
  Z.of_nat HDR_SIZE + Z.of_nat (String.length req) <= msgsize (cfg_ mq_req) ->
  Z.of_nat HDR_SIZE + Z.of_nat (String.length body) <= msgsize (cfg_ mq_resp) ->
  exists s1 on_req_queue on_resp_queue,
    on_line cfd line s = Ret s1 /\
    q_ (pool s1) = q_ (pool s) ++ [t] /\
    worker_send_io mq_req os t s1 = (Ret tt, s1, [on_req_queue]) /\
    on_req_queue = pack RouteReq corr req /\
    engine_round on_req_queue t0 t1 OsOk = Some on_resp_queue /\
    on_resp_queue = pack RouteResp corr body /\
    pending (dispatch on_resp_queue s1) = pending s /\
    slots (dispatch on_resp_queue s1) !! pend
      = Some {| done := true; resp := body |} /\
    conns (worker_reply t (worker_wait t (dispatch on_resp_queue s1))) !! cfd
      = Some {| fd := fd c; inbuf := inbuf c;
                outq := outq c ++ [body +:+ NL]; want_write := true |}.
Proof.
  intros Hc Hne Hstop Hids Hrange Hsmall Hos req corr pend t h body Hreq Hbody.
  unfold HDR_SIZE in Hreq, Hbody. cbn [mq_req mq_resp cfg_ msgsize] in Hreq, Hbody.
  assert (Hfresh : pending s !! corr = None).
  { destruct (pending s !! corr) as [l|] eqn:El; [| done].
    apply Hids in El. unfold corr in El. lia. }
  assert (Hnew : slots s !! pend = None) by (apply not_elem_of_dom, is_fresh).
  pose proof (on_line_accept cfd line s Hne Hstop Hfresh Hsmall) as Hline.
  eexists. exists (pack RouteReq corr req), (pack RouteResp corr body).
  split; [exact Hline |].
  match type of Hline with _ = Ret ?x => set (s1 := x) in * end.
  split; [reflexivity |].
  split; [| split; [reflexivity | split; [| split; [reflexivity | split; [| split]]]]].
  - unfold worker_send_io. cbn [t_corr t_req t t_pend].
    change 1000%nat with (S 999).
    rewrite send_retry_first; [done | done | | | exact Hos].
    + cbn [mq_req cfg_ msgsize]. lia.
    + rewrite length_pack. cbn [mq_req cfg_ msgsize]. lia.
  - unfold engine_round.
    assert (Hu : unpack (pack RouteReq corr req) = Some (h, req))
      by (apply unpack_pack_gen; lia).
    rewrite (handle_route_req _ h req t0 t1 Hu eq_refl).
    cbn [corr_id h]. fold body. unfold send. cbn [mq_resp is_open negb cfg_ msgsize].
    change (size_t_of_long 8192) with 8192.
    rewrite length_pack.
    assert (E : (24 + Z.of_nat (String.length body) >? 8192) = false)
      by (rewrite Z.gtb_ltb; apply Z.ltb_ge; lia).
    by rewrite E.
  - assert (Hu : unpack (pack RouteResp corr body) = Some
             ({| magic := MAGIC; version := 1; type := msgtype_code RouteResp;
                 corr_id := corr; payload_len := Z.of_nat (String.length body);
                 reserved := 0 |}, body))
      by (apply unpack_pack_gen; lia).
    rewrite (dispatch_resp _ _ _ s1 Hu eq_refl). cbn [corr_id pending s1].
    rewrite lookup_insert_eq, pending_complete. cbn [pending].
    by apply delete_insert_id.
  - assert (Hu : unpack (pack RouteResp corr body) = Some
             ({| magic := MAGIC; version := 1; type := msgtype_code RouteResp;
                 corr_id := corr; payload_len := Z.of_nat (String.length body);
                 reserved := 0 |}, body))
      by (apply unpack_pack_gen; lia).
    rewrite (dispatch_resp _ _ _ s1 Hu eq_refl). cbn [corr_id pending s1].
    rewrite lookup_insert_eq.
    eapply complete_lookup. cbn [slots]. apply lookup_insert_eq.
  - assert (Hu : unpack (pack RouteResp corr body) = Some
             ({| magic := MAGIC; version := 1; type := msgtype_code RouteResp;
                 corr_id := corr; payload_len := Z.of_nat (String.length body);
                 reserved := 0 |}, body))
      by (apply unpack_pack_gen; lia).
    set (s2 := dispatch _ s1).
    assert (Hslot : slots s2 !! pend = Some {| done := true; resp := body |}).
    { unfold s2. rewrite (dispatch_resp _ _ _ s1 Hu eq_refl). cbn [corr_id pending s1].
      rewrite lookup_insert_eq.
      eapply complete_lookup. cbn [slots]. apply lookup_insert_eq. }
    assert (Hconn : conns s2 !! cfd = Some c).
    { unfold s2. by rewrite conns_dispatch. }
    assert (Hw : worker_wait t s2 = s2).
    { unfold worker_wait. cbn [t_pend t]. by rewrite Hslot. }
    rewrite Hw.
    exact (worker_reply_conn t s2 _ c Hslot Hconn).
Qed.

End RoundTrip.

Lemma request_round_trip_witness :
  let c := mkConn 5 EmptyString [] false in
  let s := init {[ 5 := c ]} in
  let line := "{" +:+ jq "msisdn" +:+ ":" +:+ jq "+14085551234" +:+ "}" +:+ CR +:+ NL in
  let req := trim_newline line in
  let t := {| t_fd := 5; t_corr := 1; t_pend := fresh (dom (slots s)); t_req := req |} in
  let h := {| magic := MAGIC; version := 1; type := msgtype_code RouteReq;
              corr_id := 1; payload_len := Z.of_nat (String.length req);
              reserved := 0 |} in
  let body := response h req 100 103 in
  Z.of_nat HDR_SIZE + Z.of_nat (String.length req) <= msgsize (cfg_ mq_req) /\
  Z.of_nat HDR_SIZE + Z.of_nat (String.length body) <= msgsize (cfg_ mq_resp) /\
  exists s1 on_req_queue on_resp_queue,
    on_line 5 line s = Ret s1 /\
    q_ (pool s1) = q_ (pool s) ++ [t] /\
    worker_send_io mq_req (fun _ => OsOk) t s1 = (Ret tt, s1, [on_req_queue]) /\
    on_req_queue = pack RouteReq 1 req /\
    engine_round on_req_queue 100 103 OsOk = Some on_resp_queue /\
    on_resp_queue = pack RouteResp 1 body /\
    pending (dispatch on_resp_queue s1) = pending s /\
    slots (dispatch on_resp_queue s1) !! fresh (dom (slots s))
      = Some {| done := true; resp := body |} /\
    conns (worker_reply t (worker_wait t (dispatch on_resp_queue s1))) !! 5
      = Some {| fd := 5; inbuf := EmptyString;
                outq := [] ++ [body +:+ NL]; want_write := true |}.
Proof.
  intros c s line req t h body.
  assert (H1 : Z.of_nat HDR_SIZE + Z.of_nat (String.length req)
               <= msgsize (cfg_ mq_req)) by (vm_compute; discriminate).
  assert (H2 : Z.of_nat HDR_SIZE + Z.of_nat (String.length body)
               <= msgsize (cfg_ mq_resp)) by (vm_compute; discriminate).
  assert (H3 : 0 <= corr_counter s < 2 ^ 64) by (split; [discriminate | reflexivity]).
  assert (H4 : Z.of_nat (size (pending s)) <= MAX_PENDING) by (vm_compute; discriminate).
  split; [exact H1 |]. split; [exact H2 |].
  exact (request_round_trip 5 line s c 100 103 (fun _ => OsOk)
           eq_refl eq_refl eq_refl (ids_allocated_init _) H3 H4 eq_refl H1 H2).
Defined.

(** * The engine's answer *)

Section Answer.

Lemma response_found (h : MsgHdr) (payload : string) (t0 t1 : Z) (rec : AlrRecord) :
  lookup_msisdn (json_get_string payload "msisdn") = Some rec ->
  response h payload t0 t1 =
  ("{" +:+ jq "corr_id" +:+ ":" +:+ dec (corr_id h) +:+ "," +:+
   jq "op" +:+ ":" +:+
   jq (if empty (json_get_string payload "op") then "route"
       else json_get_string payload "op") +:+ "," +:+
   jq "msisdn" +:+ ":" +:+ jq (json_get_string payload "msisdn") +:+ ",") +:+
  (jq "status" +:+ ":" +:+ jq "OK" +:+ "," +:+
   jq "imsi" +:+ ":" +:+ jq (imsi rec) +:+ "," +:+
   jq "serving_msc" +:+ ":" +:+ jq (serving_msc rec) +:+ "," +:+
   jq "serving_vlr" +:+ ":" +:+ jq (serving_vlr rec) +:+ "," +:+
   jq "route_group" +:+ ":" +:+ jq (route_policy rec)) +:+
  "," +:+ jq "flx_latency_ms" +:+ ":" +:+ dec (wrap64 (t1 - t0)) +:+ "}".
Proof.
  intros H. unfold response. rewrite H.
  unfold jq. rewrite !string_app_assoc. reflexivity.
Qed.

End Answer.

Section AnswerFields.

Variables (h : MsgHdr) (payload : string) (t0 t1 : Z).

Lemma contains_mid (pre a p b post : string) :
  contains p (pre +:+ (a +:+ p +:+ b) +:+ post) = true.
Proof. apply contains_app_r, contains_app_l, contains_intro. Qed.

Lemma route_policy_cases (rec : AlrRecord) :
  (region rec = "US-EAST" /\ route_policy rec = "ROUTE_GROUP_EAST") \/
  (region rec = "US-SOUTH" /\ route_policy rec = "ROUTE_GROUP_SOUTH") \/
  (region rec <> "US-EAST" /\ region rec <> "US-SOUTH" /\
   route_policy rec = "ROUTE_GROUP_INTL").
Proof.
  unfold route_policy.
  destruct (String.eqb_spec (region rec) "US-EAST") as [-> | H1]; [by left |].
  destruct (String.eqb_spec (region rec) "US-SOUTH") as [-> | H2]; [by right; left |].
  by right; right.
Qed.

(** X13. What the engine answers.  The record fields are in the response
    exactly when the extracted msisdn is a key of the registry.  For such a
    subscriber the response holds status OK, the imsi, serving_msc and
    serving_vlr of its record, and the route group that [route_policy]
    chooses from the region of the record: EAST for US-EAST, SOUTH for
    US-SOUTH, INTL for every other region.  Every response ends with the
    latency field, the difference of the two clock readings as an unsigned
    64-bit number. *)
Theorem response_fields :
  let m := json_get_string payload "msisdn" in
  let body := response h payload t0 t1 in
  (In m seeded_keys <-> has_field "imsi" body = true) /\
  (forall rec, lookup_msisdn m = Some rec ->
     contains (jq "status" +:+ ":" +:+ jq "OK") body = true /\
     contains (jq "imsi" +:+ ":" +:+ jq (imsi rec)) body = true /\
     contains (jq "serving_msc" +:+ ":" +:+ jq (serving_msc rec)) body = true /\
     contains (jq "serving_vlr" +:+ ":" +:+ jq (serving_vlr rec)) body = true /\
     contains (jq "route_group" +:+ ":" +:+ jq (route_policy rec)) body = true /\
     ((region rec = "US-EAST" /\ route_policy rec = "ROUTE_GROUP_EAST") \/
      (region rec = "US-SOUTH" /\ route_policy rec = "ROUTE_GROUP_SOUTH") \/
      (region rec <> "US-EAST" /\ region rec <> "US-SOUTH" /\
       route_policy rec = "ROUTE_GROUP_INTL"))) /\
  (exists pre,
     body = pre +:+ "," +:+ jq "flx_latency_ms" +:+ ":" +:+
            dec (wrap64 (t1 - t0)) +:+ "}").
Proof.
  intros m body.
  assert (Hrec : forall rec, lookup_msisdn m = Some rec ->
            contains (jq "status" +:+ ":" +:+ jq "OK") body = true /\
            contains (jq "imsi" +:+ ":" +:+ jq (imsi rec)) body = true /\
            contains (jq "serving_msc" +:+ ":" +:+ jq (serving_msc rec)) body = true /\
            contains (jq "serving_vlr" +:+ ":" +:+ jq (serving_vlr rec)) body = true /\
            contains (jq "route_group" +:+ ":" +:+ jq (route_policy rec)) body = true).
  { intros rec Hl. unfold body. rewrite (response_found h payload t0 t1 rec Hl).
    set (st := jq "status" +:+ ":" +:+ jq "OK").
    set (f1 := jq "imsi" +:+ ":" +:+ jq (imsi rec)).
    set (f2 := jq "serving_msc" +:+ ":" +:+ jq (serving_msc rec)).
    set (f3 := jq "serving_vlr" +:+ ":" +:+ jq (serving_vlr rec)).
    set (f4 := jq "route_group" +:+ ":" +:+ jq (route_policy rec)).
    match goal with
    | |- context [?pre +:+ ?blk +:+ ?post] =>
        replace blk with (st +:+ "," +:+ f1 +:+ "," +:+ f2 +:+ "," +:+ f3 +:+ "," +:+ f4)
          by (unfold st, f1, f2, f3, f4; rewrite !string_app_assoc; reflexivity)
    end.
    repeat split.
    - apply (contains_mid _ EmptyString st
                ("," +:+ f1 +:+ "," +:+ f2 +:+ "," +:+ f3 +:+ "," +:+ f4)).
    - apply (contains_mid _ (st +:+ ",") f1 ("," +:+ f2 +:+ "," +:+ f3 +:+ "," +:+ f4)).
    - replace (st +:+ "," +:+ f1 +:+ "," +:+ f2 +:+ "," +:+ f3 +:+ "," +:+ f4)
        with ((st +:+ "," +:+ f1 +:+ ",") +:+ f2 +:+ ("," +:+ f3 +:+ "," +:+ f4))
        by (rewrite !string_app_assoc; reflexivity).
      apply contains_mid.
    - replace (st +:+ "," +:+ f1 +:+ "," +:+ f2 +:+ "," +:+ f3 +:+ "," +:+ f4)
        with ((st +:+ "," +:+ f1 +:+ "," +:+ f2 +:+ ",") +:+ f3 +:+ ("," +:+ f4))
        by (rewrite !string_app_assoc; reflexivity).
      apply contains_mid.
    - replace (st +:+ "," +:+ f1 +:+ "," +:+ f2 +:+ "," +:+ f3 +:+ "," +:+ f4)
        with ((st +:+ "," +:+ f1 +:+ "," +:+ f2 +:+ "," +:+ f3 +:+ ",") +:+ f4
              +:+ EmptyString)
        by (rewrite !string_app_assoc, append_empty_r; reflexivity).
      apply contains_mid. }
  split; [| split].
  - split.
    + intros Hin. destruct (lookup_seeded _ Hin) as [rec Hl].
      destruct (Hrec rec Hl) as (_ & H1 & _).
      unfold has_field. apply contains_split in H1 as (a & b & ->).
      replace (a +:+ (jq "imsi" +:+ ":" +:+ jq (imsi rec)) +:+ b)
        with (a +:+ (jq "imsi" +:+ ":") +:+ (jq (imsi rec) +:+ b))
        by (rewrite !string_app_assoc; reflexivity).
      apply contains_intro.
    + intros Hf. destruct (in_dec string_dec m seeded_keys) as [Hin | Hnin]; [done |].
      assert (Hno : lookup_msisdn m = None) by (apply lookup_unseeded; by right).
      unfold body in Hf. rewrite not_found_no_field in Hf by done. done.
  - intros rec Hl. destruct (Hrec rec Hl) as (H0 & H1 & H2 & H3 & H4).
    repeat (split; [assumption |]). apply route_policy_cases.
  - unfold body, response.
    match goal with
    | |- context [match ?x with Some _ => _ | None => _ end] =>
        set (mid := match x with Some rec => _ | None => _ end)
    end.
    eexists. rewrite <- !string_app_assoc. reflexivity.
Qed.

End AnswerFields.

(** * Extracting a string field *)

Section GetString.

Lemma index_skip (a : string) (n : nat) (p s : string) :
  index (String.length a + n) p (a +:+ s) =
  option_map (Nat.add (String.length a)) (index n p s).
Proof.
  induction a as [|c a IH].
  - change (EmptyString +:+ s) with s.
    change (String.length EmptyString + n)%nat with n.
    destruct (index n p s); reflexivity.
  - change (String c a +:+ s) with (String c (a +:+ s)).
    change (String.length (String c a) + n)%nat with (S (String.length a + n)).
    cbn [index]. rewrite IH. by destruct (index n p s).
Qed.

Lemma index_char_first (ch : ascii) (x r : string) :
  lacks ch x = true ->
  index 0 (String ch EmptyString) (x +:+ String ch r) = Some (String.length x).
Proof.
  unfold lacks. induction x as [|c x IH]; intros H.
  - change (EmptyString +:+ String ch r) with (String ch r).
    cbn [index String.prefix String.length].
    destruct (ascii_dec ch ch); [by destruct r | done].
  - cbn [list_ascii_of_string forallb] in H. apply andb_prop in H as [Hc Hx].
    apply negb_true_iff, Ascii.eqb_neq in Hc.
    change (String c x +:+ String ch r) with (String c (x +:+ String ch r)).
    cbn [index String.prefix]. destruct (ascii_dec ch c) as [E|_]; [congruence |].
    by rewrite (IH Hx).
Qed.

Lemma prefix_app_long (p x y : string) :
  (String.length p <= String.length x)%nat ->
  String.prefix p (x +:+ y) = String.prefix p x.
Proof.
  revert x. induction p as [|a p IH]; intros x H.
  { by destruct (x +:+ y), x. }
  destruct x as [|b x]; [cbn in H; lia |].
  change (String b x +:+ y) with (String b (x +:+ y)). cbn [String.prefix].
  destruct (ascii_dec a b); [| done]. apply IH. cbn in H. lia.
Qed.

Lemma index_key_first (key pre rest : string) :
  contains (jq key) (pre +:+ DQ +:+ key) = false ->
  index 0 (jq key) (pre +:+ jq key +:+ rest) = Some (String.length pre).
Proof.
  induction pre as [|c pre IH]; intros H.
  - change (EmptyString +:+ jq key +:+ rest) with (jq key +:+ rest).
    unfold jq at 2. change (DQ +:+ key +:+ DQ) with (String "034" (key +:+ DQ)).
    change (String "034" (key +:+ DQ) +:+ rest)
      with (String "034" ((key +:+ DQ) +:+ rest)).
    cbn [index].
    change (String "034" ((key +:+ DQ) +:+ rest)) with (jq key +:+ rest).
    by rewrite prefix_append.
  - change (String c pre +:+ DQ +:+ key) with (String c (pre +:+ DQ +:+ key)) in H.
    cbn [contains] in H. apply orb_false_elim in H as [Hp Hc].
    change (String c pre +:+ jq key +:+ rest)
      with (String c (pre +:+ jq key +:+ rest)).
    cbn [index].
    replace (String c (pre +:+ jq key +:+ rest))
      with (String c (pre +:+ DQ +:+ key) +:+ (DQ +:+ rest)).
    2:{ change (String c (pre +:+ DQ +:+ key) +:+ (DQ +:+ rest))
          with (String c ((pre +:+ DQ +:+ key) +:+ (DQ +:+ rest))).
        f_equal. unfold jq. by rewrite !string_app_assoc. }
    rewrite prefix_app_long, Hp.
    + replace (String c (pre +:+ DQ +:+ key) +:+ (DQ +:+ rest))
        with (String c (pre +:+ jq key +:+ rest)).
      * cbn [String.length]. by rewrite (IH Hc).
      * change (String c (pre +:+ DQ +:+ key) +:+ (DQ +:+ rest))
          with (String c ((pre +:+ DQ +:+ key) +:+ (DQ +:+ rest))).
        f_equal. unfold jq. by rewrite !string_app_assoc.
    + unfold jq. cbn [String.length]. rewrite !length_append. cbn. lia.
Qed.

Lemma index_absent (p s : string) :
  p <> EmptyString -> contains p s = false -> index 0 p s = None.
Proof.
  intros Hp. induction s as [|c s IH]; intros H.
  - by destruct p.
  - cbn [contains] in H. apply orb_false_elim in H as [H1 H2].
    cbn [index]. by rewrite H1, (IH H2).
Qed.

Lemma substring_prefix (v r : string) :
  substring 0 (String.length v) (v +:+ r) = v.
Proof.
  induction v as [|c v IH]; [apply substring_0_0 |].
  change (String c (substring 0 (String.length v) (v +:+ r)) = String c v).
  by f_equal.
Qed.

Lemma substring_at (a v r : string) :
  substring (String.length a) (String.length v) (a +:+ v +:+ r) = v.
Proof.
  induction a as [|c a IH]; [exact (substring_prefix v r) |]. exact IH.
Qed.

(** X14. What [json_get_string] extracts.  When the key does not occur in
    quotes anywhere in the text, the result is empty.  When the first
    occurrence of the quoted key is followed by text without a colon, a
    colon, text without a quote, and a value in quotes that itself holds no
    quote, the result is that value: spaces around the colon are accepted,
    and the fields before and after play no part. *)
Theorem json_get_string_spec (key : string) :
  (forall j, contains (jq key) j = false -> json_get_string j key = EmptyString) /\
  (forall pre g1 g2 v post,
     contains (jq key) (pre +:+ DQ +:+ key) = false ->
     lacks ":" g1 = true -> noq g2 = true -> noq v = true ->
     json_get_string
       (pre +:+ jq key +:+ g1 +:+ ":" +:+ g2 +:+ jq v +:+ post) key = v).
Proof.
  split.
  - intros j H. unfold json_get_string.
    change (DQ +:+ key +:+ DQ) with (jq key).
    by rewrite index_absent.
  - intros pre g1 g2 v post Hfirst Hg1 Hg2 Hv.
    set (j := pre +:+ jq key +:+ g1 +:+ ":" +:+ g2 +:+ jq v +:+ post).
    unfold json_get_string. change (DQ +:+ key +:+ DQ) with (jq key).
    unfold j at 1. rewrite index_key_first by exact Hfirst.
    set (A0 := pre +:+ jq key).
    assert (E0 : j = A0 +:+ (g1 +:+ String ":" (g2 +:+ jq v +:+ post))).
    { unfold j, A0. by rewrite !string_app_assoc. }
    assert (L0 : (String.length pre + String.length (jq key))%nat
                 = (String.length A0 + 0)%nat).
    { unfold A0. rewrite length_append. lia. }
    rewrite L0. rewrite E0 at 1. rewrite index_skip, index_char_first by exact Hg1.
    cbn [option_map].
    set (A1 := A0 +:+ g1).
    assert (E1 : j = A1 +:+ ((":" +:+ g2) +:+ String "034" (v +:+ DQ +:+ post))).
    { rewrite E0. unfold A1, jq. by rewrite !string_app_assoc. }
    assert (L1 : (String.length A0 + String.length g1)%nat
                 = (String.length A1 + 0)%nat).
    { unfold A1. rewrite length_append. lia. }
    rewrite L1. rewrite E1 at 1. rewrite index_skip.
    change DQ with (String "034" EmptyString) at 1.
    rewrite index_char_first by (exact Hg2).
    cbn [option_map].
    set (A2 := A1 +:+ (":" +:+ g2) +:+ DQ).
    assert (E2 : j = A2 +:+ (v +:+ String "034" post)).
    { rewrite E1. unfold A2. by rewrite !string_app_assoc. }
    assert (L2 : (String.length A1 + String.length (":" +:+ g2) + 1)%nat
                 = (String.length A2 + 0)%nat).
    { unfold A2. rewrite !length_append. cbn. lia. }
    rewrite L2. rewrite E2 at 1. rewrite index_skip.
    change DQ with (String "034" EmptyString) at 1.
    rewrite index_char_first by (exact Hv).
    cbn [option_map].
    rewrite Nat.add_0_r.
    replace (String.length A2 + String.length v - String.length A2)%nat
      with (String.length v) by lia.
    rewrite E2. apply substring_at.
Qed.

End GetString.

Lemma json_get_string_spec_witness :
  let pre := "{" +:+ jq "op" +:+ ":" +:+ jq "x" +:+ ", " in
  let j := pre +:+ jq "msisdn" +:+ " " +:+ ":" +:+ "  " +:+ jq "+1" +:+ " }" in
  contains (jq "msisdn") (pre +:+ DQ +:+ "msisdn") = false /\
  json_get_string j "msisdn" = "+1" /\
  contains (jq "imsi") j = false /\
  json_get_string j "imsi" = EmptyString.
Proof.
  intros pre j.
  assert (H1 : contains (jq "msisdn") (pre +:+ DQ +:+ "msisdn") = false) by reflexivity.
  assert (H2 : contains (jq "imsi") j = false) by reflexivity.
  split; [exact H1 |]. split; [| split; [exact H2 |]].
  - exact (proj2 (json_get_string_spec "msisdn") pre " " "  " "+1" " }"
             H1 eq_refl eq_refl eq_refl).
  - exact (proj1 (json_get_string_spec "imsi") j H2).
Defined.

(** * Replies and descriptors *)

Section ReplyAddress.

Variables (t : Task) (s : Server) (p : Pending).

(** X15. The worker addresses its reply by descriptor number.  When the
    connection of the request has left the table by the time of the reply,
    the response is dropped and no connection changes.  When the descriptor
    has meanwhile been given to a newly accepted connection, the response
    line is queued on that new connection and its write interest is set. *)
Theorem reply_by_descriptor :
  slots s !! t_pend t = Some p ->
  worker_reply t (close_conn (t_fd t) s) = close_conn (t_fd t) s /\
  conns (worker_reply t (accept_conn (t_fd t) (close_conn (t_fd t) s))) !! t_fd t
  = Some {| fd := t_fd t; inbuf := EmptyString; outq := [resp p +:+ NL];
            want_write := true |}.
Proof.
  intros Hp. split.
  - unfold worker_reply. cbn [slots close_conn set_conns conns]. rewrite Hp.
    by rewrite lookup_delete_eq.
  - set (s1 := accept_conn (t_fd t) (close_conn (t_fd t) s)).
    assert (Hc : conns s1 !! t_fd t =
                 Some {| fd := t_fd t; inbuf := EmptyString; outq := [];
                         want_write := false |}).
    { unfold s1, accept_conn, close_conn. cbn [conns set_conns].
      rewrite lookup_delete_eq. cbn [conns set_conns]. apply lookup_insert_eq. }
    assert (Hs : slots s1 !! t_pend t = Some p).
    { unfold s1, accept_conn, close_conn. cbn [conns set_conns].
      rewrite lookup_delete_eq. exact Hp. }
    by rewrite (worker_reply_conn t s1 p _ Hs Hc).
Qed.

End ReplyAddress.

Lemma reply_by_descriptor_witness :
  let t := mkTask 5 1 1%positive "{}" in
  let s := {| conns := {[ 5 := mkConn 5 "x" [] false ]};
              pending := ∅;
              slots := {[ 1%positive := mkPending true "{r}" ]};
              corr_counter := 2; pool := mkPool false [] |} in
  slots s !! t_pend t = Some (mkPending true "{r}") /\
  conns (worker_reply t (accept_conn 5 (close_conn 5 s))) !! 5
  = Some {| fd := 5; inbuf := EmptyString; outq := ["{r}" +:+ NL];
            want_write := true |}.
Proof.
  intros t s.
  assert (H : slots s !! t_pend t = Some (mkPending true "{r}")) by reflexivity.
  split; [exact H |].
  exact (proj2 (reply_by_descriptor t s _ H)).
Defined.

(** * The size of the pending table *)

Section PendingBound.

Lemma size_on_line (cfd : Z) (line : string) (s s' : Server) :
  on_line cfd line s = Ret s' ->
  Z.of_nat (size (pending s)) <= MAX_PENDING + 1 ->
  Z.of_nat (size (pending s')) <= MAX_PENDING + 1.
Proof.
  unfold on_line. destruct (empty (trim_newline line)); [by intros [= <-] |].
  destruct (Z.of_nat (size (pending s)) >? MAX_PENDING) eqn:E.
  - intros [= <-] H.
    replace (pending (enable_write cfd true (push_out cfd BUSY_LINE s)))
      with (pending s); [exact H |].
    unfold enable_write, push_out. cbn [conns set_conns].
    by destruct (alter _ cfd (conns s) !! cfd).
  - cbn [next_corr_id make_shared_Pending set_slots slots pending conns
         corr_counter pool].
    destruct (submit _ (pool s)) as [pl|e]; [| done].
    intros [= <-] _. cbn [pending]. unfold emplace.
    rewrite Z.gtb_ltb in E. apply Z.ltb_ge in E.
    destruct (pending s !! corr_counter s) eqn:El; [lia |].
    rewrite map_size_insert_None by exact El. lia.
Qed.

Lemma size_step (s s' : Server) (ev : event) :
  step s ev s' ->
  Z.of_nat (size (pending s)) <= MAX_PENDING + 1 ->
  Z.of_nat (size (pending s')) <= MAX_PENDING + 1.
Proof.
  intros Hstep H.
  inversion Hstep as [cfd line s0 s0' Hl | data s0 | t os s0 | t s0 | t s0]; subst.
  - by apply (size_on_line _ _ _ _ Hl).
  - destruct (dispatch_cases data s) as [E | (h & pl & p0 & _ & _ & Hp & E)];
      rewrite E; [exact H |].
    rewrite pending_complete. cbn [pending].
    rewrite map_size_delete, Hp. lia.
  - by rewrite pending_worker_send.
  - by rewrite pending_worker_wait.
  - by rewrite pending_worker_reply.
Qed.

Lemma size_line_loop (cfd : Z) (fuel : nat) (s s' : Server) :
  line_loop fuel cfd s = Some (Ret s') ->
  Z.of_nat (size (pending s)) <= MAX_PENDING + 1 ->
  Z.of_nat (size (pending s')) <= MAX_PENDING + 1.
Proof.
  revert s. induction fuel as [|g IH]; intros s H Hs; [done |].
  cbn [line_loop] in H. destruct (conns s !! cfd) as [c|]; [| by injection H as <-].
  destruct (take_line (inbuf c)) as [[line rest]|]; [| by injection H as <-].
  match type of H with context [on_line cfd line ?x] => set (s1 := x) in * end.
  destruct (on_line cfd line s1) as [s2|e] eqn:Eo; [| done].
  apply (IH s2 H). by apply (size_on_line _ _ _ _ Eo).
Qed.

Lemma size_on_readable (cfd : Z) (chunks : list string) (fin : read_end)
    (s s' : Server) :
  on_readable cfd chunks fin s = Some (Ret s') ->
  Z.of_nat (size (pending s)) <= MAX_PENDING + 1 ->
  Z.of_nat (size (pending s')) <= MAX_PENDING + 1.
Proof.
  revert s. induction chunks as [|data rest IH]; intros s H Hs.
  - cbn in H. by destruct fin; injection H as <-.
  - cbn [on_readable] in H. destruct (feed cfd data s) as [[s1|e]|] eqn:E; try done.
    apply (IH s1 H). unfold feed in E.
    destruct (conns (append_inbuf cfd data s) !! cfd); [| by injection E as <-].
    by apply (size_line_loop _ _ _ _ E).
Qed.

Lemma pending_on_writable (cfd : Z) (ws : nat -> os_write) (s : Server) :
  pending (fst (on_writable cfd ws s)) = pending s.
Proof.
  unfold on_writable. destruct (conns s !! cfd) as [c|]; [| done].
  destruct (write_loop (outq c) ws 0) as [q' closed snt].
  cbn [w_outq w_closed w_sent]. destruct closed; [done |].
  destruct q' as [|x q']; [| done]. cbn [fst].
  unfold enable_write. cbn [conns set_conns]. by rewrite lookup_insert_eq.
Qed.

(** X16. Backpressure bounds the pending table: along every run of the
    server from its start it never holds more than 100001 entries, the
    ceiling plus one, because an entry is inserted only when the table
    holds at most 100000. *)
Theorem pending_bounded (evs : list io_event) (s : Server) :
  io_run (init ∅) evs s ->
  Z.of_nat (size (pending s)) <= MAX_PENDING + 1.
Proof.
  assert (Hgen : forall s0 s1, io_run s0 evs s1 ->
            Z.of_nat (size (pending s0)) <= MAX_PENDING + 1 ->
            Z.of_nat (size (pending s1)) <= MAX_PENDING + 1).
  { induction evs as [|ev evs IH]; intros s0 s1 Hrun Hs.
    - inversion Hrun; by subst.
    - inversion Hrun as [| ? ? sm ? ? Hst Hrest]; subst.
      apply (IH sm s1 Hrest). inversion Hst; subst.
      + by eapply size_step.
      + unfold accept_conn. by destruct (conns s0 !! cfd).
      + done.
      + by rewrite pending_on_writable.
      + by eapply size_on_readable. }
  intros Hrun. apply (Hgen _ _ Hrun). cbn [init pending].
  rewrite map_size_empty. unfold MAX_PENDING. lia.
Qed.

End PendingBound.

Lemma pending_bounded_witness :
  let evs := [IoAccept 5; IoReadable 5 ["{}" +:+ NL +:+ "{}" +:+ NL] RdAgain] in
  exists s, io_run (init ∅) evs s /\
            Z.of_nat (size (pending s)) <= MAX_PENDING + 1.
Proof.
  intros evs.
  assert (H : {s | io_run (init ∅) evs s}).
  { eexists. eapply io_run_cons; [apply io_accept |].
    eapply io_run_cons; [apply io_readable; vm_compute; reflexivity |].
    apply io_run_nil. }
  destruct H as [s H]. exists s. split; [exact H |].
  exact (pending_bounded evs s H).
Defined.

Lemma wrong_kind_dropped_witness :
  let data := pack RouteReq 7 "{}" in
  handle data 0 1 <> None /\
  exists h payload, unpack data = Some (h, payload) /\
                    type h = msgtype_code RouteReq.
Proof.
  intros data.
  assert (H : handle data 0 1 <> None) by (vm_compute; discriminate).
  split; [exact H |].
  exact (proj1 (wrong_kind_dropped data 0 1 (init ∅)) H).
Defined.

Lemma response_fields_witness :
  let payload := "{" +:+ jq "op" +:+ ":" +:+ jq "route" +:+ "," +:+
                 jq "msisdn" +:+ ":" +:+ jq "+442079460123" +:+ "}" in
  let h := mkHdr MAGIC 1 1 9 0 0 in
  let rec := mkRec "234150111222333" "MSC_LON_01" "VLR_LON_01" "UK" in
  lookup_msisdn (json_get_string payload "msisdn") = Some rec /\
  contains (jq "serving_msc" +:+ ":" +:+ jq "MSC_LON_01")
    (response h payload 10 12) = true /\
  contains (jq "route_group" +:+ ":" +:+ jq (route_policy rec))
    (response h payload 10 12) = true.
Proof.
  intros payload h rec.
  assert (H : lookup_msisdn (json_get_string payload "msisdn") = Some rec)
    by (vm_compute; reflexivity).
  split; [exact H |].
  destruct (proj1 (proj2 (response_fields h payload 10 12)) rec H)
    as (_ & _ & H2 & _ & H4 & _).
  split; [exact H2 | exact H4].
Defined.
